(** * sssh: the in-memory filesystem and the StupidlySimpleShell

    A shallow embedding of [src/sssh.py].  Python objects live in a heap
    (a list of nodes, an object reference is an index into it), every
    method is a function over the shell state in a small state-and-error
    monad, and [pathlib.Path] is modelled by its POSIX flavour. *)

From Stdlib Require Import ZArith Lia String Ascii List Bool Sorted Permutation.
From stdpp Require Import base list strings.

Open Scope string_scope.

(** ** pathlib.PurePosixPath

    The part of the standard library the program relies on: a path is its
    root ("", "/" or "//") and the list of its components. *)
Module pathlib.

Record Path := mkPath { root : string; tail : list string }.

Definition is_sep (c : ascii) : bool := Ascii.eqb c "/".

(** [posixpath.splitroot]: exactly two leading slashes are kept as "//". *)
Definition splitroot (p : string) : string * string :=
  match p with
  | String c1 r1 =>
      if is_sep c1 then
        match r1 with
        | String c2 r2 =>
            if is_sep c2 then
              match r2 with
              | String c3 _ => if is_sep c3 then ("/", r1) else ("//", r2)
              | EmptyString => ("//", r2)
              end
            else ("/", r1)
        | EmptyString => ("/", r1)
        end
      else ("", p)
  | EmptyString => ("", p)
  end.

(** [str.split("/")] *)
Fixpoint split_sep (s : string) : list string :=
  match s with
  | EmptyString => [EmptyString]
  | String c r =>
      if is_sep c then EmptyString :: split_sep r
      else match split_sep r with
           | x :: xs => String c x :: xs
           | [] => [String c EmptyString]
           end
  end.

(** a component survives parsing when it is neither empty nor "." *)
Definition keep (x : string) : bool := negb (x =? "") && negb (x =? ".").

(** [pathlib.Path(s)] *)
Definition of_str (s : string) : Path :=
  let '(r, rel) := splitroot s in mkPath r (List.filter keep (split_sep rel)).

(** [path.parts] *)
Definition parts (p : Path) : list string :=
  if root p =? "" then tail p else root p :: tail p.

(** [path.name] *)
Definition name (p : Path) : string := default "" (last (tail p)).

(** [path.parent] *)
Definition parent (p : Path) : Path :=
  match tail p with
  | [] => p
  | _ :: _ => mkPath (root p) (removelast (tail p))
  end.

Fixpoint join_sep (l : list string) : string :=
  match l with
  | [] => ""
  | [x] => x
  | x :: xs => x ++ "/" ++ join_sep xs
  end.

(** [str(path)] *)
Definition str (p : Path) : string :=
  match root p, tail p with
  | EmptyString, [] => "."
  | r, t => r ++ join_sep t
  end.

(** [a / b] for two paths: an absolute right operand wins. *)
Definition joinpath (a b : Path) : Path :=
  if root b =? "" then mkPath (root a) (tail a ++ tail b) else b.

(** [key / path] for a string on the left ([__rtruediv__]) *)
Definition rtruediv (key : string) (p : Path) : Path := joinpath (of_str key) p.

(** [path / key] for a string on the right ([__truediv__]) *)
Definition truediv (p : Path) (key : string) : Path := joinpath p (of_str key).

End pathlib.

Abbreviation Path := pathlib.Path.

(** ** Objects, heap and shell state *)

(** the opaque payloads ([Any]) a leaf or a metadata entry can hold *)
Inductive value := PyNone | PyInt (z : Z) | PyStr (s : string).

Inductive exn :=
| DuplicateNodeNameError (n : string)
| NodeDoesNotExistError (n : string)
| InvalidPathError
| KeyError
| ValueError
| AttributeError
| IndexError.

(** The two concrete node classes.  A [Node] carries the [_members] of the
    [NodeSet] it owns, in iteration order; a callback is known by its
    identity only. *)
Inductive node_kind :=
| Node (_members : list nat)
| LeafNode (_data : value) (_callbacks : list nat).

Record obj := mkObj {
  _name : string;
  _parent : option nat;
  _meta : list (value * value);
  _kind : node_kind
}.

(** [heap]: every object ever constructed; [root]: [Filesystem._root];
    [_cwd]: the shell's working directory; [calls]: the callbacks invoked
    so far, oldest first, each with the path it received. *)
Record state := mkState {
  heap : list obj;
  root : nat;
  _cwd : nat;
  calls : list (nat * Path)
}.

Definition void : obj := mkObj "" None [] (LeafNode PyNone []).

(** Every reference stored in the heap is allocated before it is stored, so
    the default is never read by the program. *)
Definition deref (s : state) (n : nat) : obj := default void (heap s !! n).

Definition name (s : state) (n : nat) : string := _name (deref s n).
Definition parent (s : state) (n : nat) : option nat := _parent (deref s n).
Definition kind (s : state) (n : nat) : node_kind := _kind (deref s n).

(** [isinstance(n, Node)] and [isinstance(n, LeafNode)] *)
Definition is_Node (s : state) (n : nat) : bool :=
  match kind s n with Node _ => true | LeafNode _ _ => false end.
Definition is_LeafNode (s : state) (n : nat) : bool := negb (is_Node s n).

Definition members (s : state) (n : nat) : list nat :=
  match kind s n with Node ms => ms | LeafNode _ _ => [] end.

Definition set_heap (s : state) (h : list obj) : state :=
  mkState h (root s) (_cwd s) (calls s).

Definition update (n : nat) (f : obj → obj) (s : state) : state :=
  set_heap s (alter f n (heap s)).

Definition with_name (x : string) (o : obj) : obj :=
  mkObj x (_parent o) (_meta o) (_kind o).
Definition with_parent (p : option nat) (o : obj) : obj :=
  mkObj (_name o) p (_meta o) (_kind o).
Definition with_meta (m : list (value * value)) (o : obj) : obj :=
  mkObj (_name o) (_parent o) m (_kind o).
Definition with_kind (k : node_kind) (o : obj) : obj :=
  mkObj (_name o) (_parent o) (_meta o) k.

(** ** Outcomes and the state-and-error monad

    A call returns, raises, or never returns ([Hang]); the state reached
    is kept in all three cases, as Python keeps mutations made before an
    exception. *)
Inductive outcome (A : Type) :=
| Ok (a : A)
| Raise (e : exn)
| Hang.
Arguments Ok {A} a.
Arguments Raise {A} e.
Arguments Hang {A}.

Definition M (A : Type) : Type := state → outcome A * state.

Definition ret {A} (a : A) : M A := fun s => (Ok a, s).
Definition raise {A} (e : exn) : M A := fun s => (Raise e, s).
Definition bind {A B} (m : M A) (k : A → M B) : M B :=
  fun s => match m s with
           | (Ok a, s') => k a s'
           | (Raise e, s') => (Raise e, s')
           | (Hang, s') => (Hang, s')
           end.
(** a read-only computation *)
Definition lift {A} (f : state → outcome A) : M A := fun s => (f s, s).
Definition gets {A} (f : state → A) : M A := fun s => (Ok (f s), s).
Definition modify (f : state → state) : M unit := fun s => (Ok tt, f s).
(** [try: m except ...]: the handler says which exceptions it takes *)
Definition try {A} (m : M A) (handler : exn → option (M A)) : M A :=
  fun s => match m s with
           | (Raise e, s') =>
               match handler e with Some h => h s' | None => (Raise e, s') end
           | r => r
           end.

Notation "'let!' x ':=' m 'in' k" := (bind m (fun x => k))
  (at level 10, x name, m at level 100, k at level 200).

(** the same bind for read-only code *)
Definition obind {A B} (o : outcome A) (k : A → outcome B) : outcome B :=
  match o with Ok a => k a | Raise e => Raise e | Hang => Hang end.

(** [except NodeDoesNotExistError: raise InvalidPathError(...)] *)
Definition nde_to_invalid {A} (e : exn) : option (M A) :=
  match e with NodeDoesNotExistError _ => Some (raise InvalidPathError) | _ => None end.
(** [except InvalidPathError as err: raise err from None] *)
Definition reraise_invalid {A} (e : exn) : option (M A) :=
  match e with InvalidPathError => Some (raise InvalidPathError) | _ => None end.
(** [except NodeDoesNotExistError as err: raise err from None] *)
Definition reraise_nde {A} (e : exn) : option (M A) :=
  match e with NodeDoesNotExistError n => Some (raise (NodeDoesNotExistError n)) | _ => None end.
(** [except DuplicateNodeNameError: raise InvalidPathError(...)] *)
Definition dup_to_invalid {A} (e : exn) : option (M A) :=
  match e with DuplicateNodeNameError _ => Some (raise InvalidPathError) | _ => None end.
(** [except KeyError: raise KeyError(...)] *)
Definition reraise_key {A} (e : exn) : option (M A) :=
  match e with KeyError => Some (raise KeyError) | _ => None end.

(** ** NodeSet

    A [NodeSet] is identified with the [Node] that owns it: its [_members]
    are that node's.  Asking a [LeafNode] for [children] raises
    [AttributeError].  Members are kept in iteration order; where names are
    unique that order cannot be observed.  A Python [set] yields its members
    in an order that depends on their hashes: the list stands for one such
    order (here the order of insertion), and a statement whose outcome
    depends on it says which member is yielded first. *)

Definition children (s : state) (owner : nat) : outcome (list nat) :=
  match kind s owner with
  | Node ms => Ok ms
  | LeafNode _ _ => Raise AttributeError
  end.

Definition set_members (owner : nat) (ms : list nat) : state → state :=
  update owner (with_kind (Node ms)).

(** [set.add], [set.remove] on object identities *)
Definition set_add (n : nat) (ms : list nat) : list nat :=
  if existsb (Nat.eqb n) ms then ms else ms ++ [n].
Definition set_remove (n : nat) (ms : list nat) : list nat :=
  List.filter (fun m => negb (Nat.eqb m n)) ms.

Definition has_name (s : state) (x : string) (m : nat) : bool := name s m =? x.

(** [NodeSet.__contains__] (a node argument is compared by its name) *)
Definition NodeSet_contains (s : state) (ms : list nat) (x : string) : bool :=
  existsb (has_name s x) ms.

(** [NodeSet.add] *)
Definition NodeSet_add (owner node : nat) : M unit :=
  let! ms := lift (fun s => children s owner) in
  let! dup := gets (fun s => NodeSet_contains s ms (name s node)) in
  if dup then let! x := gets (fun s => name s node) in raise (DuplicateNodeNameError x)
  else modify (set_members owner (set_add node ms)).

(** [NodeSet.get] *)
Definition NodeSet_get (s : state) (ms : list nat) (x : string) : outcome nat :=
  match List.find (has_name s x) ms with
  | Some m => Ok m
  | None => Raise (NodeDoesNotExistError x)
  end.

(** [NodeSet.remove] *)
Definition NodeSet_remove (owner : nat) (x : string) : M nat :=
  let! ms := lift (fun s => children s owner) in
  let! m := lift (fun s => NodeSet_get s ms x) in
  let! _ := modify (set_members owner (set_remove m ms)) in
  ret m.

(** ** AbstractNode, LeafNode, Node *)

(** [AbstractNode.set_parent] *)
Definition set_parent (self : nat) (p : option nat) : M unit :=
  let! old_parent := gets (fun s => parent s self) in
  let! _ := match old_parent with
            | Some old =>
                let! x := gets (fun s => name s self) in
                let! _ := NodeSet_remove old x in ret tt
            | None => ret tt
            end in
  let! _ := match p with
            | Some new => NodeSet_add new self
            | None => ret tt
            end in
  modify (update self (with_parent p)).

(** [AbstractNode.get_path].  The loop climbs the parent references; on a
    heap of [n] objects a climb of more than [n] steps has entered a cycle
    and never ends. *)
Fixpoint get_path_loop (fuel : nat) (s : state) (self : nat) (path : Path)
  : outcome Path :=
  match fuel with
  | 0 => Hang
  | S fuel' =>
      match parent s self with
      | None => Ok path
      | Some p => get_path_loop fuel' s p (pathlib.rtruediv (name s p) path)
      end
  end.

Definition get_path (s : state) (self : nat) : outcome Path :=
  get_path_loop (S (length (heap s))) s self (pathlib.of_str (name s self)).

(** the constructors: the object is allocated, then [set_parent] runs on
    it; it has no [_parent] attribute yet, so nothing is detached first *)
Definition alloc (o : obj) : M nat :=
  fun s => (Ok (length (heap s)), set_heap s (heap s ++ [o])).

(** [Node(name=x, parent=p)] *)
Definition Node_init (x : string) (p : option nat) : M nat :=
  let! self := alloc (mkObj x None [] (Node [])) in
  let! _ := set_parent self p in
  ret self.

(** [LeafNode(name=x, parent=p)] *)
Definition LeafNode_init (x : string) (p : option nat) : M nat :=
  let! self := alloc (mkObj x None [] (LeafNode PyNone [])) in
  let! _ := set_parent self p in
  ret self.

(** [Node.get_child]; a [LeafNode] has no such method *)
Definition get_child (s : state) (self : nat) (x : string) : outcome nat :=
  obind (children s self) (fun ms => NodeSet_get s ms x).

(** [Node.remove_child] *)
Definition remove_child (self : nat) (x : string) : M nat :=
  let! child := lift (fun s => get_child s self x) in
  let! _ := set_parent child None in
  ret child.

(** [LeafNode.execute_callbacks]: calling a callback is recorded in
    [calls]; what a callback does beyond that is outside the program. *)
Definition execute_callbacks (self : nat) : M unit :=
  let! path := lift (fun s => get_path s self) in
  modify (fun s =>
    let cbs := match kind s self with LeafNode _ cbs => cbs | Node _ => [] end in
    mkState (heap s) (root s) (_cwd s) (calls s ++ map (fun c => (c, path)) cbs)).

Definition store_data (d : value) (o : obj) : obj :=
  match _kind o with
  | LeafNode _ cbs => with_kind (LeafNode d cbs) o
  | Node _ => o
  end.
Definition store_callbacks (cbs : list nat) (o : obj) : obj :=
  match _kind o with
  | LeafNode d _ => with_kind (LeafNode d cbs) o
  | Node _ => o
  end.
Definition data (s : state) (n : nat) : value :=
  match kind s n with LeafNode d _ => d | Node _ => PyNone end.
Definition callbacks (s : state) (n : nat) : list nat :=
  match kind s n with LeafNode _ cbs => cbs | Node _ => [] end.

(** [LeafNode.set_data], [LeafNode.clear_data] *)
Definition LeafNode_set_data (self : nat) (d : value) : M unit :=
  let! _ := modify (update self (store_data d)) in
  execute_callbacks self.
Definition LeafNode_clear_data (self : nat) : M unit :=
  let! _ := modify (update self (store_data PyNone)) in
  execute_callbacks self.

(** [LeafNode.watch] *)
Definition watch (self callback : nat) : M unit :=
  modify (fun s => update self (store_callbacks (set_add callback (callbacks s self))) s).

(** [LeafNode.unwatch]: [set.remove] raises [KeyError] on an absent element *)
Fixpoint unwatch_each (self : nat) (cbs : list nat) : M unit :=
  match cbs with
  | [] => ret tt
  | c :: rest =>
      let! present := gets (fun s => existsb (Nat.eqb c) (callbacks s self)) in
      if present
      then let! _ := modify (fun s =>
                       update self (store_callbacks (set_remove c (callbacks s self))) s) in
           unwatch_each self rest
      else raise KeyError
  end.
Definition unwatch (self : nat) (cbs : list nat) : M unit :=
  match cbs with
  | [] => modify (update self (store_callbacks []))
  | _ :: _ => unwatch_each self cbs
  end.

(** the metadata dictionary, as an association list with unique keys *)
Definition value_eqb (a b : value) : bool :=
  match a, b with
  | PyNone, PyNone => true
  | PyInt x, PyInt y => Z.eqb x y
  | PyStr x, PyStr y => x =? y
  | _, _ => false
  end.
Definition dict_get (d : list (value * value)) (k : value) : option value :=
  snd <$> List.find (fun kv => value_eqb (fst kv) k) d.
Definition dict_del (d : list (value * value)) (k : value) : list (value * value) :=
  List.filter (fun kv => negb (value_eqb (fst kv) k)) d.
Definition dict_set (d : list (value * value)) (k v : value) : list (value * value) :=
  match dict_get d k with
  | Some _ => map (fun kv => if value_eqb (fst kv) k then (k, v) else kv) d
  | None => d ++ [(k, v)]
  end.

(** [AbstractNode.get_metadata], [set_metadata], [del_metadata] *)
Definition Node_get_metadata (s : state) (self : nat) (k : value) : outcome value :=
  match dict_get (_meta (deref s self)) k with
  | Some v => Ok v
  | None => Raise KeyError
  end.
Definition Node_set_metadata (self : nat) (k v : value) : M unit :=
  modify (fun s => update self (with_meta (dict_set (_meta (deref s self)) k v)) s).
Definition Node_del_metadata (self : nat) (k : value) : M value :=
  let! v := lift (fun s => Node_get_metadata s self k) in
  let! _ := modify (fun s => update self (with_meta (dict_del (_meta (deref s self)) k)) s) in
  ret v.

(** ** Filesystem *)

Fixpoint walk (s : state) (node : nat) (parts : list string) : outcome nat :=
  match parts with
  | [] => Ok node
  | part :: rest => obind (get_child s node part) (fun c => walk s c rest)
  end.

(** [Filesystem.get_node]: unpacking [root, *parts] of an empty tuple
    raises [ValueError]. *)
Definition get_node (s : state) (path : Path) : outcome nat :=
  match pathlib.parts path with
  | [] => Raise ValueError
  | r :: parts =>
      obind (if r =? name s (root s) then Ok (root s) else get_child s (root s) r)
            (fun node => walk s node parts)
  end.

(** [Filesystem.remove_node] *)
Definition remove_node (path : Path) : M nat :=
  let! node := try (lift (fun s => get_node s (pathlib.parent path))) nde_to_invalid in
  let! isdir := gets (fun s => is_Node s node) in
  if negb isdir then raise InvalidPathError
  else try (remove_child node (pathlib.name path)) nde_to_invalid.

(** [Filesystem.move_node] up to and including the renaming of the source:
    returns the source node and the node that becomes its parent. *)
Definition move_node_rename (source_path target_path : Path) : M (nat * nat) :=
  if pathlib.name source_path =? "" then raise InvalidPathError
  else if pathlib.name target_path =? "" then raise InvalidPathError
  else
    let! source := try (lift (fun s => get_node s source_path)) nde_to_invalid in
    let! target :=
      try (lift (fun s => get_node s target_path))
          (fun e => match e with
                    | NodeDoesNotExistError _ => Some (
                        let! target :=
                          try (lift (fun s => get_node s (pathlib.parent target_path)))
                              nde_to_invalid in
                        let! _ := modify (update source (with_name (pathlib.name target_path))) in
                        ret target)
                    | _ => None
                    end) in
    ret (source, target).

(** [Filesystem.move_node] *)
Definition move_node (source_path target_path : Path) : M unit :=
  let! st := move_node_rename source_path target_path in
  let! isdir := gets (fun s => is_Node s (snd st)) in
  if negb isdir then raise InvalidPathError
  else set_parent (fst st) (Some (snd st)).

(** ** StupidlySimpleShell *)

(** [StupidlySimpleShell()]: a filesystem holding only the root ["/"],
    which is also the working directory. *)
Definition init : state := mkState [mkObj "/" None [] (Node [])] 0 0 [].

(** [pwd] *)
Definition pwd (s : state) : outcome Path := get_path s (_cwd s).

(** [del parts[i]] with Python's indexing: a negative index counts from the
    end, an index out of range raises [IndexError]. *)
Definition py_del (parts : list string) (i : Z) : outcome (list string) :=
  let n := Z.of_nat (length parts) in
  if (0 <=? i)%Z && (i <? n)%Z then Ok (delete (Z.to_nat i) parts)
  else if (- n <=? i)%Z && (i <? 0)%Z then Ok (delete (Z.to_nat (n + i)) parts)
  else Raise IndexError.

(** The [for idx, part in enumerate(parts)] loop of [resolve_path], which
    deletes from [parts] while iterating over it: the iterator is at
    position [idx] of the list as it is now.  It runs at most once per
    element of the initial list. *)
Fixpoint collapse (fuel idx : nat) (parts : list string) : outcome (list string) :=
  match fuel with
  | 0 => Ok parts
  | S fuel' =>
      match parts !! idx with
      | None => Ok parts
      | Some part =>
          if part =? "." then
            obind (py_del parts (Z.of_nat idx)) (collapse fuel' (S idx))
          else if part =? ".." then
            obind (py_del parts (Z.of_nat idx)) (fun parts1 =>
            obind (match parts1 with
                   | [] => Ok parts1
                   | _ :: _ => py_del parts1 (Z.of_nat idx - 1)
                   end) (collapse fuel' (S idx)))
          else collapse fuel' (S idx) parts
      end
  end.

Definition mem (x : string) (l : list string) : bool := existsb (String.eqb x) l.

(** [StupidlySimpleShell.resolve_path] *)
Definition resolve_path (s : state) (p : string) : outcome Path :=
  let path := pathlib.of_str p in
  obind (match pathlib.parts path with
         | r :: parts => Ok (r, parts)
         | [] => if negb (pathlib.str path =? ".") then Raise InvalidPathError
                 else Ok (".", [])
         end) (fun rp =>
  obind (if negb (fst rp =? name s (root s)) then
           obind (pwd s) (fun cw =>
             let path' := pathlib.joinpath cw path in
             match pathlib.parts path' with
             | r :: parts => Ok (path', (r, parts))
             | [] => Raise ValueError
             end)
         else Ok (path, rp)) (fun prp =>
  let '(path, (r, parts)) := prp in
  if mem "." parts || mem ".." parts then
    obind (collapse (length parts) 0 parts) (fun parts' =>
      Ok (fold_left pathlib.truediv parts' (pathlib.of_str r)))
  else Ok path)).

(** the [resolved_path] decorator *)
Definition resolved {A} (f : Path → M A) (p : string) : M A :=
  let! path := lift (fun s => resolve_path s p) in f path.
Definition resolved2 {A} (f : Path → Path → M A) (p1 p2 : string) : M A :=
  let! path1 := lift (fun s => resolve_path s p1) in
  let! path2 := lift (fun s => resolve_path s p2) in
  f path1 path2.

(** [cd] *)
Definition cd : string → M unit :=
  resolved (fun path =>
    let! node := try (lift (fun s => get_node s path)) nde_to_invalid in
    let! isdir := gets (fun s => is_Node s node) in
    if negb isdir then raise InvalidPathError
    else modify (fun s => mkState (heap s) (root s) node (calls s))).

Fixpoint mkdir_parents (node : nat) (parts : list string) : M unit :=
  match parts with
  | [] => ret tt
  | part :: rest =>
      let! node' := try (lift (fun s => get_child s node part))
                        (fun e => match e with
                                  | NodeDoesNotExistError _ => Some (Node_init part (Some node))
                                  | _ => None
                                  end) in
      let! isdir := gets (fun s => is_Node s node') in
      if negb isdir then raise InvalidPathError
      else mkdir_parents node' rest
  end.

(** [mkdir] *)
Definition mkdir (p : string) (parents : bool) : M unit :=
  resolved (fun path =>
    if pathlib.name path =? "" then raise InvalidPathError
    else if negb parents then
      let! par := try (lift (fun s => get_node s (pathlib.parent path))) nde_to_invalid in
      let! isdir := gets (fun s => is_Node s par) in
      if negb isdir then raise InvalidPathError
      else let! _ := try (Node_init (pathlib.name path) (Some par)) dup_to_invalid in ret tt
    else
      let! node := try (lift (fun s => get_node s (pathlib.of_str (pathlib.root path))))
                       reraise_invalid in
      let! isdir := gets (fun s => is_Node s node) in
      if negb isdir then raise InvalidPathError
      else mkdir_parents node (List.tl (pathlib.parts path))) p.

(** [mv] *)
Definition mv : string → string → M unit :=
  resolved2 (fun source_path target_path =>
    try (move_node source_path target_path) reraise_invalid).

(** [touch], with the default [file_type] *)
Definition touch : string → M unit :=
  resolved (fun path =>
    if pathlib.name path =? "" then raise InvalidPathError
    else
      let! par := try (lift (fun s => get_node s (pathlib.parent path))) nde_to_invalid in
      let! isdir := gets (fun s => is_Node s par) in
      if negb isdir then raise InvalidPathError
      else let! _ := try (LeafNode_init (pathlib.name path) (Some par)) dup_to_invalid in ret tt).

(** [get_data] *)
Definition get_data : string → M value :=
  resolved (fun path =>
    let! node := try (lift (fun s => get_node s path)) nde_to_invalid in
    let! isleaf := gets (fun s => is_LeafNode s node) in
    if negb isleaf then raise InvalidPathError
    else gets (fun s => data s node)).

(** [set_data] *)
Definition set_data (p : string) (d : value) : M unit :=
  resolved (fun path =>
    let! node := try (lift (fun s => get_node s path)) reraise_invalid in
    let! isleaf := gets (fun s => is_LeafNode s node) in
    if negb isleaf then raise InvalidPathError
    else LeafNode_set_data node d) p.

(** [clear_data] *)
Definition clear_data : string → M unit :=
  resolved (fun path =>
    let! node := try (lift (fun s => get_node s path)) reraise_invalid in
    let! isleaf := gets (fun s => is_LeafNode s node) in
    if negb isleaf then raise InvalidPathError
    else LeafNode_clear_data node).

(** [get_metadata] *)
Definition get_metadata (p : string) (key : value) : M value :=
  resolved (fun path =>
    let! node := try (lift (fun s => get_node s path)) reraise_invalid in
    try (lift (fun s => Node_get_metadata s node key)) reraise_key) p.

(** [set_metadata] *)
Definition set_metadata (p : string) (key v : value) : M unit :=
  resolved (fun path =>
    let! node := try (lift (fun s => get_node s path)) reraise_invalid in
    Node_set_metadata node key v) p.

(** [del_metadata] *)
Definition del_metadata (p : string) (key : value) : M value :=
  resolved (fun path =>
    let! node := try (lift (fun s => get_node s path)) reraise_invalid in
    try (Node_del_metadata node key) reraise_key) p.

(** [rm] *)
Definition rm (p : string) (recursive : bool) : M nat :=
  resolved (fun path =>
    let! node := try (lift (fun s => get_node s path)) nde_to_invalid in
    let! isdir := gets (fun s => is_Node s node) in
    if isdir && negb recursive then raise InvalidPathError
    else
      let! par := gets (fun s => parent s node) in
      match par with
      | None => raise InvalidPathError
      | Some par => let! x := gets (fun s => name s node) in remove_child par x
      end) p.

(** [sorted] on names *)
Fixpoint insert_sorted (x : string) (l : list string) : list string :=
  match l with
  | [] => [x]
  | y :: ys => if String.leb x y then x :: l else y :: insert_sorted x ys
  end.
Definition sorted (l : list string) : list string := fold_right insert_sorted [] l.

(** [ls] *)
Definition ls : string → M (list string) :=
  resolved (fun path =>
    let! node := try (lift (fun s => get_node s path)) reraise_invalid in
    let! isdir := gets (fun s => is_Node s node) in
    if negb isdir then raise InvalidPathError
    else gets (fun s => sorted (map (name s) (members s node)))).

(** [watch_file] *)
Definition watch_file (p : string) (callback : nat) : M unit :=
  resolved (fun path =>
    let! node := try (lift (fun s => get_node s path)) reraise_invalid in
    let! isleaf := gets (fun s => is_LeafNode s node) in
    if negb isleaf then raise InvalidPathError
    else watch node callback) p.

(** [unwatch_file] *)
Definition unwatch_file (p : string) (connections : list nat) : M unit :=
  resolved (fun path =>
    let! node := try (lift (fun s => get_node s path)) reraise_invalid in
    let! isleaf := gets (fun s => is_LeafNode s node) in
    if negb isleaf then raise InvalidPathError
    else unwatch node connections) p.

(** ** Running the shell *)

(** the state a call leaves behind, and what it returned *)
Definition exec {A} (m : M A) (s : state) : state := snd (m s).
Definition result {A} (m : M A) (s : state) : outcome A := fst (m s).

Fixpoint distinct (l : list string) : bool :=
  match l with
  | [] => true
  | x :: rest => negb (mem x rest) && distinct rest
  end.

(** the names held by the NodeSet of [d] are pairwise different *)
Definition names_unique (s : state) (d : nat) : bool :=
  distinct (map (name s) (members s d)).

(** no NodeSet of the heap holds [n] *)
Definition orphan (s : state) (n : nat) : bool :=
  forallb (fun d => negb (existsb (Nat.eqb n) (members s d))) (seq 0 (length (heap s))).

(** [/a/x], [/a/y] and an empty [/b] *)
Definition two_siblings : state :=
  exec (mkdir "/b" false)
    (exec (touch "/a/y") (exec (touch "/a/x") (exec (mkdir "/a" false) init))).

(** [/a/x] and [/b/x] *)
Definition same_name_twice : state :=
  exec (touch "/b/x")
    (exec (touch "/a/x") (exec (mkdir "/b" false) (exec (mkdir "/a" false) init))).

(** ** Shapes of the tree

    The conditions under which the tree of the heap is the rooted tree of
    the data model.  They are stated as checks over the heap so that they
    can be evaluated on a concrete state. *)

Definition all_objects (s : state) : list nat := seq 0 (length (heap s)).

(** every member of a NodeSet names the owner as its parent *)
Definition linked (s : state) : bool :=
  forallb (fun d => forallb (fun m =>
    match parent s m with Some p => Nat.eqb p d | None => false end) (members s d))
    (all_objects s).

(** the root has no parent *)
Definition root_top (s : state) : bool :=
  match parent s (root s) with None => true | Some _ => false end.

(** a string that [pathlib] reads back as the single component it is *)
Fixpoint no_sep (x : string) : bool :=
  match x with
  | EmptyString => true
  | String c r => negb (pathlib.is_sep c) && no_sep r
  end.
Definition valid_name (x : string) : bool := pathlib.keep x && no_sep x.

(** every object but the root carries such a name *)
Definition names_valid (s : state) : bool :=
  forallb (fun m => Nat.eqb m (root s) || valid_name (name s m)) (all_objects s).

(** no NodeSet holds two members of one name *)
Definition unique_names (s : state) : bool := forallb (names_unique s) (all_objects s).

(** [chain s n l a]: climbing the parent references from [n] passes the
    nodes [l] (first [n] itself) and arrives at [a]. *)
Inductive chain (s : state) : nat → list nat → nat → Prop :=
| chain_nil a : chain s a [] a
| chain_cons n p l a : parent s n = Some p → chain s p l a → chain s n (n :: l) a.

(** [attached s n l]: [n] hangs below the root by the links [l], each of
    them a parent reference matched by a membership in that parent's
    NodeSet. *)
Inductive attached (s : state) : nat → list nat → Prop :=
| attached_root : attached s (root s) []
| attached_child n p l :
    parent s n = Some p → n ∈ members s p → attached s p l → attached s n (n :: l).

(** [reaches s a m]: [m] is [a] or lies below it, following NodeSets down *)
Inductive reaches (s : state) (a : nat) : nat → Prop :=
| reaches_self : reaches s a a
| reaches_member d m : reaches s a d → m ∈ members s d → reaches s a m.

(** the state after the member [n] of [q] has been detached from it *)
Definition detached (s : state) (q n : nat) : state :=
  update n (with_parent None) (set_members q (set_remove n (members s q)) s).

(** two states with the same tree: they may differ in what the leaves hold
    and in the calls recorded *)
Definition same_tree (s s' : state) : Prop :=
  length (heap s') = length (heap s) ∧ root s' = root s ∧ _cwd s' = _cwd s ∧
  ∀ m, name s' m = name s m ∧ parent s' m = parent s m ∧
       children s' m = children s m.

(** [/a/b] with the shell standing in it, and a watched-to-be leaf [/x] *)
Definition inside_a_b : state := exec (cd "/a/b") (exec (mkdir "/a/b" true) init).
Definition one_leaf : state := exec (touch "/x") init.
(** [/a/b/f] *)
Definition nested_leaf : state := exec (touch "/a/b/f") (exec (mkdir "/a/b" true) init).

(** [/a/y] made before [/a/x], so that the NodeSet of [/a] yields [y]
    first; beside them [/b] and [/c/y].  First with leaves, then with
    directories and without [/c]. *)
Definition y_before_x : state :=
  exec (touch "/c/y") (exec (mkdir "/c" false) (exec (mkdir "/b" false)
    (exec (touch "/a/x") (exec (touch "/a/y") (exec (mkdir "/a" false) init))))).

Definition dir_y_before_dir_x : state :=
  exec (mkdir "/b" false)
    (exec (mkdir "/a/x" false) (exec (mkdir "/a/y" false) (exec (mkdir "/a" false) init))).

(** ** ChangeDirContextManager *)

(** [ChangeDirContextManager.__enter__]; the result is the path kept in
    [_pwd] *)
Definition CDCM_enter (target : string) : M Path :=
  let! saved := lift pwd in
  let! _ := cd target in
  ret saved.

(** [ChangeDirContextManager.__exit__]: [cd] is given the path kept on
    entry; [pathlib.Path] of a path is that path, here what parsing its
    [str] gives ([of_str_str]). *)
Definition CDCM_exit (saved : Path) : M unit := cd (pathlib.str saved).

(** [with shell.managed_cd(target): body]: [__exit__] runs whether the body
    returned or raised, and does not swallow the exception. *)
Definition managed_cd {A} (target : string) (body : M A) : M A :=
  let! saved := CDCM_enter target in
  fun s => match body s with
           | (Ok a, s') => (let! _ := CDCM_exit saved in ret a) s'
           | (Raise e, s') => (let! _ := CDCM_exit saved in raise e) s'
           | (Hang, s') => (Hang, s')
           end.

(** ** Sessions *)

(** the calls of the shell that take one path; [run] is the state a call
    leaves, whether it returned or raised *)
Inductive command :=
| Mkdir (p : string) (parents : bool)
| Touch (p : string)
| Cd (p : string)
| Rm (p : string) (recursive : bool)
| Ls (p : string)
| GetData (p : string)
| SetData (p : string) (d : value)
| ClearData (p : string)
| GetMetadata (p : string) (key : value)
| SetMetadata (p : string) (key v : value)
| DelMetadata (p : string) (key : value)
| WatchFile (p : string) (callback : nat)
| UnwatchFile (p : string) (connections : list nat).

Definition run (c : command) (s : state) : state :=
  match c with
  | Mkdir p parents => exec (mkdir p parents) s
  | Touch p => exec (touch p) s
  | Cd p => exec (cd p) s
  | Rm p recursive => exec (rm p recursive) s
  | Ls p => exec (ls p) s
  | GetData p => exec (get_data p) s
  | SetData p d => exec (set_data p d) s
  | ClearData p => exec (clear_data p) s
  | GetMetadata p key => exec (get_metadata p key) s
  | SetMetadata p key v => exec (set_metadata p key v) s
  | DelMetadata p key => exec (del_metadata p key) s
  | WatchFile p callback => exec (watch_file p callback) s
  | UnwatchFile p connections => exec (unwatch_file p connections) s
  end.

(** the state after a sequence of calls on a fresh shell *)
Definition session (cs : list command) : state := fold_left (fun s c => run c s) cs init.

(** ** Well-formed trees *)

(** the order of [sorted] on names: [str.__le__] *)
Definition le_name (a b : string) : Prop := String.leb a b = true.

(** the tree conditions together, with a root directory called ["/"] *)
Definition wf (s : state) : bool :=
  linked s && root_top s && unique_names s && names_valid s
  && (name s (root s) =? "/") && is_Node s (root s).

(** a path whose components are single names *)
Definition valid_path (p : Path) : Prop :=
  Forall (fun x => valid_name x = true) (pathlib.tail p).

(** the states that the constructors and [set_parent] pass through: a new
    object [o] on the heap; the parentless node [n] put under [par]; a new
    node of name [x] and kind [k] put under [par]; [n] taken out of the
    NodeSet of [q], its [_parent] left as it is; [n] called [x]; [n] taken
    out of [q] and put under [t] *)
Definition allocated (s : state) (o : obj) : state := set_heap s (heap s ++ [o]).

Definition adopted (s : state) (par n : nat) : state :=
  update n (with_parent (Some par)) (set_members par (set_add n (members s par)) s).

Definition created (s : state) (x : string) (k : node_kind) (par : nat) : state :=
  adopted (allocated s (mkObj x None [] k)) par (length (heap s)).

Definition kind_members (k : node_kind) : list nat :=
  match k with Node ms => ms | LeafNode _ _ => [] end.

Definition unlisted (s : state) (q n : nat) : state :=
  set_members q (set_remove n (members s q)) s.

Definition renamed (s : state) (n : nat) (x : string) : state := update n (with_name x) s.

Definition moved (s : state) (q n t : nat) : state := adopted (unlisted s q n) t n.

(** [grows s s']: [s'] has the root and the working directory of [s], and
    at least its tree: a directory is still one, an object is still there
    with the parent it had, and a lookup that gave a node gives that node *)
Definition grows (s s' : state) : Prop :=
  root s' = root s ∧ _cwd s' = _cwd s ∧
  name s' (root s) = name s (root s) ∧
  (∀ m, is_Node s m = true → is_Node s' m = true) ∧
  (∀ m, is_Some (heap s !! m) → is_Some (heap s' !! m) ∧ parent s' m = parent s m) ∧
  ∀ d x c, get_child s d x = Ok c → get_child s' d x = Ok c.

(** [extends s s']: the same, whatever has become of the working
    directory and of the parent references *)
Definition extends (s s' : state) : Prop :=
  root s' = root s ∧ name s' (root s) = name s (root s) ∧
  (∀ m, is_Node s m = true → is_Node s' m = true) ∧
  ∀ d x c, get_child s d x = Ok c → get_child s' d x = Ok c.

(** what a call of [touch] or [mkdir] leaves: nothing new, a new object
    that was refused by the NodeSet of [par], or a new child of [par] *)
Definition built (s s' : state) : Prop :=
  s' = s ∨
  ∃ x k par, valid_name x = true ∧ kind_members k = [] ∧ is_Node s par = true ∧
    (s' = allocated s (mkObj x None [] k) ∨
     (NodeSet_contains s (members s par) x = false ∧ s' = created s x k par)).

(** the parent references above the working directory end, at an object
    of the heap *)
Definition grounded (s : state) : Prop :=
  ∃ l top, chain s (_cwd s) l top ∧ parent s top = None ∧ is_Some (heap s !! top).

(** a well-formed tree with the shell standing in a directory of it *)
Definition sane (s : state) : Prop :=
  wf s = true ∧ is_Node s (_cwd s) = true ∧ grounded s.

Ltac evaluate := vm_compute; reflexivity.

(** * Facts about the model *)

(** ** pathlib: names that are single components *)

Lemma split_sep_no_sep x : no_sep x = true → pathlib.split_sep x = [x].
Proof.
  induction x as [|c r IH]; simpl; [done|].
  intros [Hc Hr]%andb_prop. destruct (pathlib.is_sep c); [done|].
  by rewrite IH.
Qed.

Lemma of_str_valid x : valid_name x = true → pathlib.of_str x = pathlib.mkPath "" [x].
Proof.
  unfold valid_name. intros [Hk Hn]%andb_prop.
  unfold pathlib.of_str.
  assert (pathlib.splitroot x = ("", x)) as ->.
  { destruct x as [|c r]; [done|]. simpl in Hn. apply andb_prop in Hn as [Hc _].
    simpl. by destruct (pathlib.is_sep c). }
  rewrite split_sep_no_sep by done. simpl. by rewrite Hk.
Qed.

Lemma split_sep_components r : Forall (fun x => no_sep x = true) (pathlib.split_sep r).
Proof.
  induction r as [|c r IH]; simpl.
  - by repeat constructor.
  - destruct (pathlib.is_sep c) eqn:Hc.
    + by constructor.
    + destruct (pathlib.split_sep r) as [|x xs]; inversion IH; subst; constructor; simpl;
        rewrite ?Hc; auto.
Qed.

Lemma of_str_tail_valid p : Forall (fun x => valid_name x = true) (pathlib.tail (pathlib.of_str p)).
Proof.
  unfold pathlib.of_str. destruct (pathlib.splitroot p) as [r rel]. simpl.
  pose proof (split_sep_components rel) as H.
  induction H as [|x l Hx Hl IH]; simpl; [constructor|].
  destruct (pathlib.keep x) eqn:Hk; [|done].
  constructor; [|done]. unfold valid_name. by rewrite Hk, Hx.
Qed.

Lemma of_str_root p :
  pathlib.root (pathlib.of_str p) = "" ∨ pathlib.root (pathlib.of_str p) = "/"
  ∨ pathlib.root (pathlib.of_str p) = "//".
Proof.
  unfold pathlib.of_str.
  destruct p as [|c1 [|c2 [|c3 r]]]; simpl; repeat (destruct (pathlib.is_sep _)); simpl; auto.
Qed.

Lemma mem_false_iff x l : mem x l = false ↔ x ∉ l.
Proof.
  unfold mem. induction l as [|y l IH]; simpl.
  - split; [intros _; apply not_elem_of_nil|done].
  - rewrite orb_false_iff, IH, not_elem_of_cons.
    destruct (String.eqb_spec x y); split; intros [? ?]; done.
Qed.

(** ** Reading the heap after an update *)

Lemma deref_update s n f m :
  deref (update n f s) m =
  if decide (n = m) then match heap s !! n with Some o => f o | None => void end
  else deref s m.
Proof.
  unfold deref, update, set_heap. simpl. rewrite list_lookup_alter.
  destruct (decide (n = m)) as [->|]; [|done].
  by destruct (heap s !! m).
Qed.

Lemma deref_update_proj {A} (g : obj → A) s n f m :
  (∀ o, g (f o) = g o) → g (deref (update n f s) m) = g (deref s m).
Proof.
  intros Hg. rewrite deref_update. destruct (decide (n = m)) as [->|]; [|done].
  unfold deref. destruct (heap s !! m); simpl; [apply Hg|done].
Qed.

Lemma length_heap_update s n f : length (heap (update n f s)) = length (heap s).
Proof. unfold update, set_heap. simpl. apply length_alter. Qed.

Lemma name_set_members s o ms m : name (set_members o ms s) m = name s m.
Proof. unfold name, set_members. by apply (deref_update_proj _name). Qed.
Lemma parent_set_members s o ms m : parent (set_members o ms s) m = parent s m.
Proof. unfold parent, set_members. by apply (deref_update_proj _parent). Qed.
Lemma name_with_parent s n p m : name (update n (with_parent p) s) m = name s m.
Proof. unfold name. by apply (deref_update_proj _name). Qed.
Lemma kind_with_parent s n p m : kind (update n (with_parent p) s) m = kind s m.
Proof. unfold kind. by apply (deref_update_proj _kind). Qed.
Lemma kind_with_name s n x m : kind (update n (with_name x) s) m = kind s m.
Proof. unfold kind. by apply (deref_update_proj _kind). Qed.
Lemma parent_with_name s n x m : parent (update n (with_name x) s) m = parent s m.
Proof. unfold parent. by apply (deref_update_proj _parent). Qed.

(** an object that has a parent, or a NodeSet with a member, is in the heap *)
Lemma parent_Some_valid s n p : parent s n = Some p → is_Some (heap s !! n).
Proof.
  unfold parent, deref. destruct (heap s !! n); [eauto|done].
Qed.
Lemma kind_Node_valid s n ms : kind s n = Node ms → is_Some (heap s !! n).
Proof.
  unfold kind, deref. destruct (heap s !! n); [eauto|done].
Qed.

Lemma parent_with_parent s n p m :
  is_Some (heap s !! n) →
  parent (update n (with_parent p) s) m = if decide (n = m) then p else parent s m.
Proof.
  intros [o Ho]. unfold parent. rewrite deref_update, Ho. by destruct (decide (n = m)).
Qed.
Lemma parent_with_parent_ne s n p m :
  n ≠ m → parent (update n (with_parent p) s) m = parent s m.
Proof.
  intros. unfold parent. rewrite deref_update. by destruct (decide (n = m)).
Qed.
Lemma name_with_name s n x m :
  is_Some (heap s !! n) →
  name (update n (with_name x) s) m = if decide (n = m) then x else name s m.
Proof.
  intros [o Ho]. unfold name. rewrite deref_update, Ho. by destruct (decide (n = m)).
Qed.
Lemma name_with_name_ne s n x m : n ≠ m → name (update n (with_name x) s) m = name s m.
Proof.
  intros. unfold name. rewrite deref_update. by destruct (decide (n = m)).
Qed.
Lemma kind_set_members s o ms m :
  is_Some (heap s !! o) →
  kind (set_members o ms s) m = if decide (o = m) then Node ms else kind s m.
Proof.
  intros [x Ho]. unfold kind, set_members. rewrite deref_update, Ho.
  by destruct (decide (o = m)).
Qed.
Lemma members_set_members s o ms m :
  is_Some (heap s !! o) →
  members (set_members o ms s) m = if decide (o = m) then ms else members s m.
Proof.
  intros Ho. unfold members. rewrite kind_set_members by done.
  by destruct (decide (o = m)).
Qed.
Lemma members_with_parent s n p m : members (update n (with_parent p) s) m = members s m.
Proof. unfold members. by rewrite kind_with_parent. Qed.
Lemma members_with_name s n x m : members (update n (with_name x) s) m = members s m.
Proof. unfold members. by rewrite kind_with_name. Qed.
Lemma members_Node s n ms : kind s n = Node ms → members s n = ms.
Proof. unfold members. by intros ->. Qed.
Lemma members_elem_Node s n m : m ∈ members s n → kind s n = Node (members s n).
Proof.
  unfold members. destruct (kind s n); [done|]. by intros ?%elem_of_nil.
Qed.
Lemma root_update s n f : root (update n f s) = root s.
Proof. done. Qed.
Lemma cwd_update s n f : _cwd (update n f s) = _cwd s.
Proof. done. Qed.

(** ** The methods, outcome by outcome *)

(** the NodeSet methods, one equation per outcome *)
Lemma NodeSet_remove_eq o x s :
  NodeSet_remove o x s =
  match kind s o with
  | LeafNode _ _ => (Raise AttributeError, s)
  | Node ms =>
      match List.find (has_name s x) ms with
      | None => (Raise (NodeDoesNotExistError x), s)
      | Some m => (Ok m, set_members o (set_remove m ms) s)
      end
  end.
Proof.
  unfold NodeSet_remove, bind, lift, children, NodeSet_get, modify, ret.
  destruct (kind s o); [|done]. by destruct (List.find _ _).
Qed.

Lemma NodeSet_add_eq o n s :
  NodeSet_add o n s =
  match kind s o with
  | LeafNode _ _ => (Raise AttributeError, s)
  | Node ms =>
      if NodeSet_contains s ms (name s n)
      then (Raise (DuplicateNodeNameError (name s n)), s)
      else (Ok tt, set_members o (set_add n ms) s)
  end.
Proof.
  unfold NodeSet_add, bind, lift, children, gets, modify, raise.
  destruct (kind s o); [|done]. by destruct (NodeSet_contains _ _ _).
Qed.

Lemma set_parent_eq n p s :
  set_parent n p s =
  match (match parent s n with
         | Some old => match NodeSet_remove old (name s n) s with
                       | (Ok _, s1) => (Ok tt, s1)
                       | (Raise e, s1) => (Raise e, s1)
                       | (Hang, s1) => (Hang, s1)
                       end
         | None => (Ok tt, s)
         end) with
  | (Ok _, s1) =>
      match (match p with Some new => NodeSet_add new n s1 | None => (Ok tt, s1) end) with
      | (Ok _, s2) => (Ok tt, update n (with_parent p) s2)
      | (Raise e, s2) => (Raise e, s2)
      | (Hang, s2) => (Hang, s2)
      end
  | (Raise e, s1) => (Raise e, s1)
  | (Hang, s1) => (Hang, s1)
  end.
Proof.
  unfold set_parent, bind, gets, modify, ret. simpl.
  destruct (parent s n) as [old|]; simpl.
  - destruct (NodeSet_remove old (name s n) s) as [[?|?|] s1]; simpl; [|done..].
    destruct p; [|done]. by destruct (NodeSet_add _ _ _) as [[?|?|] ?].
  - destruct p; [|done]. by destruct (NodeSet_add _ _ _) as [[?|?|] ?].
Qed.

(** ** The tree conditions, and walking down a path *)

Lemma all_objects_elem s n : is_Some (heap s !! n) → In n (all_objects s).
Proof.
  intros H%lookup_lt_is_Some. unfold all_objects. apply in_seq. lia.
Qed.

Lemma linked_spec s d m :
  linked s = true → m ∈ members s d → parent s m = Some d.
Proof.
  unfold linked. rewrite forallb_forall. intros H Hm.
  pose proof (members_elem_Node _ _ _ Hm) as Hk%kind_Node_valid.
  specialize (H d (all_objects_elem _ _ Hk)). rewrite forallb_forall in H.
  apply list_elem_of_In in Hm. specialize (H m Hm).
  destruct (parent s m) as [p|]; [|done]. by apply Nat.eqb_eq in H as ->.
Qed.

Lemma root_top_spec s : root_top s = true → parent s (root s) = None.
Proof. unfold root_top. by destruct (parent s (root s)). Qed.

Lemma obind_Ok_r {A} (o : outcome A) : obind o Ok = o.
Proof. by destruct o. Qed.

Lemma walk_app s n l1 l2 :
  walk s n (l1 ++ l2)%list = obind (walk s n l1) (fun m => walk s m l2).
Proof.
  revert n. induction l1 as [|x l1 IH]; intros n; simpl; [done|].
  destruct (get_child s n x); simpl; auto.
Qed.

Lemma get_child_Ok s q x n :
  get_child s q x = Ok n →
  kind s q = Node (members s q) ∧ n ∈ members s q ∧ name s n = x ∧
  List.find (has_name s x) (members s q) = Some n.
Proof.
  unfold get_child, children, NodeSet_get, members.
  destruct (kind s q) as [ms|]; simpl; [|done].
  destruct (List.find _ ms) as [m|] eqn:Hf; [|done]. intros [= ->].
  apply find_some in Hf as Hf'. destruct Hf' as [Hin Hn].
  repeat split; [by apply list_elem_of_In|by apply String.eqb_eq in Hn].
Qed.

Lemma get_child_eq s q x :
  get_child s q x =
  match kind s q with
  | LeafNode _ _ => Raise AttributeError
  | Node ms => match List.find (has_name s x) ms with
               | Some m => Ok m
               | None => Raise (NodeDoesNotExistError x)
               end
  end.
Proof. unfold get_child, children, NodeSet_get. by destruct (kind s q). Qed.

Lemma walk_origin s a l n :
  walk s a l = Ok n → n = a ∨ ∃ q x, get_child s q x = Ok n.
Proof.
  revert a. induction l as [|x l IH]; intros a; simpl.
  - intros [= ->]. by left.
  - destruct (get_child s a x) as [c| |] eqn:Hc; simpl; [|done..].
    intros [->|?]%IH; eauto.
Qed.

Lemma get_node_origin s path n :
  get_node s path = Ok n → n = root s ∨ ∃ q x, get_child s q x = Ok n.
Proof.
  unfold get_node. destruct (pathlib.parts path) as [|r ps]; [done|].
  destruct (r =? name s (root s)); simpl.
  - intros [->|?]%walk_origin; eauto.
  - destruct (get_child s (root s) r) as [c| |] eqn:Hc; simpl; [|done..].
    intros [->|?]%walk_origin; eauto.
Qed.

Lemma path_name_snoc path :
  pathlib.name path ≠ "" →
  ∃ l, pathlib.tail path = (l ++ [pathlib.name path])%list ∧
       pathlib.parent path = pathlib.mkPath (pathlib.root path) l.
Proof.
  unfold pathlib.name, pathlib.parent.
  destruct (pathlib.tail path) as [|y l] eqn:Ht using rev_ind; [done|].
  clear IHl. rewrite last_snoc. simpl. intros _. exists l. split; [done|].
  rewrite removelast_last. by destruct l.
Qed.

Lemma get_node_parent s path t :
  pathlib.name path ≠ "" →
  get_node s (pathlib.parent path) = Ok t →
  get_node s path = get_child s t (pathlib.name path).
Proof.
  intros Hn. destruct (path_name_snoc _ Hn) as (l & Ht & ->).
  unfold get_node, pathlib.parts. simpl. rewrite Ht.
  destruct (pathlib.root path =? ""); simpl.
  - destruct l as [|r ps]; [done|]. simpl.
    destruct (if r =? name s (root s) then _ else _) as [n0| |]; simpl; [|done..].
    rewrite walk_app. intros ->. simpl. apply obind_Ok_r.
  - destruct (if pathlib.root path =? name s (root s) then _ else _) as [n0| |]; simpl; [|done..].
    rewrite walk_app. intros ->. simpl. apply obind_Ok_r.
Qed.

Lemma move_node_rename_eq src dst s :
  move_node_rename src dst s =
  if pathlib.name src =? "" then (Raise InvalidPathError, s)
  else if pathlib.name dst =? "" then (Raise InvalidPathError, s)
  else match get_node s src with
       | Raise (NodeDoesNotExistError _) => (Raise InvalidPathError, s)
       | Raise e => (Raise e, s)
       | Hang => (Hang, s)
       | Ok source =>
           match get_node s dst with
           | Ok target => (Ok (source, target), s)
           | Raise (NodeDoesNotExistError _) =>
               match get_node s (pathlib.parent dst) with
               | Ok target =>
                   (Ok (source, target), update source (with_name (pathlib.name dst)) s)
               | Raise (NodeDoesNotExistError _) => (Raise InvalidPathError, s)
               | Raise e => (Raise e, s)
               | Hang => (Hang, s)
               end
           | Raise e => (Raise e, s)
           | Hang => (Hang, s)
           end
       end.
Proof.
  unfold move_node_rename.
  destruct (pathlib.name src =? ""); [done|].
  destruct (pathlib.name dst =? ""); [done|].
  unfold bind, try, lift, ret, raise, modify, nde_to_invalid.
  destruct (get_node s src) as [n|[]|]; simpl; try done.
  destruct (get_node s dst) as [t|[]|]; simpl; try done.
  destruct (get_node s (pathlib.parent dst)) as [t|[]|]; simpl; done.
Qed.

Lemma set_parent_Raise_frame n p s e s' m :
  set_parent n p s = (Raise e, s') →
  name s' m = name s m ∧ parent s' m = parent s m.
Proof.
  rewrite set_parent_eq.
  destruct (parent s n) as [old|].
  - rewrite NodeSet_remove_eq. destruct (kind s old) as [ms|]; [|by intros [= _ <-]].
    destruct (List.find _ ms) as [x|]; [|by intros [= _ <-]].
    destruct p as [new|]; [|done].
    rewrite NodeSet_add_eq. destruct (kind _ new) as [ms'|].
    + destruct (NodeSet_contains _ _ _); [|done].
      intros [= _ <-]. by rewrite name_set_members, parent_set_members.
    + intros [= _ <-]. by rewrite name_set_members, parent_set_members.
  - destruct p as [new|]; [|done].
    rewrite NodeSet_add_eq. destruct (kind _ new) as [ms'|].
    + destruct (NodeSet_contains _ _ _); [|done]. by intros [= _ <-].
    + by intros [= _ <-].
Qed.

(** ** Renaming and reparenting *)

Lemma contains_false s ms x :
  NodeSet_contains s ms x = false ↔ ∀ m, m ∈ ms → name s m ≠ x.
Proof.
  unfold NodeSet_contains, has_name. induction ms as [|y ms IH]; simpl.
  - split; [by intros _ m ?%elem_of_nil|done].
  - rewrite orb_false_iff, IH. split.
    + intros [Hy H] m [->|Hm]%elem_of_cons; [|by apply H].
      by apply String.eqb_neq.
    + intros H. split.
      * apply String.eqb_neq, H. by left.
      * intros m Hm. apply H. by right.
Qed.

Lemma find_has_name_None s ms x :
  List.find (has_name s x) ms = None → NodeSet_contains s ms x = false.
Proof.
  intros H. apply contains_false. intros m Hm%list_elem_of_In.
  apply (find_none _ _ H) in Hm. by apply String.eqb_neq.
Qed.

Lemma find_has_name_Some s ms x m :
  List.find (has_name s x) ms = Some m → m ∈ ms ∧ name s m = x.
Proof.
  intros [Hin Hn]%find_some. split; [by apply list_elem_of_In|by apply String.eqb_eq].
Qed.

Lemma find_has_name_is_Some s ms x m :
  m ∈ ms → name s m = x → is_Some (List.find (has_name s x) ms).
Proof.
  intros Hm Hn. destruct (List.find _ ms) eqn:Hf; [eauto|].
  apply find_has_name_None in Hf. by apply (proj1 (contains_false _ _ _) Hf) in Hm.
Qed.

Lemma elem_of_set_remove m n ms : m ∈ set_remove n ms ↔ m ∈ ms ∧ m ≠ n.
Proof.
  unfold set_remove. rewrite !list_elem_of_In, filter_In, negb_true_iff, Nat.eqb_neq.
  done.
Qed.

Lemma is_Node_kind s n : is_Node s n = true ↔ kind s n = Node (members s n).
Proof.
  unfold is_Node, members. destruct (kind s n); split; done.
Qed.

(** Once the source carries its new name, the reparenting cannot fail. *)
Lemma set_parent_after_rename s n t x :
  linked s = true →
  is_Some (heap s !! n) →
  (parent s n = None ∨ ∃ o, parent s n = Some o ∧ n ∈ members s o) →
  kind s t = Node (members s t) →
  NodeSet_contains s (members s t) x = false →
  ∃ s', set_parent n (Some t) (update n (with_name x) s) = (Ok tt, s').
Proof.
  intros Hl Hv Hp Ht Hfree.
  set (s1 := update n (with_name x) s).
  assert (Hname : ∀ m, name s1 m = if decide (n = m) then x else name s m).
  { intros m. by apply name_with_name. }
  assert (Hnew : name s1 n = x).
  { rewrite Hname. by destruct (decide (n = n)). }
  rewrite set_parent_eq. unfold s1 at 1. rewrite parent_with_name. fold s1.
  destruct Hp as [Hp|(o & Hp & Ho)]; rewrite Hp.
  - rewrite NodeSet_add_eq. unfold s1 at 1. rewrite kind_with_name, Ht. fold s1.
    assert (NodeSet_contains s1 (members s t) (name s1 n) = false) as ->; [|eauto].
    rewrite Hnew. apply contains_false. intros m Hm. rewrite Hname.
    destruct (decide (n = m)) as [<-|].
    + apply (linked_spec _ _ _ Hl) in Hm. congruence.
    + by apply (proj1 (contains_false _ _ _) Hfree).
  - rewrite NodeSet_remove_eq. unfold s1 at 1. rewrite kind_with_name. fold s1.
    rewrite (members_elem_Node _ _ _ Ho), Hnew.
    destruct (find_has_name_is_Some s1 (members s o) x n Ho Hnew) as [m Hm].
    rewrite Hm. apply find_has_name_Some in Hm as [Hmo Hmx].
    set (s2 := set_members o (set_remove m (members s o)) s1).
    rewrite NodeSet_add_eq.
    assert (Hvo : is_Some (heap s1 !! o)).
    { apply (kind_Node_valid _ _ (members s o)). unfold s1.
      rewrite kind_with_name. by apply members_elem_Node in Ho. }
    unfold s2 at 1. rewrite kind_set_members by done. fold s2.
    assert (Hfree2 : ∀ ms, (∀ m', m' ∈ ms → name s m' ≠ x ∧ m' ≠ n ∨ False) →
                           NodeSet_contains s2 ms (name s2 n) = false).
    { intros ms Hms. unfold s2 at 2. rewrite name_set_members, Hnew.
      apply contains_false. intros m' Hm'. unfold s2. rewrite name_set_members, Hname.
      destruct (Hms m' Hm') as [[? ?]|[]]. by destruct (decide (n = m')). }
    destruct (decide (o = t)) as [->|Hot].
    + rewrite Hfree2; [eauto|]. intros m' [Hm' Hne]%elem_of_set_remove. left.
      pose proof (proj1 (contains_false _ _ _) Hfree) as Hf.
      assert (m = n) as ->.
      { rewrite Hname in Hmx. destruct (decide (n = m)); [done|]. by apply Hf in Hmo. }
      split; [by apply Hf|done].
    + unfold s1 at 1. rewrite kind_with_name, Ht.
      rewrite Hfree2; [eauto|]. intros m' Hm'. left.
      split; [by apply (proj1 (contains_false _ _ _) Hfree)|].
      intros ->. apply (linked_spec _ _ _ Hl) in Hm', Ho. congruence.
Qed.

Lemma move_node_Raise_frame s src dst n e s' :
  linked s = true → root_top s = true →
  get_node s src = Ok n →
  move_node src dst s = (Raise e, s') →
  name s' n = name s n ∧ parent s' n = parent s n.
Proof.
  intros Hl Hr Hsrc. unfold move_node, bind. rewrite move_node_rename_eq, Hsrc.
  destruct (pathlib.name src =? ""); [by intros [= _ <-]|].
  destruct (pathlib.name dst =? "") eqn:Hdn; [by intros [= _ <-]|].
  apply String.eqb_neq in Hdn.
  destruct (get_node s dst) as [t|e0|] eqn:Hdst; [| |done].
  - unfold gets. simpl. destruct (is_Node s t); simpl; [|by intros [= _ <-]].
    apply set_parent_Raise_frame.
  - destruct e0; try by intros [= _ <-].
    destruct (get_node s (pathlib.parent dst)) as [t|e1|] eqn:Hpar; [| |done].
    2:{ destruct e1; by intros [= _ <-]. }
    unfold gets. simpl.
    rewrite (get_node_parent _ _ _ Hdn Hpar), get_child_eq in Hdst.
    destruct (kind s t) as [ms|] eqn:Hk; [|done].
    destruct (List.find _ ms) eqn:Hfind; [done|].
    apply find_has_name_None in Hfind.
    assert (Hk' : kind s t = Node (members s t)) by (unfold members; by rewrite Hk).
    assert (members s t = ms) as Hms by (by apply members_Node).
    unfold is_Node. rewrite kind_with_name, Hk. simpl.
    destruct (heap s !! n) as [o|] eqn:Hv.
    + intros Hfail. exfalso.
      assert (Hp : parent s n = None ∨ ∃ o, parent s n = Some o ∧ n ∈ members s o).
      { destruct (get_node_origin _ _ _ Hsrc) as [->|(q & y & Hq)].
        - left. by apply root_top_spec.
        - right. apply get_child_Ok in Hq as (_ & Hin & _). exists q. split; [|done].
          by apply (linked_spec _ _ _ Hl). }
      assert (Hv' : is_Some (heap s !! n)) by (rewrite Hv; eauto).
      rewrite <- Hms in Hfind.
      destruct (set_parent_after_rename s n t (pathlib.name dst) Hl Hv' Hp Hk' Hfind)
        as [s2 Hs2].
      congruence.
    + intros [Hn Hp]%(set_parent_Raise_frame _ _ _ _ _ n).
      rewrite Hn, Hp, parent_with_name. split; [|done].
      unfold name. rewrite deref_update. unfold deref. rewrite Hv.
      by destruct (decide (n = n)).
Qed.

(** ** Climbing the parent references: [get_path] *)

Lemma chain_det s n l a l' a' :
  chain s n l a → parent s a = None →
  chain s n l' a' → parent s a' = None →
  l = l' ∧ a = a'.
Proof.
  intros H Ha. revert l' a'.
  induction H as [a|n p l a Hp H IH]; intros l' a' H' Ha'.
  - inversion H'; subst; [done|congruence].
  - inversion H' as [|? p' l'' ? Hp' H'']; subst; [congruence|].
    assert (p' = p) as -> by congruence.
    destruct (IH Ha _ _ H'' Ha') as [-> ->]. done.
Qed.

Lemma chain_from_member s n l a m :
  chain s n l a → m ∈ l → ∃ l', chain s m l' a ∧ (length l' ≤ length l)%nat.
Proof.
  induction 1 as [a|n p l a Hp H IH]; [by intros ?%elem_of_nil|].
  intros [->|Hm]%elem_of_cons.
  - exists (n :: l). split; [by econstructor|done].
  - destruct (IH Hm) as (l' & Hl' & Hlen). exists l'. split; [done|]. simpl. lia.
Qed.

Lemma chain_NoDup s n l a : chain s n l a → parent s a = None → NoDup l.
Proof.
  intros H Ha. induction H as [a|n p l a Hp H IH]; [constructor|].
  constructor; [|by apply IH].
  intros Hn. destruct (chain_from_member _ _ _ _ _ H Hn) as (l' & Hl' & Hlen).
  destruct (chain_det _ _ _ _ _ _ Hl' Ha (chain_cons _ _ _ _ _ Hp H) Ha) as [-> _].
  simpl in Hlen. lia.
Qed.

Lemma chain_has_parent s n l a m : chain s n l a → m ∈ l → is_Some (parent s m).
Proof.
  induction 1 as [a|n p l a Hp H IH]; [by intros ?%elem_of_nil|].
  intros [->|Hm]%elem_of_cons; eauto.
Qed.

Lemma chain_length s n l a :
  chain s n l a → parent s a = None → (length l ≤ length (heap s))%nat.
Proof.
  intros H Ha.
  cut (length l ≤ length (seq 0 (length (heap s))))%nat; [by rewrite List.length_seq|].
  apply NoDup_incl_length; [by eapply NoDup_ListNoDup, chain_NoDup|].
  intros m Hm%list_elem_of_In. apply in_seq.
  destruct (chain_has_parent _ _ _ _ _ H Hm) as [p Hp].
  apply parent_Some_valid, lookup_lt_is_Some in Hp. lia.
Qed.

Lemma rtruediv_valid x t :
  valid_name x = true →
  pathlib.rtruediv x (pathlib.mkPath "" t) = pathlib.mkPath "" (x :: t).
Proof. intros Hx. unfold pathlib.rtruediv. by rewrite (of_str_valid _ Hx). Qed.

Lemma get_path_loop_chain s n l top :
  chain s n l top → parent s top = None →
  Forall (fun m => valid_name (name s m) = true) l →
  ∀ fuel t, (length l < fuel)%nat →
    get_path_loop fuel s n (pathlib.rtruediv (name s n) (pathlib.mkPath "" t)) =
    Ok (pathlib.joinpath (pathlib.of_str (name s top))
          (pathlib.mkPath "" (map (name s) (rev l) ++ t))).
Proof.
  intros H Htop. induction H as [a|n p l a Hp H IH]; intros Hv fuel t Hfuel.
  - destruct fuel as [|fuel]; [simpl in Hfuel; lia|]. simpl. by rewrite Htop.
  - destruct fuel as [|fuel]; [simpl in Hfuel; lia|]. simpl. rewrite Hp.
    inversion Hv as [|? ? Hn Hv']; subst.
    rewrite (rtruediv_valid _ _ Hn), (IH Htop Hv') by (simpl in Hfuel; lia).
    by rewrite map_app, <- app_assoc.
Qed.

Lemma of_str_rtruediv x : pathlib.of_str x = pathlib.rtruediv x (pathlib.mkPath "" []).
Proof.
  unfold pathlib.rtruediv, pathlib.joinpath. simpl.
  destruct (pathlib.of_str x) as [r t]. simpl. by rewrite app_nil_r.
Qed.

(** [get_path] returns: it climbs to the first node without a parent and
    joins the names met on the way. *)
Lemma get_path_chain s n l top :
  chain s n l top → parent s top = None →
  Forall (fun m => valid_name (name s m) = true) l →
  get_path s n =
  Ok (pathlib.joinpath (pathlib.of_str (name s top))
        (pathlib.mkPath "" (map (name s) (rev l)))).
Proof.
  intros H Htop Hv. unfold get_path. rewrite of_str_rtruediv.
  rewrite (get_path_loop_chain _ _ _ _ H Htop Hv).
  - by rewrite app_nil_r.
  - apply (chain_length _ _ _ _ H) in Htop. lia.
Qed.

Lemma attached_chain s n l : attached s n l → chain s n l (root s).
Proof. induction 1; econstructor; eauto. Qed.

Lemma names_valid_spec s m :
  names_valid s = true → is_Some (heap s !! m) → m ≠ root s →
  valid_name (name s m) = true.
Proof.
  unfold names_valid. rewrite forallb_forall. intros H Hm Hne.
  specialize (H m (all_objects_elem _ _ Hm)).
  apply orb_prop in H as [H%Nat.eqb_eq|H]; done.
Qed.

Lemma chain_names_valid s n l a :
  names_valid s = true → root_top s = true → chain s n l a →
  Forall (fun m => valid_name (name s m) = true) l.
Proof.
  intros Hv Hr H. apply Forall_forall. intros m Hm.
  destruct (chain_has_parent _ _ _ _ _ H Hm) as [p Hp].
  apply names_valid_spec; [done|by eapply parent_Some_valid|].
  intros ->. apply root_top_spec in Hr. congruence.
Qed.

Lemma elem_of_map_2 {A B} (f : A → B) (l : list A) a : a ∈ l → f a ∈ map f l.
Proof. rewrite !list_elem_of_In. apply in_map. Qed.

Lemma distinct_inj {A} (f : A → string) l a b :
  distinct (map f l) = true → a ∈ l → b ∈ l → f a = f b → a = b.
Proof.
  induction l as [|x l IH]; simpl; [by intros _ ?%elem_of_nil|].
  intros [Hx Hl]%andb_prop. apply negb_true_iff, mem_false_iff in Hx.
  intros [->|Ha]%elem_of_cons [->|Hb]%elem_of_cons Hf; auto.
  - exfalso. apply Hx. rewrite Hf. by apply elem_of_map_2.
  - exfalso. apply Hx. rewrite <- Hf. by apply elem_of_map_2.
Qed.

Lemma unique_names_spec s d a b :
  unique_names s = true → a ∈ members s d → b ∈ members s d →
  name s a = name s b → a = b.
Proof.
  unfold unique_names. rewrite forallb_forall. intros H Ha Hb.
  pose proof (members_elem_Node _ _ _ Ha) as Hk%kind_Node_valid.
  specialize (H d (all_objects_elem _ _ Hk)).
  by apply (distinct_inj (name s) (members s d)).
Qed.

Lemma get_child_member s p n :
  unique_names s = true → n ∈ members s p → get_child s p (name s n) = Ok n.
Proof.
  intros Hu Hn. rewrite get_child_eq, (members_elem_Node _ _ _ Hn).
  destruct (find_has_name_is_Some s (members s p) (name s n) n Hn eq_refl) as [m Hm].
  rewrite Hm. apply find_has_name_Some in Hm as [Hin Heq].
  by rewrite (unique_names_spec _ _ _ _ Hu Hin Hn Heq).
Qed.

Lemma attached_walk s n l :
  unique_names s = true → attached s n l →
  walk s (root s) (map (name s) (rev l)) = Ok n.
Proof.
  intros Hu. induction 1 as [|n p l Hp Hn H IH]; [done|].
  simpl. rewrite map_app, walk_app, IH. simpl.
  by rewrite (get_child_member _ _ _ Hu Hn).
Qed.

Lemma get_node_absolute s t :
  name s (root s) = "/" → get_node s (pathlib.mkPath "/" t) = walk s (root s) t.
Proof.
  intros Hr. unfold get_node, pathlib.parts. simpl. by rewrite Hr.
Qed.

Lemma of_str_slash : pathlib.of_str "/" = pathlib.mkPath "/" [].
Proof. reflexivity. Qed.

Lemma get_path_attached s n l :
  names_valid s = true → root_top s = true → name s (root s) = "/" →
  attached s n l →
  get_path s n = Ok (pathlib.mkPath "/" (map (name s) (rev l))).
Proof.
  intros Hv Hr Hroot H%attached_chain.
  rewrite (get_path_chain _ _ _ _ H (root_top_spec _ Hr)
             (chain_names_valid _ _ _ _ Hv Hr H)).
  by rewrite Hroot, of_str_slash.
Qed.

(** A node attached below the root by parent references that are matched
    by memberships, in a tree with unique sibling names whose names are
    path components: [get_path] returns, its result is ["/"] followed by
    the names from the root down, and [get_node] on it finds the node. *)
Proposition get_node_get_path s n l :
  unique_names s = true → names_valid s = true → root_top s = true →
  name s (root s) = "/" →
  attached s n l →
  get_path s n = Ok (pathlib.mkPath "/" (map (name s) (rev l))) ∧
  get_node s (pathlib.mkPath "/" (map (name s) (rev l))) = Ok n.
Proof.
  intros Hu Hv Hr Hroot H. split; [by apply get_path_attached|].
  rewrite get_node_absolute by done. by apply attached_walk.
Qed.

(** ** Removal *)

Lemma rm_eq p rec s :
  rm p rec s =
  match resolve_path s p with
  | Ok path =>
      match get_node s path with
      | Ok n =>
          if is_Node s n && negb rec then (Raise InvalidPathError, s)
          else match parent s n with
               | None => (Raise InvalidPathError, s)
               | Some par => remove_child par (name s n) s
               end
      | Raise (NodeDoesNotExistError _) => (Raise InvalidPathError, s)
      | Raise e => (Raise e, s)
      | Hang => (Hang, s)
      end
  | Raise e => (Raise e, s)
  | Hang => (Hang, s)
  end.
Proof.
  unfold rm, resolved, bind, lift, try, gets, raise, nde_to_invalid.
  destruct (resolve_path s p) as [path| |]; [|done..].
  destruct (get_node s path) as [n|[]|]; try done. simpl.
  destruct (is_Node s n && negb rec); [done|].
  by destruct (parent s n).
Qed.

Lemma remove_child_member s q y n :
  linked s = true → get_child s q y = Ok n →
  parent s n = Some q ∧ remove_child q (name s n) s = (Ok n, detached s q n).
Proof.
  intros Hl Hq. pose proof Hq as (Hk & Hin & Hy & Hf)%get_child_Ok.
  pose proof (linked_spec _ _ _ Hl Hin) as Hp. split; [done|].
  unfold remove_child, bind, lift, ret. rewrite Hy, Hq, set_parent_eq, Hp.
  by rewrite NodeSet_remove_eq, Hk, Hy, Hf.
Qed.

Lemma rm_recursive_Ok s p path n :
  linked s = true → root_top s = true →
  resolve_path s p = Ok path → get_node s path = Ok n → n ≠ root s →
  ∃ q, parent s n = Some q ∧ n ∈ members s q ∧
       rm p true s = (Ok n, detached s q n).
Proof.
  intros Hl Hr Hp Hn Hne. rewrite rm_eq, Hp, Hn, andb_false_r.
  destruct (get_node_origin _ _ _ Hn) as [->|(q & y & Hq)]; [done|].
  destruct (remove_child_member _ _ _ _ Hl Hq) as [Hpar Hrm].
  exists q. rewrite Hpar. apply get_child_Ok in Hq as (_ & Hin & _). done.
Qed.

Lemma rm_Ok_inv s p a s' :
  linked s = true → root_top s = true →
  rm p true s = (Ok a, s') →
  ∃ q, a ≠ root s ∧ parent s a = Some q ∧ a ∈ members s q ∧ s' = detached s q a.
Proof.
  intros Hl Hr. rewrite rm_eq.
  destruct (resolve_path s p) as [path| |] eqn:Hp; [|done..].
  destruct (get_node s path) as [n|e|] eqn:Hn; [|by destruct e|done].
  rewrite andb_false_r.
  destruct (decide (n = root s)) as [->|Hne].
  { by rewrite (root_top_spec _ Hr). }
  destruct (rm_recursive_Ok _ _ _ _ Hl Hr Hp Hn Hne) as (q & Hq & Hin & Hrm).
  rewrite rm_eq, Hp, Hn, andb_false_r in Hrm. rewrite Hrm. intros [= <- <-].
  exists q. done.
Qed.

Lemma name_detached s q n m : name (detached s q n) m = name s m.
Proof. unfold detached. by rewrite name_with_parent, name_set_members. Qed.

Lemma parent_detached s q n m :
  is_Some (heap s !! n) →
  parent (detached s q n) m = if decide (n = m) then None else parent s m.
Proof.
  intros Hv. unfold detached. rewrite parent_with_parent.
  - destruct (decide (n = m)); [done|]. by rewrite parent_set_members.
  - unfold set_members, update, set_heap. simpl.
    apply lookup_lt_is_Some. rewrite length_alter. by apply lookup_lt_is_Some.
Qed.

Lemma members_detached s q n d :
  is_Some (heap s !! q) →
  members (detached s q n) d =
  if decide (q = d) then set_remove n (members s q) else members s d.
Proof.
  intros Hv. unfold detached. by rewrite members_with_parent, members_set_members.
Qed.

(** detaching a member keeps the remaining links *)
Lemma linked_detached s q n d m :
  linked s = true → parent s n = Some q → n ∈ members s q →
  m ∈ members (detached s q n) d → parent (detached s q n) m = Some d.
Proof.
  intros Hl Hp Hin.
  rewrite members_detached
    by exact (kind_Node_valid _ _ _ (members_elem_Node _ _ _ Hin)).
  rewrite parent_detached by exact (parent_Some_valid _ _ _ Hp).
  intros Hm.
  assert (m ∈ members s d ∧ (q = d → m ≠ n)) as [Hm' Hne].
  { destruct (decide (q = d)) as [<-|].
    - apply elem_of_set_remove in Hm as [? ?]. by split.
    - by split. }
  pose proof (linked_spec _ _ _ Hl Hm') as Hpm.
  destruct (decide (n = m)) as [<-|]; [|done].
  exfalso. apply Hne; congruence.
Qed.

Lemma reaches_top s a b m :
  (∀ d x, x ∈ members s d → parent s x = Some d) →
  parent s a = None → parent s b = None →
  reaches s a m → reaches s b m → a = b.
Proof.
  intros Hl Ha Hb H. induction H as [|d m H IH Hm]; intros H'.
  - inversion H' as [|d ? _ Hd]; subst; [done|].
    apply Hl in Hd. congruence.
  - inversion H' as [|d' ? Hd' Hm']; subst.
    + apply Hl in Hm. congruence.
    + apply Hl in Hm, Hm'. apply IH. congruence.
Qed.

Lemma walk_reaches s r a l m : reaches s r a → walk s a l = Ok m → reaches s r m.
Proof.
  revert a. induction l as [|x l IH]; intros a Ha; simpl.
  - by intros [= <-].
  - destruct (get_child s a x) as [c| |] eqn:Hc; simpl; [|done..].
    apply IH. apply get_child_Ok in Hc as (_ & Hin & _). by econstructor.
Qed.

Lemma get_node_reaches s path m : get_node s path = Ok m → reaches s (root s) m.
Proof.
  unfold get_node. destruct (pathlib.parts path) as [|r ps]; [done|].
  destruct (r =? name s (root s)); simpl.
  - apply walk_reaches. constructor.
  - destruct (get_child s (root s) r) as [c| |] eqn:Hc; simpl; [|done..].
    apply walk_reaches. apply get_child_Ok in Hc as (_ & Hin & _).
    econstructor; [constructor|done].
Qed.

(** For a path that resolves to the node [n]: without [recursive] a
    directory is refused with [InvalidPathError] and the state is the one
    before the call; the root is refused whatever the flag; on a tree whose
    NodeSet members name their owner as parent, a directory other than the
    root is removed with [recursive], [rm] returns it, and afterwards
    nothing in its subtree is reached from the root, neither through the
    NodeSets nor by any path. *)
Proposition rm_directory_and_root s p path n :
  resolve_path s p = Ok path → get_node s path = Ok n →
  (is_Node s n = true → rm p false s = (Raise InvalidPathError, s)) ∧
  (n = root s → root_top s = true →
     ∀ recursive, rm p recursive s = (Raise InvalidPathError, s)) ∧
  (is_Node s n = true → n ≠ root s → linked s = true → root_top s = true →
     ∃ s', rm p true s = (Ok n, s') ∧
           ∀ m, reaches s' n m →
                ¬ reaches s' (root s') m ∧ ∀ q, get_node s' q ≠ Ok m).
Proof.
  intros Hp Hn. repeat split.
  - intros Hd. by rewrite rm_eq, Hp, Hn, Hd.
  - intros -> Hr rec. rewrite rm_eq, Hp, Hn, (root_top_spec _ Hr).
    by destruct (is_Node s (root s) && negb rec).
  - intros Hd Hne Hl Hr.
    destruct (rm_recursive_Ok _ _ _ _ Hl Hr Hp Hn Hne) as (q & Hq & Hin & Hrm).
    eexists. split; [done|]. intros m Hm.
    assert (Hno : ¬ reaches (detached s q n) (root (detached s q n)) m).
    { intros Hm'. apply Hne.
      apply (reaches_top (detached s q n) n (root s) m); try done.
      - intros d x. by apply linked_detached.
      - rewrite parent_detached by (by eapply parent_Some_valid).
        by destruct (decide (n = n)).
      - rewrite parent_detached by (by eapply parent_Some_valid).
        destruct (decide (n = root s)); [done|]. by apply root_top_spec. }
    split; [done|]. intros path' Hpath'. by apply Hno, get_node_reaches with path'.
Qed.

Lemma chain_first s n l a : chain s n l a → ∃ l', chain s n l' a ∧ a ∉ l'.
Proof.
  induction 1 as [a|n p l a Hp H (l' & Hl' & Ha)].
  - exists []. split; [constructor|apply not_elem_of_nil].
  - destruct (decide (n = a)) as [->|Hne].
    + exists []. split; [constructor|apply not_elem_of_nil].
    + exists (n :: l'). split; [by econstructor|].
      apply not_elem_of_cons. split; [congruence|done].
Qed.

Lemma chain_transfer s s' n l a :
  chain s n l a → (∀ m, m ∈ l → parent s' m = parent s m) → chain s' n l a.
Proof.
  induction 1 as [a|n p l a Hp H IH]; intros Hs; [constructor|].
  econstructor.
  - rewrite Hs; [done|by left].
  - apply IH. intros m Hm. apply Hs. by right.
Qed.

(** what a [set_parent(None)] that returns has changed *)
Lemma set_parent_None_frame c s s' :
  set_parent c None s = (Ok tt, s') →
  (∀ m, name s' m = name s m) ∧ (∀ m, m ≠ c → parent s' m = parent s m) ∧
  parent s' c = None ∧ length (heap s') = length (heap s) ∧
  root s' = root s ∧ _cwd s' = _cwd s.
Proof.
  rewrite set_parent_eq.
  assert (H : ∀ s1,
    (∀ m, name s1 m = name s m) → (∀ m, parent s1 m = parent s m) →
    length (heap s1) = length (heap s) → root s1 = root s → _cwd s1 = _cwd s →
    (Ok tt, update c (with_parent None) s1) = (Ok tt, s') →
    (∀ m, name s' m = name s m) ∧ (∀ m, m ≠ c → parent s' m = parent s m) ∧
    parent s' c = None ∧ length (heap s') = length (heap s) ∧
    root s' = root s ∧ _cwd s' = _cwd s).
  { intros s1 Hn Hp Hlen Hr Hc [= <-]. split; [|split; [|split; [|split]]].
    - intros m. by rewrite name_with_parent.
    - intros m Hm. unfold parent. rewrite deref_update.
      destruct (decide (c = m)); [congruence|apply Hp].
    - unfold parent. rewrite deref_update. destruct (decide (c = c)); [|done].
      by destruct (heap s1 !! c).
    - by rewrite length_heap_update.
    - done. }
  destruct (parent s c) as [old|]; [|by apply H].
  rewrite NodeSet_remove_eq. destruct (kind s old) as [ms|]; [|done].
  destruct (List.find _ ms) as [m|]; [|done].
  apply H; try done.
  - intros m'. apply name_set_members.
  - intros m'. apply parent_set_members.
  - apply length_heap_update.
Qed.

Lemma rm_Ok_frame p recursive s a s' :
  rm p recursive s = (Ok a, s') →
  (∀ m, name s' m = name s m) ∧ (∀ m, m ≠ a → parent s' m = parent s m) ∧
  parent s' a = None ∧ length (heap s') = length (heap s) ∧
  root s' = root s ∧ _cwd s' = _cwd s.
Proof.
  rewrite rm_eq.
  destruct (resolve_path s p) as [path| |]; [|done..].
  destruct (get_node s path) as [n|e|]; [|by destruct e|done].
  destruct (is_Node s n && negb recursive); [done|].
  destruct (parent s n) as [par|]; [|done].
  unfold remove_child, bind, lift, ret.
  destruct (get_child s par (name s n)) as [c| |]; [|done..].
  destruct (set_parent c None s) as [[[]| |] s1] eqn:Hsp; [|done..].
  intros [= <- <-]. by apply set_parent_None_frame.
Qed.

(** C10.  When [rm] has returned [a], an object other than the root that
    the parent references of the working directory lead to: [a] has no
    parent any more, the references from the working directory still lead
    to it, by the nodes [l'] they passed before they first met [a], and
    [pwd] returns the relative path made of the name of [a], which is not
    ["/"], followed by the names of [l'] from [a] down to the working
    directory. *)
Theorem pwd_after_ancestor_removed s p a s' l :
  root_top s = true → names_valid s = true →
  is_Some (heap s !! a) → a ≠ root s →
  rm p true s = (Ok a, s') →
  chain s (_cwd s) l a →
  ∃ l', chain s (_cwd s) l' a ∧ (a ∉ l') ∧
        chain s' (_cwd s') l' a ∧ parent s' a = None ∧
        pwd s' = Ok (pathlib.mkPath "" (name s a :: map (name s) (rev l'))) ∧
        name s a ≠ "/".
Proof.
  intros Hr Hv Hva Hne Hrm Hc.
  destruct (rm_Ok_frame _ _ _ _ _ Hrm) as (Hname & Hpar & Hpa & Hlen & Hroot & Hcwd).
  destruct (chain_first _ _ _ _ Hc) as (l' & Hc' & Ha).
  assert (Hna : valid_name (name s a) = true) by (by apply names_valid_spec).
  assert (Hc'' : chain s' (_cwd s') l' a).
  { rewrite Hcwd. apply (chain_transfer s); [done|]. intros m Hm.
    apply Hpar. intros ->. done. }
  exists l'. split; [done|]. split; [done|]. split; [done|]. split; [done|]. split.
  - unfold pwd. rewrite (get_path_chain _ _ _ _ Hc'' Hpa).
    + rewrite Hname, (of_str_valid _ Hna). unfold pathlib.joinpath. simpl.
      f_equal. f_equal. f_equal. apply map_ext. intros m. apply Hname.
    + eapply Forall_impl; [by apply (chain_names_valid s _ _ _ Hv Hr Hc')|].
      intros m Hm. simpl. by rewrite Hname.
  - intros E. rewrite E in Hna. done.
Qed.

(** ** Writing to a leaf leaves the tree as it is *)

Lemma same_tree_refl s : same_tree s s.
Proof. by repeat split. Qed.

Lemma same_tree_trans s1 s2 s3 : same_tree s1 s2 → same_tree s2 s3 → same_tree s1 s3.
Proof.
  intros (Hl & Hr & Hc & H) (Hl' & Hr' & Hc' & H').
  repeat split; try congruence; destruct (H m) as (? & ? & ?), (H' m) as (? & ? & ?);
    congruence.
Qed.

Lemma same_tree_calls s c :
  same_tree s (mkState (heap s) (root s) (_cwd s) c).
Proof. by repeat split. Qed.

Lemma same_tree_leaf_update s n f :
  (∀ o, _name (f o) = _name o ∧ _parent (f o) = _parent o ∧
        match _kind o with
        | Node _ => _kind (f o) = _kind o
        | LeafNode _ _ => ∃ d cbs, _kind (f o) = LeafNode d cbs
        end) →
  same_tree s (update n f s).
Proof.
  intros Hf. split; [apply length_heap_update|]. do 2 (split; [done|]).
  intros m. split; [|split].
  - unfold name. apply (deref_update_proj _name). apply Hf.
  - unfold parent. apply (deref_update_proj _parent). apply Hf.
  - unfold children, kind. rewrite deref_update.
    destruct (decide (n = m)) as [->|]; [|done]. unfold deref.
    destruct (heap s !! m) as [o|]; simpl; [|done].
    destruct (Hf o) as (_ & _ & Hk). destruct (_kind o).
    + by rewrite Hk.
    + by destruct Hk as (d & cbs & ->).
Qed.

Lemma same_tree_store_data s n d : same_tree s (update n (store_data d) s).
Proof.
  apply same_tree_leaf_update. intros o. unfold store_data.
  destruct (_kind o) eqn:Hk; simpl; rewrite ?Hk; eauto.
Qed.
Lemma same_tree_store_callbacks s n cbs : same_tree s (update n (store_callbacks cbs) s).
Proof.
  apply same_tree_leaf_update. intros o. unfold store_callbacks.
  destruct (_kind o) eqn:Hk; simpl; rewrite ?Hk; eauto.
Qed.

Lemma same_tree_get_child s s' q x :
  same_tree s s' → get_child s' q x = get_child s q x.
Proof.
  intros (_ & _ & _ & H). unfold get_child. destruct (H q) as (_ & _ & ->).
  destruct (children s q) as [ms| |]; simpl; [|done..].
  unfold NodeSet_get.
  assert (List.find (has_name s' x) ms = List.find (has_name s x) ms) as ->; [|done].
  induction ms as [|m ms IH]; simpl; [done|]. unfold has_name at 1 3.
  destruct (H m) as (-> & _). by rewrite IH.
Qed.

Lemma same_tree_walk s s' a l : same_tree s s' → walk s' a l = walk s a l.
Proof.
  intros H. revert a. induction l as [|x l IH]; intros a; simpl; [done|].
  rewrite (same_tree_get_child _ _ _ _ H).
  destruct (get_child s a x); simpl; auto.
Qed.

Lemma same_tree_get_node s s' path : same_tree s s' → get_node s' path = get_node s path.
Proof.
  intros H. unfold get_node. destruct (pathlib.parts path) as [|r ps]; [done|].
  pose proof H as (_ & -> & _ & Hm). destruct (Hm (root s)) as (-> & _).
  rewrite (same_tree_get_child _ _ _ _ H).
  destruct (if r =? name s (root s) then _ else _); simpl; [|done..].
  by apply same_tree_walk.
Qed.

Lemma same_tree_get_path s s' n : same_tree s s' → get_path s' n = get_path s n.
Proof.
  intros (Hl & _ & _ & H). unfold get_path. rewrite Hl. destruct (H n) as (-> & _).
  generalize (pathlib.of_str (name s n)). generalize (S (length (heap s))).
  intros fuel. revert n. induction fuel as [|fuel IH]; intros n path; simpl; [done|].
  destruct (H n) as (_ & -> & _). destruct (parent s n) as [p|]; [|done].
  destruct (H p) as (-> & _). apply IH.
Qed.

Lemma mem_dot_of_str p : mem "." (pathlib.tail (pathlib.of_str p)) = false.
Proof.
  unfold pathlib.of_str. destruct (pathlib.splitroot p) as [r rel]. simpl.
  apply mem_false_iff. rewrite list_elem_of_In, filter_In. by intros [_ ?].
Qed.

(** an absolute path without [..] is its own resolution *)
Lemma resolve_path_absolute s p :
  name s (root s) = "/" →
  pathlib.root (pathlib.of_str p) = "/" →
  mem ".." (pathlib.tail (pathlib.of_str p)) = false →
  resolve_path s p = Ok (pathlib.of_str p).
Proof.
  intros Hr Hp Hdd. pose proof (mem_dot_of_str p) as Hd.
  unfold resolve_path. destruct (pathlib.of_str p) as [r t]. simpl in *. subst r.
  unfold pathlib.parts. simpl. rewrite Hr. simpl. by rewrite Hd, Hdd.
Qed.

Lemma walk_attached s a la cs n :
  linked s = true → attached s a la → walk s a cs = Ok n →
  ∃ l, attached s n l ∧ map (name s) (rev l) = (map (name s) (rev la) ++ cs)%list.
Proof.
  intros Hl. revert a la. induction cs as [|x cs IH]; intros a la Ha; simpl.
  - intros [= <-]. exists la. by rewrite app_nil_r.
  - destruct (get_child s a x) as [c| |] eqn:Hc; simpl; [|done..].
    apply get_child_Ok in Hc as (_ & Hin & Hx & _).
    pose proof (linked_spec _ _ _ Hl Hin) as Hp.
    intros (l & Hat & Hnames)%(IH c (c :: la)); [|by econstructor].
    exists l. split; [done|]. rewrite Hnames. simpl.
    by rewrite map_app, <- app_assoc, <- Hx.
Qed.

(** a node found at an absolute path reports that path *)
Lemma get_path_get_node s p n :
  linked s = true → root_top s = true → name s (root s) = "/" →
  pathlib.root (pathlib.of_str p) = "/" →
  get_node s (pathlib.of_str p) = Ok n →
  get_path s n = Ok (pathlib.of_str p) ∧ is_Some (heap s !! n).
Proof.
  intros Hl Hr Hroot Hp Hn.
  pose proof (of_str_tail_valid p) as Hv.
  destruct (pathlib.of_str p) as [r t]. simpl in *. subst r.
  rewrite get_node_absolute in Hn by done.
  destruct (walk_attached _ _ _ _ _ Hl (attached_root s) Hn) as (l & Hat & Hnames).
  simpl in Hnames. split.
  - pose proof (attached_chain _ _ _ Hat) as Hc.
    rewrite (get_path_chain _ _ _ _ Hc (root_top_spec _ Hr)).
    + by rewrite Hroot, of_str_slash, Hnames.
    + rewrite <- Hnames in Hv. apply Forall_forall. intros m Hm.
      rewrite Forall_forall in Hv. apply Hv, elem_of_map_2.
      by apply list_elem_of_In, in_rev, list_elem_of_In in Hm.
  - inversion Hat as [|? q ? Hq _ _]; subst.
    + unfold name, deref in Hroot. destruct (heap s !! root s); [eauto|done].
    + by eapply parent_Some_valid.
Qed.

Lemma same_tree_resolve_path s s' p :
  same_tree s s' → resolve_path s' p = resolve_path s p.
Proof.
  intros H. unfold resolve_path, pwd.
  rewrite (same_tree_get_path _ _ _ H).
  destruct H as (_ & -> & -> & H). destruct (H (root s)) as (-> & _). done.
Qed.

Lemma same_tree_valid s s' n : same_tree s s' → is_Some (heap s !! n) → is_Some (heap s' !! n).
Proof. intros (Hl & _). rewrite !lookup_lt_is_Some. lia. Qed.

Lemma kind_update s n f :
  is_Some (heap s !! n) → kind (update n f s) n = _kind (f (deref s n)).
Proof.
  intros [o Ho]. unfold kind. rewrite deref_update. unfold deref. rewrite Ho. simpl.
  by destruct (decide (n = n)).
Qed.

Section leaf.
Context (s0 : state) (p : string) (path : Path) (n : nat).
Hypothesis Hres : resolve_path s0 p = Ok path.
Hypothesis Hnode : get_node s0 path = Ok n.
Hypothesis Hpath : get_path s0 n = Ok path.
Hypothesis Hvalid : is_Some (heap s0 !! n).

Context (s : state) (d : value) (cbs : list nat).
Hypothesis Hsame : same_tree s0 s.
Hypothesis Hkind : kind s n = LeafNode d cbs.

Lemma found_leaf :
  resolve_path s p = Ok path ∧ get_node s path = Ok n ∧ is_LeafNode s n = true.
Proof using Hres Hnode Hsame Hkind.
  rewrite (same_tree_resolve_path _ _ _ Hsame), (same_tree_get_node _ _ _ Hsame).
  unfold is_LeafNode, is_Node. by rewrite Hkind.
Qed.

Lemma store_data_leaf v :
  same_tree s0 (update n (store_data v) s) ∧
  kind (update n (store_data v) s) n = LeafNode v cbs.
Proof using Hvalid Hsame Hkind.
  split; [eapply same_tree_trans; [done|apply same_tree_store_data]|].
  rewrite kind_update by (by apply (same_tree_valid s0)).
  unfold store_data. fold (kind s n). by rewrite Hkind.
Qed.

Lemma store_callbacks_leaf cbs' :
  same_tree s0 (update n (store_callbacks cbs') s) ∧
  kind (update n (store_callbacks cbs') s) n = LeafNode d cbs'.
Proof using Hvalid Hsame Hkind.
  split; [eapply same_tree_trans; [done|apply same_tree_store_callbacks]|].
  rewrite kind_update by (by apply (same_tree_valid s0)).
  unfold store_callbacks. fold (kind s n). by rewrite Hkind.
Qed.

Lemma execute_callbacks_leaf :
  execute_callbacks n s =
  (Ok tt, mkState (heap s) (root s) (_cwd s)
            (calls s ++ map (fun c => (c, path)) cbs)).
Proof using Hpath Hsame Hkind.
  unfold execute_callbacks, bind, lift, modify.
  by rewrite (same_tree_get_path _ _ _ Hsame), Hpath, Hkind.
Qed.

Lemma watch_file_leaf c :
  watch_file p c s = (Ok tt, update n (store_callbacks (set_add c cbs)) s).
Proof using Hres Hnode Hsame Hkind.
  destruct found_leaf as (Hr & Hn & Hleaf).
  unfold watch_file, resolved, bind, lift, try, gets, watch, modify.
  rewrite Hr. simpl. rewrite Hn. simpl. rewrite Hleaf. simpl.
  unfold callbacks. by rewrite Hkind.
Qed.

Lemma unwatch_file_all_leaf :
  unwatch_file p [] s = (Ok tt, update n (store_callbacks []) s).
Proof using Hres Hnode Hsame Hkind.
  destruct found_leaf as (Hr & Hn & Hleaf).
  unfold unwatch_file, resolved, bind, lift, try, gets, unwatch, modify.
  rewrite Hr. simpl. rewrite Hn. simpl. by rewrite Hleaf.
Qed.
End leaf.

Section leaf_write.
Context (s0 : state) (p : string) (path : Path) (n : nat).
Hypothesis Hres : resolve_path s0 p = Ok path.
Hypothesis Hnode : get_node s0 path = Ok n.
Hypothesis Hpath : get_path s0 n = Ok path.
Hypothesis Hvalid : is_Some (heap s0 !! n).

Context (s : state) (d : value) (cbs : list nat).
Hypothesis Hsame : same_tree s0 s.
Hypothesis Hkind : kind s n = LeafNode d cbs.

Lemma set_data_leaf v :
  ∃ s', set_data p v s = (Ok tt, s') ∧ same_tree s0 s' ∧
        kind s' n = LeafNode v cbs ∧
        calls s' = (calls s ++ map (fun c => (c, path)) cbs)%list.
Proof using Hres Hnode Hpath Hvalid Hsame Hkind.
  destruct (store_data_leaf s0 n Hvalid s d cbs Hsame Hkind v) as [Hs1 Hk1].
  destruct (found_leaf s0 p path n Hres Hnode s d cbs Hsame Hkind) as (Hr & Hn & Hleaf).
  eexists. split; [|split; [|split]].
  - unfold set_data, resolved, bind, lift, try, gets, LeafNode_set_data, modify.
    rewrite Hr. simpl. rewrite Hn. simpl. rewrite Hleaf. simpl. unfold bind.
    by rewrite (execute_callbacks_leaf s0 path n Hpath _ v cbs Hs1 Hk1).
  - eapply same_tree_trans; [exact Hs1|apply same_tree_calls].
  - exact Hk1.
  - done.
Qed.

Lemma clear_data_leaf :
  ∃ s', clear_data p s = (Ok tt, s') ∧ same_tree s0 s' ∧
        kind s' n = LeafNode PyNone cbs ∧
        calls s' = (calls s ++ map (fun c => (c, path)) cbs)%list.
Proof using Hres Hnode Hpath Hvalid Hsame Hkind.
  destruct (store_data_leaf s0 n Hvalid s d cbs Hsame Hkind PyNone) as [Hs1 Hk1].
  destruct (found_leaf s0 p path n Hres Hnode s d cbs Hsame Hkind) as (Hr & Hn & Hleaf).
  eexists. split; [|split; [|split]].
  - unfold clear_data, resolved, bind, lift, try, gets, LeafNode_clear_data, modify.
    rewrite Hr. simpl. rewrite Hn. simpl. rewrite Hleaf. simpl. unfold bind.
    by rewrite (execute_callbacks_leaf s0 path n Hpath _ PyNone cbs Hs1 Hk1).
  - eapply same_tree_trans; [exact Hs1|apply same_tree_calls].
  - exact Hk1.
  - done.
Qed.
End leaf_write.

(** C8.  On a leaf at the absolute path [p] with no callback registered:
    after [watch_file p c], [set_data p v] records exactly one call, of [c]
    with the path [p]; [clear_data] does the same; after [unwatch_file p]
    without callbacks a further [set_data] records no call. *)
Theorem watcher_called_once s p c v v2 n :
  linked s = true → root_top s = true → name s (root s) = "/" →
  pathlib.root (pathlib.of_str p) = "/" →
  mem ".." (pathlib.tail (pathlib.of_str p)) = false →
  get_node s (pathlib.of_str p) = Ok n →
  is_LeafNode s n = true → callbacks s n = [] →
  ∃ s1 s2 s3 s4 s5,
    watch_file p c s = (Ok tt, s1) ∧
    set_data p v s1 = (Ok tt, s2) ∧
    calls s2 = (calls s ++ [(c, pathlib.of_str p)])%list ∧
    unwatch_file p [] s2 = (Ok tt, s3) ∧
    set_data p v2 s3 = (Ok tt, s4) ∧
    calls s4 = calls s2 ∧
    clear_data p s1 = (Ok tt, s5) ∧
    calls s5 = (calls s ++ [(c, pathlib.of_str p)])%list.
Proof.
  intros Hl Hr Hroot Habs Hdd Hn Hleaf Hcbs.
  pose proof (resolve_path_absolute _ _ Hroot Habs Hdd) as Hres.
  destruct (get_path_get_node _ _ _ Hl Hr Hroot Habs Hn) as [Hpath Hvalid].
  assert (∃ d, kind s n = LeafNode d []) as [d Hk].
  { unfold is_LeafNode, is_Node, callbacks in *. destruct (kind s n); [done|].
    subst. eauto. }
  pose proof (watch_file_leaf s p _ n Hres Hn s d [] (same_tree_refl s) Hk c) as Hw.
  destruct (store_callbacks_leaf s n Hvalid s d [] (same_tree_refl s) Hk (set_add c []))
    as [Hs1 Hk1].
  destruct (set_data_leaf s p _ n Hres Hn Hpath Hvalid _ _ _ Hs1 Hk1 v)
    as (s2 & Hset & Hs2 & Hk2 & Hc2).
  pose proof (unwatch_file_all_leaf s p _ n Hres Hn s2 v _ Hs2 Hk2) as Hu.
  destruct (store_callbacks_leaf s n Hvalid s2 v _ Hs2 Hk2 []) as [Hs3 Hk3].
  destruct (set_data_leaf s p _ n Hres Hn Hpath Hvalid _ _ _ Hs3 Hk3 v2)
    as (s4 & Hset' & Hs4 & Hk4 & Hc4).
  destruct (clear_data_leaf s p _ n Hres Hn Hpath Hvalid _ _ _ Hs1 Hk1)
    as (s5 & Hclr & Hs5 & Hk5 & Hc5).
  exists (update n (store_callbacks (set_add c [])) s), s2,
         (update n (store_callbacks []) s2), s4, s5.
  split; [exact Hw|]. split; [exact Hset|]. split; [exact Hc2|].
  split; [exact Hu|]. split; [exact Hset'|]. split; [|split; [exact Hclr|exact Hc5]].
  rewrite Hc4. simpl. by rewrite app_nil_r.
Qed.

(** ** What [resolve_path] can raise *)

Lemma parts_nil_str path : pathlib.parts path = [] → pathlib.str path = ".".
Proof.
  unfold pathlib.parts, pathlib.str. destruct path as [r t]. simpl.
  destruct (String.eqb_spec r ""); [|done]. by intros ->; subst.
Qed.

Lemma get_path_loop_no_raise fuel s n path e : get_path_loop fuel s n path ≠ Raise e.
Proof.
  revert n path. induction fuel as [|fuel IH]; intros n path; simpl; [done|].
  destruct (parent s n); [apply IH|done].
Qed.

Lemma py_del_at parts i :
  (i < length parts)%nat → py_del parts (Z.of_nat i) = Ok (delete i parts).
Proof.
  intros Hi. unfold py_del.
  destruct (Z.leb_spec 0 (Z.of_nat i)); [|lia].
  destruct (Z.ltb_spec (Z.of_nat i) (Z.of_nat (length parts))); [|lia].
  simpl. by rewrite Nat2Z.id.
Qed.

Lemma py_del_before parts i :
  parts ≠ [] → (i ≤ length parts)%nat → ∃ parts', py_del parts (Z.of_nat i - 1) = Ok parts'.
Proof.
  intros Hne Hi. unfold py_del.
  assert (0 < length parts)%nat by (destruct parts; [done|simpl; lia]).
  destruct (Z.leb_spec 0 (Z.of_nat i - 1)), (Z.ltb_spec (Z.of_nat i - 1) (Z.of_nat (length parts)));
    simpl; eauto; try lia.
  destruct (Z.leb_spec (- Z.of_nat (length parts)) (Z.of_nat i - 1)),
           (Z.ltb_spec (Z.of_nat i - 1) 0); simpl; eauto; lia.
Qed.

(** the loop of [resolve_path] never indexes out of range *)
Lemma collapse_Ok fuel idx parts : ∃ parts', collapse fuel idx parts = Ok parts'.
Proof.
  revert idx parts. induction fuel as [|fuel IH]; intros idx parts; simpl; [eauto|].
  destruct (parts !! idx) as [part|] eqn:Hi; [|eauto].
  apply lookup_lt_Some in Hi.
  destruct (part =? "."); [rewrite py_del_at by done; simpl; apply IH|].
  destruct (part =? ".."); [|apply IH].
  rewrite py_del_at by done. simpl.
  destruct (delete idx parts) as [|y ys] eqn:Hd; simpl; [apply IH|].
  destruct (py_del_before (y :: ys) idx) as [parts' ->]; [done| |simpl; apply IH].
  rewrite <- Hd, length_delete by (apply lookup_lt_is_Some; lia). lia.
Qed.

Lemma resolve_path_raises s p e : resolve_path s p = Raise e → e = ValueError.
Proof.
  unfold resolve_path.
  assert (∃ rp, match pathlib.parts (pathlib.of_str p) with
                | r :: parts => Ok (r, parts)
                | [] => if negb (pathlib.str (pathlib.of_str p) =? ".")
                        then Raise InvalidPathError else Ok (".", [])
                end = Ok rp) as [rp ->].
  { destruct (pathlib.parts (pathlib.of_str p)) eqn:Hparts; [|eauto].
    rewrite (parts_nil_str _ Hparts). eauto. }
  cbn [obind].
  assert (Hfin : ∀ path r parts,
    (if mem "." parts || mem ".." parts
     then obind (collapse (length parts) 0 parts) (fun parts' =>
            Ok (fold_left pathlib.truediv parts' (pathlib.of_str r)))
     else Ok path) = Raise e → e = ValueError).
  { intros path r parts. destruct (mem "." parts || mem ".." parts); [|done].
    destruct (collapse_Ok (length parts) 0 parts) as [parts' ->]. done. }
  destruct (negb (fst rp =? name s (root s))); cbn [obind].
  - unfold pwd, get_path.
    destruct (get_path_loop _ _ _ _) as [cw|e'|] eqn:Hcw; cbn [obind]; [| |done].
    + destruct (pathlib.parts _) as [|r ps]; cbn [obind]; [congruence|]. apply Hfin.
    + by apply get_path_loop_no_raise in Hcw.
  - destruct rp as [r parts]. apply Hfin.
Qed.

(** C9.  [resolve_path] never raises [InvalidPathError]: [pathlib] reads
    the empty string as ["."], so the test [str(path) != "."] that guards
    the [raise] cannot hold.  The empty string resolves like ["."], and the
    calls of the shell then work on the working directory; where the
    working path holds a [".."] (see C4) they work on yet another one. *)
Theorem empty_path_is_not_refused :
  (∀ s p, resolve_path s p ≠ Raise InvalidPathError) ∧
  (∀ s, resolve_path s "" = resolve_path s ".") ∧
  resolve_path init "" = Ok (pathlib.of_str "/") ∧
  resolve_path inside_a_b "" = Ok (pathlib.of_str "/a/b") ∧
  result (ls "") (exec (mkdir "/a" false) init) = Ok ["a"] ∧
  result (cd "") inside_a_b = Ok tt ∧
  result (get_metadata "" (PyStr "k")) init = Raise KeyError ∧
  (let s := exec (cd "/a/../../b") (exec (mkdir "/a/../../b" true) init) in
   pwd s = Ok (pathlib.mkPath "/" [".."; "b"]) ∧
   resolve_path s "" = Ok (pathlib.mkPath "/" [])).
Proof.
  split; [|split; [done|repeat split; evaluate]].
  intros s p H. by apply resolve_path_raises in H.
Qed.

(** * Path resolution *)

(** C4.  [resolve_path] turns [/a/b/../c] into [/a/c] and [/..] into [/],
    but the loop deletes from the list it is enumerating and takes
    [parts[idx - 1]] at [idx = 0] from the end of the list: [/a/../../b]
    keeps a [..] component and [/../a] loses the real component [a]. *)
Theorem resolve_path_dotdot_cases :
  resolve_path init "/a/b/../c" = Ok (pathlib.of_str "/a/c") ∧
  resolve_path init "/.." = Ok (pathlib.of_str "/") ∧
  resolve_path init "/a/../../b" = Ok (pathlib.mkPath "/" [".."; "b"]) ∧
  resolve_path init "/../a" = Ok (pathlib.mkPath "/" []) ∧
  resolve_path init "/a/../b/../c" = Ok (pathlib.mkPath "/" ["b"; ".."; "c"]).
Proof. repeat split; vm_compute; reflexivity. Qed.

(** * Errors that reach the caller *)

(** C3.  [ls] catches [InvalidPathError] around [get_node], which raises
    [NodeDoesNotExistError]: a missing path surfaces as the internal kind.
    [mv] onto a directory holding the source's name surfaces
    [DuplicateNodeNameError] the same way. *)
Theorem internal_errors_escape :
  result (ls "/nope") init = Raise (NodeDoesNotExistError "nope") ∧
  result (set_data "/nope" PyNone) init = Raise (NodeDoesNotExistError "nope") ∧
  result (mv "/a/x" "/b") same_name_twice = Raise (DuplicateNodeNameError "x") ∧
  result (cd "/nope") init = Raise InvalidPathError.
Proof. repeat split; vm_compute; reflexivity. Qed.

(** * Name uniqueness *)

(** C2.  [move_node] renames the source while it is still a member of its
    old parent's NodeSet: moving [/a/x] to [/b/y] next to a sibling [/a/y]
    leaves [/a] with two members called [y] when [set_parent] starts. *)
Theorem move_node_renames_before_detaching :
  ∃ a src tgt s',
    get_node two_siblings (pathlib.of_str "/a") = Ok a ∧
    names_unique two_siblings a = true ∧
    move_node_rename (pathlib.of_str "/a/x") (pathlib.of_str "/b/y") two_siblings
      = (Ok (src, tgt), s') ∧
    members s' a = members two_siblings a ∧
    map (name s') (members s' a) = ["y"; "y"] ∧
    names_unique s' a = false.
Proof.
  exists 1, 2, 4. eexists. repeat split; vm_compute; reflexivity.
Qed.

(** What [set_parent] then detaches is whichever member called [y] the
    NodeSet yields first.  With the sibling first in iteration order (here:
    created first) the sibling is dropped from [/a] and the moved node is
    listed under both directories. *)
Example move_node_detaches_the_sibling :
  let s := exec (mkdir "/b" false)
             (exec (touch "/a/x") (exec (touch "/a/y") (exec (mkdir "/a" false) init))) in
  let s' := exec (mv "/a/x" "/b/y") s in
  get_node s (pathlib.of_str "/a/y") = Ok 2 ∧
  get_node s (pathlib.of_str "/a/x") = Ok 3 ∧
  result (mv "/a/x" "/b/y") s = Ok tt ∧
  get_node s' (pathlib.of_str "/a/y") = Ok 3 ∧
  get_node s' (pathlib.of_str "/b/y") = Ok 3 ∧
  orphan s' 2 = true.
Proof. repeat split; evaluate. Qed.

(** * A reparenting that fails *)

(** C6.  When [set_parent] fails on a duplicate name the node has left its
    old parent's NodeSet and sits in none, but [_parent] was not reset: it
    still reports the old parent. *)
Theorem set_parent_failure_keeps_stale_parent :
  ∃ a b x s',
    get_node same_name_twice (pathlib.of_str "/a") = Ok a ∧
    get_node same_name_twice (pathlib.of_str "/b") = Ok b ∧
    get_node same_name_twice (pathlib.of_str "/a/x") = Ok x ∧
    parent same_name_twice x = Some a ∧
    set_parent x (Some b) same_name_twice = (Raise (DuplicateNodeNameError "x"), s') ∧
    orphan s' x = true ∧
    parent s' x = Some a.
Proof.
  exists 1, 2, 3. eexists. repeat split; vm_compute; reflexivity.
Qed.

(** * A move that fails *)

Lemma try_reraise_invalid {A} (m : M A) s : try m reraise_invalid s = m s.
Proof.
  unfold try, reraise_invalid, raise. destruct (m s) as [[a|e|] s']; [done| |done].
  by destruct e.
Qed.

(** On a tree whose NodeSet members name their owner as parent and whose
    root has no parent, a [move_node] (and so a [mv]) that raises leaves
    the [name] and [_parent] of the source as they were: there the renaming
    branch cannot fail. *)
Proposition failed_move_on_linked_tree s :
  linked s = true → root_top s = true →
  (∀ src dst n e s',
     get_node s src = Ok n → move_node src dst s = (Raise e, s') →
     name s' n = name s n ∧ parent s' n = parent s n) ∧
  (∀ p1 p2 src n e s',
     resolve_path s p1 = Ok src → get_node s src = Ok n →
     mv p1 p2 s = (Raise e, s') →
     name s' n = name s n ∧ parent s' n = parent s n).
Proof.
  intros Hl Hr. split.
  - intros src dst n e s' Hn Hmv. by apply (move_node_Raise_frame s src dst n e s').
  - intros p1 p2 src n e s' Hp1 Hn. unfold mv, resolved2, bind, lift.
    rewrite Hp1. destruct (resolve_path s p2) as [dst| |]; [|by intros [= _ <-]|done].
    rewrite try_reraise_invalid. by apply move_node_Raise_frame.
Qed.

Lemma failed_move_on_linked_tree_witness :
  mv "/a/x" "/b" same_name_twice
    = (Raise (DuplicateNodeNameError "x"), exec (mv "/a/x" "/b") same_name_twice) ∧
  name (exec (mv "/a/x" "/b") same_name_twice) 3 = name same_name_twice 3 ∧
  parent (exec (mv "/a/x" "/b") same_name_twice) 3 = parent same_name_twice 3.
Proof.
  split; [evaluate|].
  destruct (failed_move_on_linked_tree same_name_twice) as [_ H];
    [evaluate|evaluate|].
  apply (H "/a/x" "/b" (pathlib.of_str "/a/x") 3 (DuplicateNodeNameError "x"));
    evaluate.
Defined.

(** C1.  [move_node] renames the source and has nothing that gives the old
    name back when [set_parent] then raises.  The move of
    [move_node_detaches_the_sibling] leaves the node a member of [/a] and of
    [/b]; a failed move takes it out of [/b], its parent; the next move, to
    [/c/z], renames it, fails in [set_parent] and leaves it called [z].
    A failed move also takes the source out of its directory: after
    [mv /a/x /b] has failed on the name [x], [/a/x] is in no NodeSet. *)
Theorem failed_move_leaves_source_renamed :
  let s0 := exec (touch "/c/y") (exec (mkdir "/c" false) (exec (mkdir "/b" false)
              (exec (touch "/a/x") (exec (touch "/a/y") (exec (mkdir "/a" false) init))))) in
  let s1 := exec (mv "/a/x" "/b/y") s0 in
  let s2 := exec (mv "/a/y" "/c") s1 in
  let s3 := exec (mv "/a/y" "/c/z") s2 in
  (linked s0 = true ∧ linked s1 = false ∧
   result (mv "/a/y" "/c") s1 = Raise (DuplicateNodeNameError "y") ∧
   get_node s2 (pathlib.of_str "/a/y") = Ok 3 ∧
   result (mv "/a/y" "/c/z") s2 = Raise (NodeDoesNotExistError "z") ∧
   name s2 3 = "y" ∧ name s3 3 = "z") ∧
  (get_node same_name_twice (pathlib.of_str "/a/x") = Ok 3 ∧
   result (mv "/a/x" "/b") same_name_twice = Raise (DuplicateNodeNameError "x") ∧
   orphan same_name_twice 3 = false ∧
   orphan (exec (mv "/a/x" "/b") same_name_twice) 3 = true).
Proof. repeat split; evaluate. Qed.

(** * What a move leaves behind *)

(** C5.  A node found from the root whose path leads nowhere.  With the
    sibling [/a/y] first in the iteration order of [/a]'s NodeSet,
    [mv /a/x /b/y] drops the sibling from [/a] and lists the moved node
    under [/a] and [/b]; the failing [mv /a/y /c] then takes it out of
    [/b], its parent.  The node is found at [/a/y] and its parent
    references end at the root, but [get_path] gives [/b/y], where
    [get_node] finds nothing.  (For the tree conditions under which the
    round trip holds see [get_node_get_path].) *)
Theorem get_path_leaves_the_found_node :
  let s1 := exec (mv "/a/x" "/b/y") y_before_x in
  let s2 := exec (mv "/a/y" "/c") s1 in
  result (mv "/a/x" "/b/y") y_before_x = Ok tt ∧
  result (mv "/a/y" "/c") s1 = Raise (DuplicateNodeNameError "y") ∧
  get_node s2 (pathlib.of_str "/a/y") = Ok 3 ∧
  members s2 1 = [3] ∧ members s2 4 = [] ∧
  parent s2 3 = Some 4 ∧ parent s2 4 = Some (root s2) ∧ parent s2 (root s2) = None ∧
  get_path s2 3 = Ok (pathlib.of_str "/b/y") ∧
  get_node s2 (pathlib.of_str "/b/y") = Raise (NodeDoesNotExistError "y") ∧
  unique_names s2 = true ∧ names_valid s2 = true ∧ root_top s2 = true.
Proof. repeat split; evaluate. Qed.

(** C7.  A directory that [rm] returns and that is still there.  After the
    same move on directories, [/a] lists the moved directory and [/b] is
    its parent: [rm /a/y] with [recursive] takes it out of [/b], returns
    it, and [/a/y] still leads to it.  (The refusals of the claim, and the
    removal on a tree whose members name their owner as parent, are
    [rm_directory_and_root].) *)
Theorem rm_leaves_the_directory_listed :
  let s1 := exec (mv "/a/x" "/b/y") dir_y_before_dir_x in
  let s2 := exec (rm "/a/y" true) s1 in
  result (mv "/a/x" "/b/y") dir_y_before_dir_x = Ok tt ∧
  get_node s1 (pathlib.of_str "/a/y") = Ok 3 ∧
  is_Node s1 3 = true ∧ 3 ≠ root s1 ∧
  parent s1 3 = Some 4 ∧ members s1 1 = [3] ∧ members s1 4 = [3] ∧
  result (rm "/a/y" true) s1 = Ok 3 ∧
  parent s2 3 = None ∧ members s2 4 = [] ∧ members s2 1 = [3] ∧
  get_node s2 (pathlib.of_str "/a/y") = Ok 3.
Proof. repeat split; try evaluate. vm_compute. discriminate. Qed.

(** * Witnesses *)

Lemma get_node_get_path_witness :
  get_path nested_leaf 3 = Ok (pathlib.of_str "/a/b/f") ∧
  get_node nested_leaf (pathlib.of_str "/a/b/f") = Ok 3.
Proof.
  apply (get_node_get_path nested_leaf 3 [3; 2; 1]); try evaluate.
  repeat (eapply attached_child; [evaluate|vm_compute; by left|]).
  apply attached_root.
Defined.

Lemma rm_directory_and_root_witness :
  rm "/a" false inside_a_b = (Raise InvalidPathError, inside_a_b) ∧
  (∀ recursive, rm "/" recursive inside_a_b = (Raise InvalidPathError, inside_a_b)) ∧
  ∃ s', rm "/a" true inside_a_b = (Ok 1, s') ∧
        ∀ m, reaches s' 1 m →
             ¬ reaches s' (root s') m ∧ ∀ q, get_node s' q ≠ Ok m.
Proof.
  destruct (rm_directory_and_root inside_a_b "/a" (pathlib.of_str "/a") 1)
    as (Ha & _ & Hc); [evaluate|evaluate|].
  destruct (rm_directory_and_root inside_a_b "/" (pathlib.of_str "/") 0)
    as (_ & Hb & _); [evaluate|evaluate|].
  split; [apply Ha; evaluate|]. split; [apply Hb; evaluate|].
  apply Hc; try evaluate. discriminate.
Defined.

Lemma watcher_called_once_witness :
  ∃ s1 s2 s3 s4 s5,
    watch_file "/x" 7 one_leaf = (Ok tt, s1) ∧
    set_data "/x" (PyStr "v") s1 = (Ok tt, s2) ∧
    calls s2 = (calls one_leaf ++ [(7, pathlib.of_str "/x")])%list ∧
    unwatch_file "/x" [] s2 = (Ok tt, s3) ∧
    set_data "/x" (PyStr "v2") s3 = (Ok tt, s4) ∧
    calls s4 = calls s2 ∧
    clear_data "/x" s1 = (Ok tt, s5) ∧
    calls s5 = (calls one_leaf ++ [(7, pathlib.of_str "/x")])%list.
Proof.
  apply (watcher_called_once one_leaf "/x" 7 (PyStr "v") (PyStr "v2") 1); evaluate.
Defined.

Lemma pwd_after_ancestor_removed_witness :
  ∃ l', chain inside_a_b (_cwd inside_a_b) l' 1 ∧ (1%nat ∉ l') ∧
        chain (exec (rm "/a" true) inside_a_b) (_cwd (exec (rm "/a" true) inside_a_b)) l' 1 ∧
        parent (exec (rm "/a" true) inside_a_b) 1 = None ∧
        pwd (exec (rm "/a" true) inside_a_b)
        = Ok (pathlib.mkPath "" (name inside_a_b 1 :: map (name inside_a_b) (rev l'))) ∧
        name inside_a_b 1 ≠ "/".
Proof.
  apply (pwd_after_ancestor_removed inside_a_b "/a" 1 _ [2]); try evaluate.
  - vm_compute. eexists. reflexivity.
  - discriminate.
  - eapply chain_cons; [evaluate|apply chain_nil].
Defined.

(** * Listing a directory *)

Lemma insert_sorted_perm x l : Permutation (insert_sorted x l) (x :: l).
Proof.
  induction l as [|y l IH]; simpl; [done|].
  destruct (String.leb x y); [done|].
  rewrite IH. apply perm_swap.
Qed.

Lemma insert_sorted_HdRel a x l :
  le_name a x → HdRel le_name a l → HdRel le_name a (insert_sorted x l).
Proof.
  intros Hax Hl. destruct l as [|y l]; simpl; [by constructor|].
  destruct (String.leb x y); constructor; [done|]. by inversion Hl.
Qed.

Lemma insert_sorted_Sorted x l : Sorted le_name l → Sorted le_name (insert_sorted x l).
Proof.
  induction 1 as [|y l Hl IH Hy]; simpl; [by repeat constructor|].
  destruct (String.leb x y) eqn:Hxy.
  - constructor; [by constructor|]. by constructor.
  - constructor; [done|]. apply insert_sorted_HdRel; [|done].
    destruct (String.leb_total x y) as [H|H]; [congruence|done].
Qed.

Lemma sorted_Sorted l : Sorted le_name (sorted l).
Proof.
  induction l as [|x l IH]; simpl; [constructor|]. by apply insert_sorted_Sorted.
Qed.

Lemma sorted_perm l : Permutation (sorted l) l.
Proof.
  induction l as [|x l IH]; simpl; [done|]. by rewrite insert_sorted_perm, IH.
Qed.

Lemma ls_eq p s :
  ls p s =
  match resolve_path s p with
  | Ok path =>
      match get_node s path with
      | Ok n => if is_Node s n then (Ok (sorted (map (name s) (members s n))), s)
                else (Raise InvalidPathError, s)
      | Raise e => (Raise e, s)
      | Hang => (Hang, s)
      end
  | Raise e => (Raise e, s)
  | Hang => (Hang, s)
  end.
Proof.
  unfold ls, resolved, bind, lift, try, gets, raise, reraise_invalid.
  destruct (resolve_path s p) as [path| |]; [|done..].
  destruct (get_node s path) as [n|[]|]; try done. simpl.
  by destruct (is_Node s n).
Qed.

(** X2.  [ls] of a path that leads to a directory returns the names of
    the directory's children, each child once, in ascending order of
    [str] comparison, and leaves the shell as it was. *)
Theorem ls_sorted_names s p path n :
  resolve_path s p = Ok path → get_node s path = Ok n → is_Node s n = true →
  ∃ names, ls p s = (Ok names, s) ∧
           Sorted le_name names ∧
           Permutation names (map (name s) (members s n)).
Proof.
  intros Hp Hn Hd. eexists. rewrite ls_eq, Hp, Hn, Hd. split; [done|].
  split; [apply sorted_Sorted|apply sorted_perm].
Qed.

Lemma ls_sorted_names_witness :
  ∃ names, ls "/a" two_siblings = (Ok names, two_siblings) ∧
           Sorted le_name names ∧
           Permutation names (map (name two_siblings) (members two_siblings 1)).
Proof. apply (ls_sorted_names two_siblings "/a" (pathlib.of_str "/a") 1); evaluate. Defined.

Lemma elem_of_set_add m n ms : m ∈ set_add n ms ↔ m ∈ ms ∨ m = n.
Proof.
  unfold set_add. destruct (existsb (Nat.eqb n) ms) eqn:He.
  - apply existsb_exists in He as (y & Hy & ->%Nat.eqb_eq).
    apply list_elem_of_In in Hy. split; [auto|]. by intros [?| ->].
  - rewrite elem_of_app, list_elem_of_singleton. done.
Qed.

(** * Well-formed trees *)

Lemma members_valid s d m : linked s = true → m ∈ members s d → is_Some (heap s !! m).
Proof. intros Hl Hm. eapply parent_Some_valid, linked_spec; eauto. Qed.

Lemma members_out_of_range s d : heap s !! d = None → members s d = [].
Proof. unfold members, kind, deref. by intros ->. Qed.

Lemma linked_intro s :
  (∀ d m, m ∈ members s d → parent s m = Some d) → linked s = true.
Proof.
  intros H. unfold linked. apply forallb_forall. intros d _.
  apply forallb_forall. intros m Hm%list_elem_of_In.
  rewrite (H d m Hm). apply Nat.eqb_refl.
Qed.

Lemma unique_names_all s d : unique_names s = true → names_unique s d = true.
Proof.
  unfold unique_names. rewrite forallb_forall. intros H.
  destruct (heap s !! d) eqn:Hd.
  - apply H, all_objects_elem. eauto.
  - unfold names_unique. by rewrite members_out_of_range.
Qed.

Lemma unique_names_intro s : (∀ d, names_unique s d = true) → unique_names s = true.
Proof. intros H. apply forallb_forall. intros d _. apply H. Qed.

Lemma names_valid_intro s :
  (∀ m, is_Some (heap s !! m) → m ≠ root s → valid_name (name s m) = true) →
  names_valid s = true.
Proof.
  intros H. apply forallb_forall. intros m Hm. apply in_seq in Hm.
  destruct (Nat.eqb_spec m (root s)); [done|]. simpl. apply H; [|done].
  apply lookup_lt_is_Some. lia.
Qed.

Lemma wf_spec s :
  wf s = true ↔
  linked s = true ∧ root_top s = true ∧ unique_names s = true ∧
  names_valid s = true ∧ name s (root s) = "/" ∧ is_Node s (root s) = true.
Proof.
  unfold wf. rewrite !andb_true_iff, String.eqb_eq. tauto.
Qed.

Lemma distinct_snoc l x : distinct (l ++ [x]) = distinct l && negb (mem x l).
Proof.
  induction l as [|y l IH]; simpl; [done|]. rewrite IH.
  assert (mem y (l ++ [x]) = mem y l || (y =? x)) as ->.
  { unfold mem. rewrite existsb_app. simpl. by rewrite orb_false_r. }
  rewrite (String.eqb_sym x y).
  destruct (mem y l), (y =? x), (distinct l), (mem x l); done.
Qed.

Lemma mem_names s ms x : mem x (map (name s) ms) = NodeSet_contains s ms x.
Proof.
  unfold mem, NodeSet_contains, has_name. induction ms as [|m ms IH]; simpl; [done|].
  by rewrite IH, (String.eqb_sym x).
Qed.

Lemma distinct_filter {A} (f : A → string) (P : A → bool) l :
  distinct (map f l) = true → distinct (map f (List.filter P l)) = true.
Proof.
  induction l as [|x l IH]; simpl; [done|].
  intros [Hx Hl]%andb_prop. destruct (P x); simpl; [|by apply IH].
  rewrite IH by done. rewrite andb_true_r.
  apply negb_true_iff, mem_false_iff. apply negb_true_iff, mem_false_iff in Hx.
  intros H. apply Hx. rewrite list_elem_of_In, in_map_iff in *.
  destruct H as (y & Hy & Hin). exists y. split; [done|].
  by apply filter_In in Hin as [? _].
Qed.

(** reading an extended heap *)
Lemma deref_allocated s o m :
  deref (allocated s o) m = if decide (m = length (heap s)) then o else deref s m.
Proof.
  unfold deref, allocated, set_heap. simpl.
  destruct (decide (m = length (heap s))) as [->|Hne].
  - rewrite lookup_app_r by done. by rewrite Nat.sub_diag.
  - destruct (decide (m < length (heap s))%nat).
    + by rewrite lookup_app_l.
    + rewrite !lookup_ge_None_2; [done|lia|rewrite length_app; simpl; lia].
Qed.

Lemma valid_allocated s o m :
  is_Some (heap (allocated s o) !! m) ↔ is_Some (heap s !! m) ∨ m = length (heap s).
Proof.
  rewrite !lookup_lt_is_Some. unfold allocated, set_heap. simpl.
  rewrite length_app. simpl. lia.
Qed.

Lemma is_Node_valid s n : is_Node s n = true → is_Some (heap s !! n).
Proof.
  unfold is_Node, kind, deref. destruct (heap s !! n); [eauto|done].
Qed.

Lemma is_Node_members s n : is_Node s n = true → kind s n = Node (members s n).
Proof. unfold is_Node, members. by destruct (kind s n). Qed.

Lemma name_root_valid s : name s (root s) = "/" → is_Some (heap s !! root s).
Proof. unfold name, deref. destruct (heap s !! root s); [eauto|done]. Qed.

(** *** the state after [alloc] *)
Lemma name_allocated s o m :
  name (allocated s o) m = if decide (m = length (heap s)) then _name o else name s m.
Proof. unfold name. rewrite deref_allocated. by destruct (decide _). Qed.
Lemma parent_allocated s o m :
  parent (allocated s o) m = if decide (m = length (heap s)) then _parent o else parent s m.
Proof. unfold parent. rewrite deref_allocated. by destruct (decide _). Qed.
Lemma kind_allocated s o m :
  kind (allocated s o) m = if decide (m = length (heap s)) then _kind o else kind s m.
Proof. unfold kind. rewrite deref_allocated. by destruct (decide _). Qed.
Lemma members_allocated s o m :
  members (allocated s o) m =
  if decide (m = length (heap s)) then kind_members (_kind o) else members s m.
Proof. unfold members. rewrite kind_allocated. by destruct (decide _). Qed.
Lemma is_Node_allocated s o m :
  is_Some (heap s !! m) → is_Node (allocated s o) m = is_Node s m.
Proof.
  intros Hm%lookup_lt_is_Some. unfold is_Node. rewrite kind_allocated.
  destruct (decide _); [lia|done].
Qed.

Lemma valid_ne_new s m : is_Some (heap s !! m) → m ≠ length (heap s).
Proof. intros Hm%lookup_lt_is_Some. lia. Qed.

Lemma contains_ext s s' ms x :
  (∀ m, m ∈ ms → name s' m = name s m) →
  NodeSet_contains s' ms x = NodeSet_contains s ms x.
Proof.
  intros H. unfold NodeSet_contains, has_name.
  induction ms as [|m ms IH]; simpl; [done|].
  rewrite H by (by left). rewrite IH; [done|]. intros m' Hm'. apply H. by right.
Qed.

Lemma names_ext s s' ms :
  (∀ m, m ∈ ms → name s' m = name s m) → map (name s') ms = map (name s) ms.
Proof.
  intros H. induction ms as [|m ms IH]; simpl; [done|].
  rewrite H by (by left). rewrite IH; [done|]. intros m' Hm'. apply H. by right.
Qed.

Lemma wf_allocated s x k :
  wf s = true → valid_name x = true → kind_members k = [] →
  wf (allocated s (mkObj x None [] k)) = true.
Proof.
  rewrite !wf_spec. intros (Hl & Hr & Hu & Hv & Hroot & Hd) Hx Hk.
  set (o := mkObj x None [] k).
  pose proof (valid_ne_new _ _ (name_root_valid _ Hroot)) as Hrn.
  assert (Hmem : ∀ d, members (allocated s o) d = members s d).
  { intros d. rewrite members_allocated. destruct (decide _) as [->|]; [|done].
    simpl. rewrite Hk. symmetry. apply members_out_of_range.
    by apply lookup_ge_None_2. }
  assert (Hname : ∀ d m, m ∈ members s d → name (allocated s o) m = name s m).
  { intros d m Hm. rewrite name_allocated. destruct (decide _) as [->|]; [|done].
    by apply (members_valid _ _ _ Hl), valid_ne_new in Hm. }
  repeat split.
  - apply linked_intro. intros d m. rewrite Hmem. intros Hm.
    rewrite parent_allocated. destruct (decide _) as [->|].
    + by apply (members_valid _ _ _ Hl), valid_ne_new in Hm.
    + by apply linked_spec.
  - unfold root_top. change (root (allocated s o)) with (root s).
    rewrite parent_allocated. destruct (decide _); [done|].
    by rewrite (root_top_spec _ Hr).
  - apply unique_names_intro. intros d. unfold names_unique. rewrite Hmem.
    rewrite (names_ext s); [by apply unique_names_all|]. apply Hname.
  - apply names_valid_intro. intros m Hm Hne. rewrite name_allocated.
    destruct (decide _); [done|]. apply names_valid_spec; [done| |done].
    apply valid_allocated in Hm as [?|?]; done.
  - change (root (allocated s o)) with (root s). rewrite name_allocated.
    by destruct (decide _).
  - change (root (allocated s o)) with (root s).
    by rewrite is_Node_allocated by (by apply name_root_valid).
Qed.

(** *** the state after a parentless node has been put under [par] *)
Lemma name_adopted s par n m : name (adopted s par n) m = name s m.
Proof. unfold adopted. by rewrite name_with_parent, name_set_members. Qed.

Lemma parent_adopted s par n m :
  is_Some (heap s !! n) →
  parent (adopted s par n) m = if decide (n = m) then Some par else parent s m.
Proof.
  intros Hn. unfold adopted. rewrite parent_with_parent.
  - destruct (decide (n = m)); [done|]. by rewrite parent_set_members.
  - unfold set_members, update, set_heap. simpl.
    apply lookup_lt_is_Some. rewrite length_alter. by apply lookup_lt_is_Some.
Qed.

Lemma members_adopted s par n d :
  is_Node s par = true → n ∉ members s par →
  members (adopted s par n) d =
  if decide (par = d) then (members s par ++ [n])%list else members s d.
Proof.
  intros Hpar Hnot. unfold adopted.
  rewrite members_with_parent, members_set_members by (by apply is_Node_valid).
  destruct (decide (par = d)); [|done]. unfold set_add.
  destruct (existsb (Nat.eqb n) (members s par)) eqn:He; [|done].
  by apply existsb_exists in He as (y & Hy%list_elem_of_In & ->%Nat.eqb_eq).
Qed.

Lemma is_Node_adopted s par n m :
  is_Node s par = true → is_Node (adopted s par n) m = is_Node s m.
Proof.
  intros Hpar. unfold adopted, is_Node.
  rewrite kind_with_parent, kind_set_members by (by apply is_Node_valid).
  destruct (decide (par = m)) as [<-|]; [|done]. by rewrite (is_Node_members _ _ Hpar).
Qed.

Lemma length_adopted s par n : length (heap (adopted s par n)) = length (heap s).
Proof. unfold adopted, set_members. by rewrite !length_heap_update. Qed.

Lemma wf_adopted s par n :
  wf s = true →
  is_Some (heap s !! n) → (∀ d, n ∉ members s d) → n ≠ root s →
  is_Node s par = true →
  NodeSet_contains s (members s par) (name s n) = false →
  wf (adopted s par n) = true.
Proof.
  intros Hwf Hn Horphan Hne Hpar Hfree.
  pose proof Hwf as (Hl & Hr & Hu & Hv & Hroot & Hd)%wf_spec.
  apply wf_spec. repeat split.
  - apply linked_intro. intros d m.
    rewrite members_adopted, parent_adopted by done.
    destruct (decide (par = d)) as [<-|].
    + intros [Hm| ->%list_elem_of_singleton]%elem_of_app.
      * destruct (decide (n = m)) as [<-|]; [done|]. by apply linked_spec.
      * by destruct (decide (n = n)).
    + intros Hm. destruct (decide (n = m)) as [<-|]; [by apply Horphan in Hm|].
      by apply linked_spec.
  - unfold root_top. change (root (adopted s par n)) with (root s).
    rewrite parent_adopted by done. destruct (decide (n = root s)); [done|].
    by rewrite (root_top_spec _ Hr).
  - apply unique_names_intro. intros d. unfold names_unique.
    rewrite members_adopted by done.
    rewrite (names_ext s) by (intros; apply name_adopted).
    destruct (decide (par = d)) as [<-|]; [|by apply unique_names_all].
    rewrite map_app. simpl. rewrite distinct_snoc, mem_names, Hfree.
    by rewrite (unique_names_all _ par Hu : distinct _ = true).
  - apply names_valid_intro. intros m Hm Hnr. rewrite name_adopted.
    apply names_valid_spec; [done| |done].
    revert Hm. rewrite !lookup_lt_is_Some. by rewrite length_adopted.
  - change (root (adopted s par n)) with (root s). by rewrite name_adopted.
  - change (root (adopted s par n)) with (root s). by rewrite is_Node_adopted.
Qed.

(** * The components of a resolved path *)

Lemma valid_path_joinpath a b : valid_path a → valid_path b → valid_path (pathlib.joinpath a b).
Proof.
  unfold valid_path, pathlib.joinpath. intros Ha Hb.
  destruct (pathlib.root b =? ""); simpl; [by apply Forall_app|done].
Qed.

Lemma valid_path_get_path_loop fuel s n path path' :
  valid_path path → get_path_loop fuel s n path = Ok path' → valid_path path'.
Proof.
  revert n path. induction fuel as [|fuel IH]; intros n path Hp; simpl; [done|].
  destruct (parent s n) as [q|]; [|by intros [= <-]].
  apply IH. apply valid_path_joinpath; [apply of_str_tail_valid|done].
Qed.

Lemma valid_path_get_path s n path : get_path s n = Ok path → valid_path path.
Proof. apply valid_path_get_path_loop, of_str_tail_valid. Qed.

Lemma py_del_Forall (P : string → Prop) parts i parts' :
  Forall P parts → py_del parts i = Ok parts' → Forall P parts'.
Proof.
  unfold py_del. intros H.
  destruct (_ && _); [intros [= <-]; by apply Forall_delete|].
  destruct (_ && _); [intros [= <-]; by apply Forall_delete|done].
Qed.

Lemma collapse_Forall (P : string → Prop) fuel idx parts parts' :
  Forall P parts → collapse fuel idx parts = Ok parts' → Forall P parts'.
Proof.
  revert idx parts. induction fuel as [|fuel IH]; intros idx parts Hp; simpl.
  { by intros [= <-]. }
  destruct (parts !! idx) as [part|]; [|by intros [= <-]].
  destruct (part =? ".").
  { destruct (py_del parts _) as [p1| |] eqn:H1; simpl; [|done..].
    apply IH. by eapply py_del_Forall. }
  destruct (part =? ".."); [|by apply IH].
  destruct (py_del parts _) as [p1| |] eqn:H1; simpl; [|done..].
  pose proof (py_del_Forall _ _ _ _ Hp H1) as Hp1.
  destruct p1 as [|y ys]; simpl; [by apply IH|].
  destruct (py_del (y :: ys) _) as [p2| |] eqn:H2; simpl; [|done..].
  apply IH. by eapply py_del_Forall.
Qed.

Lemma valid_path_fold_truediv parts path :
  valid_path path → valid_path (fold_left pathlib.truediv parts path).
Proof.
  revert path. induction parts as [|x parts IH]; intros path Hp; simpl; [done|].
  apply IH. apply valid_path_joinpath; [done|apply of_str_tail_valid].
Qed.

Lemma parts_tail_Forall (P : string → Prop) path r parts :
  Forall P (pathlib.tail path) → pathlib.parts path = r :: parts → Forall P parts.
Proof.
  unfold pathlib.parts. intros H. destruct (pathlib.root path =? "").
  - intros E. rewrite E in H. by inversion H.
  - by intros [= _ <-].
Qed.

(** what [resolve_path] returns has components that are names *)
Lemma resolve_path_valid s p path : resolve_path s p = Ok path → valid_path path.
Proof.
  unfold resolve_path.
  assert (Hfin : ∀ path0 r parts,
    valid_path path0 → Forall (fun x => valid_name x = true) parts →
    (if mem "." parts || mem ".." parts
     then obind (collapse (length parts) 0 parts) (fun parts' =>
            Ok (fold_left pathlib.truediv parts' (pathlib.of_str r)))
     else Ok path0) = Ok path → valid_path path).
  { intros path0 r parts H0 Hparts. destruct (mem "." parts || mem ".." parts).
    - destruct (collapse _ _ _) as [parts'| |] eqn:Hc; simpl; [|done..].
      intros [= <-]. apply valid_path_fold_truediv, of_str_tail_valid.
    - by intros [= <-]. }
  pose proof (of_str_tail_valid p) as Hp.
  destruct (pathlib.parts (pathlib.of_str p)) as [|r parts] eqn:Hparts; cbn [obind].
  - destruct (negb (pathlib.str (pathlib.of_str p) =? ".")); cbn [obind]; [done|].
    cbn [fst]. destruct (negb ("." =? name s (root s))); cbn [obind].
    + destruct (pwd s) as [cw| |] eqn:Hcw; cbn [obind]; [|done..].
      destruct (pathlib.parts (pathlib.joinpath cw (pathlib.of_str p)))
        as [|r' parts'] eqn:Hparts'; cbn [obind]; [done|].
      assert (valid_path (pathlib.joinpath cw (pathlib.of_str p))) as Hj.
      { apply valid_path_joinpath; [by eapply valid_path_get_path|done]. }
      apply Hfin; [done|]. by eapply parts_tail_Forall.
    + apply Hfin; [done|constructor].
  - cbn [fst]. destruct (negb (r =? name s (root s))); cbn [obind].
    + destruct (pwd s) as [cw| |] eqn:Hcw; cbn [obind]; [|done..].
      destruct (pathlib.parts (pathlib.joinpath cw (pathlib.of_str p)))
        as [|r' parts'] eqn:Hparts'; cbn [obind]; [done|].
      assert (valid_path (pathlib.joinpath cw (pathlib.of_str p))) as Hj.
      { apply valid_path_joinpath; [by eapply valid_path_get_path|done]. }
      apply Hfin; [done|]. by eapply parts_tail_Forall.
    + apply Hfin; [done|]. by eapply parts_tail_Forall.
Qed.

Lemma valid_path_name path :
  valid_path path → pathlib.name path ≠ "" → valid_name (pathlib.name path) = true.
Proof.
  intros Hv Hn. destruct (path_name_snoc _ Hn) as (l & Ht & _).
  unfold valid_path in Hv. rewrite Ht in Hv. apply Forall_app in Hv as [_ Hv].
  by inversion Hv.
Qed.

Lemma Forall_removelast {A} (P : A → Prop) l : Forall P l → Forall P (removelast l).
Proof.
  induction 1 as [|x l Hx Hl IH]; simpl; [constructor|].
  destruct l; [constructor|]. by constructor.
Qed.

Lemma valid_path_parent path : valid_path path → valid_path (pathlib.parent path).
Proof.
  unfold valid_path, pathlib.parent. intros Hv.
  destruct (pathlib.tail path) as [|x l] eqn:Ht; [by rewrite Ht|].
  cbn [pathlib.tail]. by apply Forall_removelast.
Qed.

(** X3.  Whatever [resolve_path] returns, no component of it after the
    root is empty, is ["."] or holds a separator: the result can be split
    at the separators and read back component by component.  ([".."] can
    remain, see C4.) *)
Theorem resolve_path_components s p path :
  resolve_path s p = Ok path →
  Forall (fun x => x ≠ "" ∧ x ≠ "." ∧ no_sep x = true) (pathlib.tail path).
Proof.
  intros H%resolve_path_valid. eapply Forall_impl; [exact H|].
  intros x Hx. simpl in Hx. unfold valid_name, pathlib.keep in Hx.
  apply andb_prop in Hx as [[H1 H2]%andb_prop H3].
  apply negb_true_iff, String.eqb_neq in H1, H2. done.
Qed.

Lemma resolve_path_components_witness :
  Forall (fun x => x ≠ "" ∧ x ≠ "." ∧ no_sep x = true) ["a"; "b"].
Proof. apply (resolve_path_components init "a/./b" (pathlib.mkPath "/" ["a"; "b"])); evaluate. Defined.

(** * Trees that grow *)

Lemma grows_refl s : grows s s.
Proof. by repeat split. Qed.

Lemma grows_trans s1 s2 s3 : grows s1 s2 → grows s2 s3 → grows s1 s3.
Proof.
  intros (Hr & Hc & Hn & Hd & Hp & H) (Hr' & Hc' & Hn' & Hd' & Hp' & H').
  split; [congruence|]. split; [congruence|].
  split; [|split; [|split]].
  - rewrite Hr in Hn'. congruence.
  - intros m Hm. by apply Hd', Hd.
  - intros m Hm. destruct (Hp m Hm) as [Hv E]. destruct (Hp' m Hv) as [Hv' E'].
    split; [done|congruence].
  - intros d x c Hx. by apply H', H.
Qed.

Lemma grows_walk s s' a l n : grows s s' → walk s a l = Ok n → walk s' a l = Ok n.
Proof.
  intros (_ & _ & _ & _ & _ & H). revert a. induction l as [|x l IH]; intros a; simpl; [done|].
  destruct (get_child s a x) as [c| |] eqn:Hc; simpl; [|done..].
  rewrite (H _ _ _ Hc). simpl. apply IH.
Qed.

Lemma grows_get_node s s' path n :
  grows s s' → get_node s path = Ok n → get_node s' path = Ok n.
Proof.
  intros Hg. pose proof Hg as (Hr & _ & Hn & _ & _ & H). unfold get_node.
  destruct (pathlib.parts path) as [|r ps]; [done|]. rewrite Hr, Hn.
  destruct (r =? name s (root s)); simpl; [by apply grows_walk|].
  destruct (get_child s (root s) r) as [c| |] eqn:Hc; simpl; [|done..].
  rewrite (H _ _ _ Hc). simpl. by apply grows_walk.
Qed.

Lemma find_app_l {A} (f : A → bool) l1 l2 x :
  List.find f l1 = Some x → List.find f (l1 ++ l2) = Some x.
Proof.
  induction l1 as [|y l1 IH]; simpl; [done|]. destruct (f y); [done|apply IH].
Qed.

Lemma find_ext_in {A} (f g : A → bool) l :
  (∀ x, x ∈ l → f x = g x) → List.find f l = List.find g l.
Proof.
  induction l as [|y l IH]; simpl; [done|]. intros H.
  rewrite (H y) by (by left). destruct (g y); [done|].
  apply IH. intros x Hx. apply H. by right.
Qed.

Lemma get_child_find s d x c :
  get_child s d x = Ok c ↔
  is_Node s d = true ∧ List.find (has_name s x) (members s d) = Some c.
Proof.
  rewrite get_child_eq. unfold is_Node, members. destruct (kind s d) as [ms|]; simpl.
  - destruct (List.find _ ms); split; [by intros [= ->]|by intros [_ [= ->]]|done|by intros [_ ?]].
  - split; [done|by intros [? _]].
Qed.

Lemma name_created s x k par m :
  name (created s x k par) m = if decide (m = length (heap s)) then x else name s m.
Proof. unfold created. by rewrite name_adopted, name_allocated. Qed.

Lemma parent_created s x k par m :
  parent (created s x k par) m =
  if decide (m = length (heap s)) then Some par else parent s m.
Proof.
  unfold created. rewrite parent_adopted by (apply valid_allocated; by right).
  rewrite parent_allocated.
  destruct (decide (length (heap s) = m)) as [<-|]; destruct (decide _); done.
Qed.

Lemma members_created s x k par d :
  linked s = true → is_Node s par = true → kind_members k = [] →
  members (created s x k par) d =
  if decide (par = d) then (members s par ++ [length (heap s)])%list else members s d.
Proof.
  intros Hl Hpar Hk. pose proof (is_Node_valid _ _ Hpar) as Hv.
  assert (Hm : ∀ d', members (allocated s (mkObj x None [] k)) d' = members s d').
  { intros d'. rewrite members_allocated. destruct (decide _) as [->|]; [|done].
    simpl. rewrite Hk. symmetry. by apply members_out_of_range, lookup_ge_None_2. }
  unfold created. rewrite members_adopted.
  - rewrite !Hm. done.
  - by rewrite is_Node_allocated.
  - rewrite Hm. by intros ?%(members_valid _ _ _ Hl)%valid_ne_new.
Qed.

Lemma is_Node_created s x k par m :
  is_Node s par = true →
  is_Node (created s x k par) m =
  if decide (m = length (heap s)) then
    match k with Node _ => true | LeafNode _ _ => false end
  else is_Node s m.
Proof.
  intros Hpar. pose proof (is_Node_valid _ _ Hpar) as Hv.
  unfold created. rewrite is_Node_adopted by (by rewrite is_Node_allocated).
  unfold is_Node. rewrite kind_allocated. by destruct (decide _).
Qed.

Lemma kind_created_new s x k par :
  is_Node s par = true → kind (created s x k par) (length (heap s)) = k.
Proof.
  intros Hpar. pose proof (valid_ne_new _ _ (is_Node_valid _ _ Hpar)) as Hne.
  unfold created, adopted.
  rewrite kind_with_parent, kind_set_members
    by (apply valid_allocated; left; by apply is_Node_valid).
  destruct (decide _); [done|]. rewrite kind_allocated. by destruct (decide _).
Qed.

Lemma wf_created s x k par :
  wf s = true → valid_name x = true → kind_members k = [] →
  is_Node s par = true → NodeSet_contains s (members s par) x = false →
  wf (created s x k par) = true.
Proof.
  intros Hwf Hx Hk Hpar Hfree.
  pose proof Hwf as (Hl & _ & _ & _ & Hroot & _)%wf_spec.
  set (o := mkObj x None [] k).
  assert (Hm : ∀ d, members (allocated s o) d = members s d).
  { intros d. rewrite members_allocated. destruct (decide _) as [->|]; [|done].
    simpl. rewrite Hk. symmetry. by apply members_out_of_range, lookup_ge_None_2. }
  unfold created. apply wf_adopted.
  - by apply wf_allocated.
  - apply valid_allocated. by right.
  - intros d. rewrite Hm. by intros ?%(members_valid _ _ _ Hl)%valid_ne_new.
  - change (root (allocated s o)) with (root s).
    intros E. by apply (valid_ne_new _ _ (name_root_valid _ Hroot)).
  - by rewrite is_Node_allocated by (by apply is_Node_valid).
  - rewrite Hm, name_allocated. destruct (decide _); [|done]. simpl.
    rewrite <- Hfree. apply contains_ext. intros m Hm'. rewrite name_allocated.
    destruct (decide _) as [->|]; [|done].
    by apply (members_valid _ _ _ Hl), valid_ne_new in Hm'.
Qed.

Lemma grows_allocated s o : wf s = true → grows s (allocated s o).
Proof.
  intros (Hl & _ & _ & _ & Hroot & _)%wf_spec.
  split; [done|]. split; [done|]. split; [|split; [|split]].
  - rewrite name_allocated. destruct (decide _) as [E|]; [|done].
    by apply (valid_ne_new _ _ (name_root_valid _ Hroot)) in E.
  - intros m Hm. by rewrite is_Node_allocated by (by apply is_Node_valid).
  - intros m Hm. split; [apply valid_allocated; by left|].
    rewrite parent_allocated. destruct (decide _) as [E|]; [|done].
    by apply (valid_ne_new _ _ Hm) in E.
  - intros d x c [Hd Hf]%get_child_find. apply get_child_find.
    rewrite is_Node_allocated by (by apply is_Node_valid). split; [done|].
    rewrite members_allocated.
    destruct (decide _) as [E|]; [by apply (valid_ne_new _ _ (is_Node_valid _ _ Hd)) in E|].
    rewrite <- Hf. apply find_ext_in. intros m Hm. unfold has_name.
    rewrite name_allocated. destruct (decide _) as [->|]; [|done].
    by apply (members_valid _ _ _ Hl), valid_ne_new in Hm.
Qed.

Lemma grows_created s x k par :
  wf s = true → kind_members k = [] → is_Node s par = true →
  grows s (created s x k par).
Proof.
  intros Hwf Hk Hpar. pose proof Hwf as (Hl & _ & _ & _ & Hroot & _)%wf_spec.
  split; [done|]. split; [done|]. split; [|split; [|split]].
  - rewrite name_created. destruct (decide _) as [E|]; [|done].
    by apply (valid_ne_new _ _ (name_root_valid _ Hroot)) in E.
  - intros m Hm. rewrite is_Node_created by done.
    destruct (decide _) as [E|]; [|done].
    by apply (valid_ne_new _ _ (is_Node_valid _ _ Hm)) in E.
  - intros m Hm. split.
    + unfold created. apply lookup_lt_is_Some. rewrite length_adopted.
      apply lookup_lt_is_Some, valid_allocated. by left.
    + rewrite parent_created. destruct (decide _) as [E|]; [|done].
      by apply (valid_ne_new _ _ Hm) in E.
  - intros d y c [Hd Hf]%get_child_find. apply get_child_find.
    rewrite is_Node_created by done.
    destruct (decide _) as [E|]; [by apply (valid_ne_new _ _ (is_Node_valid _ _ Hd)) in E|].
    split; [done|]. rewrite members_created by done.
    assert (List.find (has_name (created s x k par) y) (members s d) = Some c) as Hf'.
    { rewrite <- Hf. apply find_ext_in. intros m Hm. unfold has_name.
      rewrite name_created. destruct (decide _) as [->|]; [|done].
      by apply (members_valid _ _ _ Hl), valid_ne_new in Hm. }
    destruct (decide (par = d)) as [->|]; [by apply find_app_l|done].
Qed.

Lemma find_app_None {A} (f : A → bool) l1 l2 :
  List.find f l1 = None → List.find f (l1 ++ l2) = List.find f l2.
Proof.
  induction l1 as [|y l1 IH]; simpl; [done|]. destruct (f y); [done|apply IH].
Qed.

Lemma contains_find_None s ms x :
  NodeSet_contains s ms x = false → List.find (has_name s x) ms = None.
Proof.
  unfold NodeSet_contains. induction ms as [|m ms IH]; simpl; [done|].
  intros [-> H]%orb_false_iff. by apply IH.
Qed.

Lemma get_child_created_new s x k par :
  wf s = true → kind_members k = [] → is_Node s par = true →
  NodeSet_contains s (members s par) x = false →
  get_child (created s x k par) par x = Ok (length (heap s)).
Proof.
  intros Hwf Hk Hpar Hfree. pose proof Hwf as (Hl & _)%wf_spec.
  apply get_child_find. rewrite is_Node_created by done.
  destruct (decide _) as [E|]; [by apply (valid_ne_new _ _ (is_Node_valid _ _ Hpar)) in E|].
  split; [done|]. rewrite members_created by done.
  destruct (decide (par = par)); [|done].
  rewrite find_app_None.
  - simpl. unfold has_name. rewrite name_created. destruct (decide _); [|done].
    by rewrite String.eqb_refl.
  - rewrite <- (contains_find_None _ _ _ Hfree). apply find_ext_in.
    intros m Hm. unfold has_name. rewrite name_created.
    destruct (decide _) as [->|]; [|done].
    by apply (members_valid _ _ _ Hl), valid_ne_new in Hm.
Qed.

(** the constructors, outcome by outcome *)
Lemma construct_outcome x k par s :
  linked s = true → is_Node s par = true →
  bind (alloc (mkObj x None [] k))
       (fun self => bind (set_parent self (Some par)) (fun _ => ret self)) s =
  if NodeSet_contains s (members s par) x
  then (Raise (DuplicateNodeNameError x), allocated s (mkObj x None [] k))
  else (Ok (length (heap s)), created s x k par).
Proof.
  intros Hl Hpar. pose proof (is_Node_valid _ _ Hpar) as Hv.
  set (o := mkObj x None [] k).
  unfold bind at 1. unfold alloc. fold (allocated s o).
  unfold bind at 1. rewrite set_parent_eq, parent_allocated.
  destruct (decide _); [|done]. simpl.
  rewrite NodeSet_add_eq, kind_allocated.
  destruct (decide _) as [E|]; [by apply valid_ne_new in Hv|].
  rewrite (is_Node_members _ _ Hpar), name_allocated.
  destruct (decide _); [|done]. simpl.
  assert (NodeSet_contains (allocated s o) (members s par) x
          = NodeSet_contains s (members s par) x) as ->.
  { apply contains_ext. intros m Hm. rewrite name_allocated.
    destruct (decide _) as [->|]; [|done].
    by apply (members_valid _ _ _ Hl), valid_ne_new in Hm. }
  destruct (NodeSet_contains s (members s par) x); [done|].
  unfold ret, created, adopted. rewrite members_allocated.
  destruct (decide _) as [E|]; [by apply valid_ne_new in Hv|done].
Qed.

Lemma Node_init_outcome x par s :
  linked s = true → is_Node s par = true →
  Node_init x (Some par) s =
  if NodeSet_contains s (members s par) x
  then (Raise (DuplicateNodeNameError x), allocated s (mkObj x None [] (Node [])))
  else (Ok (length (heap s)), created s x (Node []) par).
Proof. apply construct_outcome. Qed.

Lemma LeafNode_init_outcome x par s :
  linked s = true → is_Node s par = true →
  LeafNode_init x (Some par) s =
  if NodeSet_contains s (members s par) x
  then (Raise (DuplicateNodeNameError x), allocated s (mkObj x None [] (LeafNode PyNone [])))
  else (Ok (length (heap s)), created s x (LeafNode PyNone []) par).
Proof. apply construct_outcome. Qed.

(** * [touch] and [mkdir] *)

Lemma touch_outcome s p path par :
  linked s = true →
  resolve_path s p = Ok path → pathlib.name path ≠ "" →
  get_node s (pathlib.parent path) = Ok par → is_Node s par = true →
  touch p s =
  if NodeSet_contains s (members s par) (pathlib.name path)
  then (Raise InvalidPathError,
        allocated s (mkObj (pathlib.name path) None [] (LeafNode PyNone [])))
  else (Ok tt, created s (pathlib.name path) (LeafNode PyNone []) par).
Proof.
  intros Hl Hp Hn%String.eqb_neq Hpar Hd.
  unfold touch, resolved, bind at 1, lift at 1. rewrite Hp, Hn.
  unfold bind at 1, try at 1, lift. rewrite Hpar.
  unfold bind at 1, gets. rewrite Hd. simpl.
  unfold bind at 1, try. rewrite LeafNode_init_outcome by done.
  by destruct (NodeSet_contains _ _ _).
Qed.

Lemma mkdir_outcome s p path par :
  linked s = true →
  resolve_path s p = Ok path → pathlib.name path ≠ "" →
  get_node s (pathlib.parent path) = Ok par → is_Node s par = true →
  mkdir p false s =
  if NodeSet_contains s (members s par) (pathlib.name path)
  then (Raise InvalidPathError,
        allocated s (mkObj (pathlib.name path) None [] (Node [])))
  else (Ok tt, created s (pathlib.name path) (Node []) par).
Proof.
  intros Hl Hp Hn%String.eqb_neq Hpar Hd.
  unfold mkdir, resolved, bind at 1, lift at 1. rewrite Hp, Hn. simpl.
  unfold bind at 1, try at 1, lift. rewrite Hpar.
  unfold bind at 1, gets. rewrite Hd. simpl.
  unfold bind at 1, try. rewrite Node_init_outcome by done.
  by destruct (NodeSet_contains _ _ _).
Qed.

Lemma contains_of_get_child s par x :
  is_Node s par = true →
  NodeSet_contains s (members s par) x =
  match get_child s par x with Ok _ => true | _ => false end.
Proof.
  intros Hd. rewrite get_child_eq, (is_Node_members _ _ Hd).
  destruct (List.find _ _) as [m|] eqn:Hf.
  - apply find_has_name_Some in Hf as [Hin Hn].
    destruct (NodeSet_contains _ _ _) eqn:Hc; [done|].
    by apply (proj1 (contains_false _ _ _) Hc) in Hin.
  - by apply find_has_name_None.
Qed.

(** a new node under an existing directory *)
Lemma created_found s path par k :
  wf s = true → kind_members k = [] →
  pathlib.name path ≠ "" →
  get_node s (pathlib.parent path) = Ok par → is_Node s par = true →
  (∀ n, get_node s path ≠ Ok n) →
  let s' := created s (pathlib.name path) k par in
  NodeSet_contains s (members s par) (pathlib.name path) = false ∧
  get_node s' path = Ok (length (heap s)) ∧
  kind s' (length (heap s)) = k ∧
  (∀ q n, get_node s q = Ok n → get_node s' q = Ok n).
Proof.
  intros Hwf Hk Hn Hpar Hd Hnew s'.
  assert (Hfree : NodeSet_contains s (members s par) (pathlib.name path) = false).
  { rewrite contains_of_get_child by done.
    rewrite <- (get_node_parent _ _ _ Hn Hpar).
    destruct (get_node s path) as [a| |]; [exfalso; by apply (Hnew a)|done..]. }
  pose proof (grows_created s (pathlib.name path) k par Hwf Hk Hd) as Hg.
  split; [done|]. split; [|split].
  - rewrite (get_node_parent s' path par Hn) by (by apply (grows_get_node s)).
    by apply get_child_created_new.
  - by apply kind_created_new.
  - intros q n. by apply grows_get_node.
Qed.

(** X5.  On a well-formed tree, [touch] and [mkdir] of a path that names
    nothing yet, inside an existing directory, succeed: the new leaf (with
    no data and no callbacks) or the new empty directory is found under
    that path, the tree is still well-formed, and every path that led to a
    node before leads to the same node. *)
Theorem touch_mkdir_create s p path par :
  wf s = true →
  resolve_path s p = Ok path → pathlib.name path ≠ "" →
  get_node s (pathlib.parent path) = Ok par → is_Node s par = true →
  (∀ n, get_node s path ≠ Ok n) →
  (∃ s', touch p s = (Ok tt, s') ∧ wf s' = true ∧
         get_node s' path = Ok (length (heap s)) ∧
         kind s' (length (heap s)) = LeafNode PyNone [] ∧
         ∀ q n, get_node s q = Ok n → get_node s' q = Ok n) ∧
  (∃ s', mkdir p false s = (Ok tt, s') ∧ wf s' = true ∧
         get_node s' path = Ok (length (heap s)) ∧
         kind s' (length (heap s)) = Node [] ∧
         ∀ q n, get_node s q = Ok n → get_node s' q = Ok n).
Proof.
  intros Hwf Hp Hn Hpar Hd Hnew. pose proof Hwf as (Hl & _)%wf_spec.
  pose proof (valid_path_name _ (resolve_path_valid _ _ _ Hp) Hn) as Hx.
  split.
  - destruct (created_found s path par (LeafNode PyNone []) Hwf eq_refl Hn Hpar Hd Hnew)
      as (Hfree & Hfound & Hk & Hold).
    eexists. rewrite (touch_outcome _ _ _ _ Hl Hp Hn Hpar Hd), Hfree.
    split; [done|]. split; [by apply wf_created|]. done.
  - destruct (created_found s path par (Node []) Hwf eq_refl Hn Hpar Hd Hnew)
      as (Hfree & Hfound & Hk & Hold).
    eexists. rewrite (mkdir_outcome _ _ _ _ Hl Hp Hn Hpar Hd), Hfree.
    split; [done|]. split; [by apply wf_created|]. done.
Qed.

Lemma touch_mkdir_create_witness :
  (∃ s', touch "/x" init = (Ok tt, s') ∧ wf s' = true ∧
         get_node s' (pathlib.of_str "/x") = Ok (length (heap init)) ∧
         kind s' (length (heap init)) = LeafNode PyNone [] ∧
         ∀ q n, get_node init q = Ok n → get_node s' q = Ok n) ∧
  (∃ s', mkdir "/x" false init = (Ok tt, s') ∧ wf s' = true ∧
         get_node s' (pathlib.of_str "/x") = Ok (length (heap init)) ∧
         kind s' (length (heap init)) = Node [] ∧
         ∀ q n, get_node init q = Ok n → get_node s' q = Ok n).
Proof.
  apply (touch_mkdir_create init "/x" (pathlib.of_str "/x") 0);
    try evaluate; [by vm_compute|]. intros n. by vm_compute.
Defined.

Lemma get_node_split s path n :
  get_node s path = Ok n → pathlib.name path ≠ "" → pathlib.root path ≠ "" →
  ∃ par, get_node s (pathlib.parent path) = Ok par ∧
         get_child s par (pathlib.name path) = Ok n.
Proof.
  intros Hn Hname Hroot%String.eqb_neq.
  destruct (path_name_snoc _ Hname) as (l & Ht & Hparent).
  revert Hn. rewrite Hparent. unfold get_node, pathlib.parts. simpl. rewrite Ht, Hroot.
  destruct (if pathlib.root path =? name s (root s) then _ else _) as [n0| |];
    simpl; [|done..].
  rewrite walk_app. destruct (walk s n0 l) as [par| |]; simpl; [|done..].
  rewrite obind_Ok_r. eauto.
Qed.

(** X6.  [touch] and [mkdir] of a path that already names a node raise
    [InvalidPathError]; the tree stays well-formed and every path leads
    where it led before (nothing is overwritten). *)
Theorem touch_mkdir_existing s p path n :
  wf s = true →
  resolve_path s p = Ok path → pathlib.name path ≠ "" → pathlib.root path ≠ "" →
  get_node s path = Ok n →
  (∃ s', touch p s = (Raise InvalidPathError, s') ∧ wf s' = true ∧
         ∀ q n', get_node s q = Ok n' → get_node s' q = Ok n') ∧
  (∃ s', mkdir p false s = (Raise InvalidPathError, s') ∧ wf s' = true ∧
         ∀ q n', get_node s q = Ok n' → get_node s' q = Ok n').
Proof.
  intros Hwf Hp Hname Hroot Hn. pose proof Hwf as (Hl & _)%wf_spec.
  destruct (get_node_split _ _ _ Hn Hname Hroot) as (par & Hpar & Hc).
  assert (Hd : is_Node s par = true) by (by apply get_child_find in Hc as [? _]).
  assert (Hdup : NodeSet_contains s (members s par) (pathlib.name path) = true).
  { by rewrite contains_of_get_child, Hc. }
  pose proof (valid_path_name _ (resolve_path_valid _ _ _ Hp) Hname) as Hx.
  split; eexists.
  - rewrite (touch_outcome _ _ _ _ Hl Hp Hname Hpar Hd), Hdup.
    split; [done|]. split; [by apply wf_allocated|].
    intros q n'. by apply grows_get_node, grows_allocated.
  - rewrite (mkdir_outcome _ _ _ _ Hl Hp Hname Hpar Hd), Hdup.
    split; [done|]. split; [by apply wf_allocated|].
    intros q n'. by apply grows_get_node, grows_allocated.
Qed.

Lemma touch_mkdir_existing_witness :
  (∃ s', touch "/x" one_leaf = (Raise InvalidPathError, s') ∧ wf s' = true ∧
         ∀ q n', get_node one_leaf q = Ok n' → get_node s' q = Ok n') ∧
  (∃ s', mkdir "/x" false one_leaf = (Raise InvalidPathError, s') ∧ wf s' = true ∧
         ∀ q n', get_node one_leaf q = Ok n' → get_node s' q = Ok n').
Proof.
  apply (touch_mkdir_existing one_leaf "/x" (pathlib.of_str "/x") 1);
    try evaluate; by vm_compute.
Defined.

Lemma is_prefix_cons {A} (x : A) l1 l2 : l1 `prefix_of` l2 → (x :: l1) `prefix_of` (x :: l2).
Proof. intros [k ->]. by exists k. Qed.

(** the loop of [mkdir] with [parents] *)
Lemma mkdir_parents_spec parts :
  ∀ node s,
    wf s = true → is_Node s node = true →
    Forall (fun x => valid_name x = true) parts →
    ∃ r s', mkdir_parents node parts s = (r, s') ∧ wf s' = true ∧ grows s s' ∧
      ((r = Ok tt ∧ ∃ d, walk s' node parts = Ok d ∧ is_Node s' d = true) ∨
       (r = Raise InvalidPathError ∧
        ∃ pre c, pre `prefix_of` parts ∧ walk s' node pre = Ok c ∧ is_Node s' c = false)).
Proof.
  induction parts as [|part rest IH]; intros node s Hwf Hd Hv.
  { exists (Ok tt), s. split; [done|]. split; [done|]. split; [apply grows_refl|].
    left. split; [done|]. by exists node. }
  inversion Hv as [|? ? Hpart Hrest]; subst.
  pose proof Hwf as (Hl & _)%wf_spec.
  simpl. unfold bind at 1, try, lift.
  destruct (get_child s node part) as [c|e|] eqn:Hc.
  - unfold bind at 1, gets. destruct (is_Node s c) eqn:Hdc; simpl.
    + destruct (IH c s Hwf Hdc Hrest) as (r & s' & -> & Hwf' & Hg & Hres).
      exists r, s'. split; [done|]. split; [done|]. split; [done|].
      pose proof Hg as (_ & _ & _ & _ & _ & Hgc).
      destruct Hres as [(-> & d & Hw & Hdd)|(-> & pre & c' & Hpre & Hw & Hdc')].
      * left. split; [done|]. exists d. by rewrite (Hgc _ _ _ Hc).
      * right. split; [done|]. exists (part :: pre), c'.
        split; [by apply is_prefix_cons|]. simpl. by rewrite (Hgc _ _ _ Hc).
    + exists (Raise InvalidPathError), s. split; [done|]. split; [done|].
      split; [apply grows_refl|]. right. split; [done|].
      exists [part], c. split; [by exists rest|]. simpl. by rewrite Hc.
  - rewrite get_child_eq, (is_Node_members _ _ Hd) in Hc.
    destruct (List.find _ _) eqn:Hf; [done|]. injection Hc as <-.
    apply find_has_name_None in Hf.
    rewrite (Node_init_outcome _ _ _ Hl Hd), Hf.
    set (s1 := created s part (Node []) node).
    assert (Hwf1 : wf s1 = true) by (by apply wf_created).
    assert (Hg1 : grows s s1) by (by apply grows_created).
    assert (Hnew : is_Node s1 (length (heap s)) = true).
    { unfold s1. rewrite is_Node_created by done. by destruct (decide _). }
    unfold bind at 1, gets. rewrite Hnew. simpl.
    destruct (IH _ s1 Hwf1 Hnew Hrest) as (r & s' & -> & Hwf' & Hg & Hres).
    exists r, s'. split; [done|]. split; [done|].
    split; [by eapply grows_trans|].
    pose proof Hg as (_ & _ & _ & _ & _ & Hgc).
    pose proof (get_child_created_new s part (Node []) node Hwf eq_refl Hd Hf) as Hc1.
    destruct Hres as [(-> & d & Hw & Hdd)|(-> & pre & c' & Hpre & Hw & Hdc')].
    + left. split; [done|]. exists d. by rewrite (Hgc _ _ _ Hc1).
    + right. split; [done|]. exists (part :: pre), c'.
      split; [by apply is_prefix_cons|]. simpl. by rewrite (Hgc _ _ _ Hc1).
  - rewrite get_child_eq, (is_Node_members _ _ Hd) in Hc. by destruct (List.find _ _).
Qed.

(** X7.  [mkdir] with [parents=True] on a well-formed tree, for an absolute
    path: it returns or raises [InvalidPathError], nothing else; when it
    returns, the path leads to a directory; it raises only where a prefix
    of the path leads to a leaf.  Either way the tree is well-formed and
    every path that led to a node leads to the same node (the directories
    made before the failure stay). *)
Theorem mkdir_parents_creates s p path :
  wf s = true →
  resolve_path s p = Ok path → pathlib.root path = "/" → pathlib.name path ≠ "" →
  ∃ r s', mkdir p true s = (r, s') ∧ wf s' = true ∧
    (∀ q n, get_node s q = Ok n → get_node s' q = Ok n) ∧
    ((r = Ok tt ∧ ∃ d, get_node s' path = Ok d ∧ is_Node s' d = true) ∨
     (r = Raise InvalidPathError ∧
      ∃ pre c, pre `prefix_of` pathlib.tail path ∧
               get_node s' (pathlib.mkPath "/" pre) = Ok c ∧ is_Node s' c = false)).
Proof.
  intros Hwf Hp Hroot Hname%String.eqb_neq.
  pose proof Hwf as (_ & _ & _ & _ & Hrn & Hrd)%wf_spec.
  pose proof (resolve_path_valid _ _ _ Hp) as Hv.
  destruct (mkdir_parents_spec (pathlib.tail path) (root s) s Hwf Hrd Hv)
    as (r & s' & Hm & Hwf' & Hg & Hres).
  exists r, s'.
  assert (Hrn' : name s' (root s') = "/").
  { destruct Hg as (-> & _ & -> & _). done. }
  split.
  - unfold mkdir, resolved, bind at 1, lift at 1. rewrite Hp, Hname. simpl.
    unfold bind at 1, try, lift. rewrite Hroot, of_str_slash, get_node_absolute by done.
    simpl. unfold bind at 1, gets. rewrite Hrd. simpl.
    unfold pathlib.parts. rewrite Hroot. simpl. exact Hm.
  - split; [done|]. split; [intros q n; by apply grows_get_node|].
    destruct Hg as (Hr & _).
    destruct Hres as [(-> & d & Hw & Hd)|(-> & pre & c & Hpre & Hw & Hc)].
    + left. split; [done|]. exists d. split; [|done].
      destruct path as [r t]. simpl in *. subst r.
      rewrite get_node_absolute by done. by rewrite Hr.
    + right. split; [done|]. exists pre, c. split; [done|]. split; [|done].
      rewrite get_node_absolute by done. by rewrite Hr.
Qed.

Lemma mkdir_parents_creates_witness :
  ∃ r s', mkdir "/x/y" true one_leaf = (r, s') ∧ wf s' = true ∧
    (∀ q n, get_node one_leaf q = Ok n → get_node s' q = Ok n) ∧
    ((r = Ok tt ∧ ∃ d, get_node s' (pathlib.of_str "/x/y") = Ok d ∧ is_Node s' d = true) ∨
     (r = Raise InvalidPathError ∧
      ∃ pre c, pre `prefix_of` pathlib.tail (pathlib.of_str "/x/y") ∧
               get_node s' (pathlib.mkPath "/" pre) = Ok c ∧ is_Node s' c = false)).
Proof.
  apply (mkdir_parents_creates one_leaf "/x/y" (pathlib.of_str "/x/y"));
    try evaluate; by vm_compute.
Defined.

(** [wf] reads the tree only *)
Lemma members_children s s' m : children s' m = children s m → members s' m = members s m.
Proof. unfold children, members. destruct (kind s' m), (kind s m); congruence. Qed.
Lemma is_Node_children s s' m : children s' m = children s m → is_Node s' m = is_Node s m.
Proof. unfold children, is_Node. by destruct (kind s' m), (kind s m). Qed.

Lemma wf_transfer s s' :
  length (heap s') = length (heap s) → root s' = root s →
  (∀ m, name s' m = name s m ∧ parent s' m = parent s m ∧ children s' m = children s m) →
  wf s = true → wf s' = true.
Proof.
  intros Hlen Hroot H. rewrite !wf_spec. intros (Hl & Hr & Hu & Hv & Hrn & Hrd).
  assert (Hmem : ∀ m, members s' m = members s m).
  { intros m. apply members_children, H. }
  repeat split.
  - apply linked_intro. intros d m. rewrite Hmem. intros Hm.
    destruct (H m) as (_ & -> & _). by apply linked_spec.
  - unfold root_top. rewrite Hroot. destruct (H (root s)) as (_ & -> & _).
    by rewrite (root_top_spec _ Hr).
  - apply unique_names_intro. intros d. unfold names_unique. rewrite Hmem.
    rewrite (names_ext s) by (intros; apply H). by apply unique_names_all.
  - apply names_valid_intro. intros m Hm Hne. destruct (H m) as (-> & _).
    apply names_valid_spec; [done| |congruence].
    revert Hm. rewrite !lookup_lt_is_Some. lia.
  - rewrite Hroot. by destruct (H (root s)) as (-> & _).
  - rewrite Hroot. by rewrite (is_Node_children s s') by apply H.
Qed.

Lemma wf_same_tree s s' : same_tree s s' → wf s = true → wf s' = true.
Proof. intros (Hl & Hr & _ & H). by apply wf_transfer. Qed.

Lemma same_tree_cwd s c : wf s = true → wf (mkState (heap s) (root s) c (calls s)) = true.
Proof. apply wf_transfer; done. Qed.

(** * The calls that leave the tree alone *)

Lemma exec_resolved {A} (f : Path → M A) p s :
  exec (resolved f p) s =
  match resolve_path s p with Ok path => exec (f path) s | _ => s end.
Proof.
  unfold exec, resolved, bind, lift. destruct (resolve_path s p); [|done..].
  by destruct (f a s) as [[?|?|] ?].
Qed.

Lemma exec_bind {A B} (m : M A) (k : A → M B) s :
  exec (bind m k) s =
  match m s with (Ok a, s') => exec (k a) s' | (_, s') => s' end.
Proof. unfold exec, bind. by destruct (m s) as [[?|?|] ?]. Qed.

(** looking a node up, whatever the handler: the state stays *)
Lemma find_node (h : exn → option (M nat)) s path :
  (∀ e, h e = None ∨ ∃ e', h e = Some (raise e')) →
  ∃ r, try (lift (fun s => get_node s path)) h s = (r, s) ∧
       (∀ n, r = Ok n → get_node s path = Ok n).
Proof.
  intros Hh. unfold try, lift. destruct (get_node s path) as [n|e|].
  - exists (Ok n). split; [done|]. by intros ? [= <-].
  - destruct (Hh e) as [->|(e' & ->)]; eexists; (split; [done|]); by intros.
  - exists Hang. split; [done|]. by intros.
Qed.

Lemma nde_to_invalid_shape e :
  @nde_to_invalid nat e = None ∨ ∃ e', @nde_to_invalid nat e = Some (raise e').
Proof. destruct e; simpl; eauto. Qed.
Lemma reraise_invalid_shape e :
  @reraise_invalid nat e = None ∨ ∃ e', @reraise_invalid nat e = Some (raise e').
Proof. destruct e; simpl; eauto. Qed.

Lemma same_tree_execute_callbacks s n : same_tree s (exec (execute_callbacks n) s).
Proof.
  unfold exec, execute_callbacks, bind, lift, modify.
  destruct (get_path s n); simpl; [apply same_tree_calls|apply same_tree_refl..].
Qed.

Lemma same_tree_with_meta s n m : same_tree s (update n (with_meta m) s).
Proof.
  apply same_tree_leaf_update. intros o. simpl. destruct (_kind o); eauto.
Qed.

Lemma same_tree_unwatch_each n cbs : ∀ s, same_tree s (exec (unwatch_each n cbs) s).
Proof.
  induction cbs as [|c cbs IH]; intros s; simpl; [apply same_tree_refl|].
  rewrite exec_bind. unfold gets.
  destruct (existsb _ _); [|apply same_tree_refl].
  rewrite exec_bind. unfold modify.
  eapply same_tree_trans; [apply same_tree_store_callbacks|apply IH].
Qed.

(** the calls that write to one node leave the tree as it is *)
Lemma same_tree_writes s p :
  (∀ d, same_tree s (exec (set_data p d) s)) ∧
  same_tree s (exec (clear_data p) s) ∧
  (∀ k v, same_tree s (exec (set_metadata p k v) s)) ∧
  (∀ k, same_tree s (exec (del_metadata p k) s)) ∧
  (∀ c, same_tree s (exec (watch_file p c) s)) ∧
  (∀ cs, same_tree s (exec (unwatch_file p cs) s)).
Proof.
  assert (Hfound : ∀ (A : Type) (k : nat → M A) path,
    (∀ n, same_tree s (exec (k n) s)) →
    same_tree s (exec (bind (try (lift (fun s => get_node s path)) reraise_invalid) k) s)).
  { intros A k path Hk. rewrite exec_bind.
    destruct (find_node reraise_invalid s path reraise_invalid_shape) as (r & -> & _).
    destruct r; [apply Hk|apply same_tree_refl..]. }
  assert (Hleaf : ∀ (A : Type) (k : M A) n,
    same_tree s (exec k s) →
    same_tree s (exec (bind (gets (fun s => is_LeafNode s n))
                        (fun isleaf => if negb isleaf then raise InvalidPathError else k)) s)).
  { intros A k n Hk. rewrite exec_bind. unfold gets.
    destruct (is_LeafNode s n); simpl; [done|apply same_tree_refl]. }
  assert (Hres : ∀ (A : Type) (f : Path → M A),
    (∀ path, same_tree s (exec (f path) s)) → same_tree s (exec (resolved f p) s)).
  { intros A f Hf. rewrite exec_resolved.
    destruct (resolve_path s p); [apply Hf|apply same_tree_refl..]. }
  split; [|split; [|split; [|split; [|split]]]].
  - intros d. apply Hres. intros path. apply Hfound. intros n. apply Hleaf.
    unfold LeafNode_set_data. rewrite exec_bind. unfold modify.
    eapply same_tree_trans; [apply same_tree_store_data|apply same_tree_execute_callbacks].
  - apply Hres. intros path. apply Hfound. intros n. apply Hleaf.
    unfold LeafNode_clear_data. rewrite exec_bind. unfold modify.
    eapply same_tree_trans; [apply same_tree_store_data|apply same_tree_execute_callbacks].
  - intros k v. apply Hres. intros path. apply Hfound. intros n.
    unfold Node_set_metadata, exec, modify. simpl. apply same_tree_with_meta.
  - intros k. apply Hres. intros path. apply Hfound. intros n.
    unfold exec, try, Node_del_metadata, bind, lift, modify, ret.
    destruct (Node_get_metadata s n k) as [v|e|]; simpl;
      [apply same_tree_with_meta| |apply same_tree_refl].
    destruct e; simpl; apply same_tree_refl.
  - intros c. apply Hres. intros path. apply Hfound. intros n. apply Hleaf.
    unfold watch, exec, modify. simpl. apply same_tree_store_callbacks.
  - intros cs. apply Hres. intros path. apply Hfound. intros n. apply Hleaf.
    unfold unwatch. destruct cs as [|c cs].
    + unfold exec, modify. simpl. apply same_tree_store_callbacks.
    + apply same_tree_unwatch_each.
Qed.

(** the calls that only read *)
Lemma reads_keep_state s p :
  exec (ls p) s = s ∧ exec (get_data p) s = s ∧ ∀ k, exec (get_metadata p k) s = s.
Proof.
  repeat split; intros; unfold ls, get_data, get_metadata; rewrite exec_resolved;
    (destruct (resolve_path s p) as [path| |]; [|done..]); rewrite exec_bind.
  - destruct (find_node reraise_invalid s path reraise_invalid_shape) as (r & -> & _).
    destruct r; [|done..]. rewrite exec_bind. unfold gets.
    by destruct (is_Node s a).
  - destruct (find_node nde_to_invalid s path nde_to_invalid_shape) as (r & -> & _).
    destruct r; [|done..]. rewrite exec_bind. unfold gets.
    by destruct (is_LeafNode s a).
  - destruct (find_node reraise_invalid s path reraise_invalid_shape) as (r & -> & _).
    destruct r; [|done..]. unfold exec, try, lift.
    destruct (Node_get_metadata s a k) as [v|e|]; [done| |done]. by destruct e.
Qed.

(** * The calls keep the tree well-formed *)

Lemma length_detached s q n : length (heap (detached s q n)) = length (heap s).
Proof. unfold detached, set_members. by rewrite !length_heap_update. Qed.

Lemma is_Node_detached s q n m :
  n ∈ members s q → is_Node (detached s q n) m = is_Node s m.
Proof.
  intros Hin. pose proof (members_elem_Node _ _ _ Hin) as Hk.
  unfold detached, is_Node. rewrite kind_with_parent, kind_set_members
    by (by eapply kind_Node_valid).
  destruct (decide (q = m)) as [<-|]; [|done]. by rewrite Hk.
Qed.

Lemma wf_detached s q n :
  wf s = true → parent s n = Some q → n ∈ members s q → wf (detached s q n) = true.
Proof.
  intros Hwf Hp Hin. pose proof Hwf as (Hl & Hr & Hu & Hv & Hrn & Hrd)%wf_spec.
  pose proof (parent_Some_valid _ _ _ Hp) as Hvn.
  pose proof (kind_Node_valid _ _ _ (members_elem_Node _ _ _ Hin)) as Hvq.
  apply wf_spec. repeat split.
  - apply linked_intro. intros d m. by apply linked_detached.
  - unfold root_top. change (root (detached s q n)) with (root s).
    rewrite parent_detached by done. destruct (decide _); [done|].
    by rewrite (root_top_spec _ Hr).
  - apply unique_names_intro. intros d. unfold names_unique.
    rewrite members_detached by done.
    rewrite (names_ext s) by (intros; apply name_detached).
    destruct (decide (q = d)); [|by apply unique_names_all].
    apply distinct_filter. by apply (unique_names_all _ q).
  - apply names_valid_intro. intros m Hm Hne. rewrite name_detached.
    apply names_valid_spec; [done| |done].
    revert Hm. rewrite !lookup_lt_is_Some. by rewrite length_detached.
  - change (root (detached s q n)) with (root s). by rewrite name_detached.
  - change (root (detached s q n)) with (root s). by rewrite is_Node_detached.
Qed.

Lemma wf_rm s p recursive : wf s = true → wf (exec (rm p recursive) s) = true.
Proof.
  intros Hwf. pose proof Hwf as (Hl & Hr & _)%wf_spec.
  unfold exec. rewrite rm_eq.
  destruct (resolve_path s p) as [path| |]; [|done..].
  destruct (get_node s path) as [n|e|] eqn:Hn; [|by destruct e|done].
  destruct (is_Node s n && negb recursive); [done|].
  destruct (parent s n) as [par|] eqn:Hp; [|done].
  destruct (get_node_origin _ _ _ Hn) as [->|(q & y & Hq)].
  { rewrite (root_top_spec _ Hr) in Hp. done. }
  destruct (remove_child_member _ _ _ _ Hl Hq) as [Hpq Hrm].
  assert (par = q) as -> by congruence. rewrite Hrm. simpl.
  apply wf_detached; [done..|]. by apply get_child_Ok in Hq as (_ & ? & _).
Qed.

Lemma wf_cd s p : wf s = true → wf (exec (cd p) s) = true.
Proof.
  intros Hwf. unfold cd. rewrite exec_resolved.
  destruct (resolve_path s p) as [path| |]; [|done..]. rewrite exec_bind.
  destruct (find_node nde_to_invalid s path nde_to_invalid_shape) as (r & -> & _).
  destruct r as [n| |]; [|done..]. rewrite exec_bind. unfold gets.
  destruct (is_Node s n); simpl; [|done]. by apply same_tree_cwd.
Qed.

Lemma built_keeps s s' : wf s = true → built s s' → wf s' = true ∧ grows s s'.
Proof.
  intros Hwf [->|(x & k & par & Hx & Hk & Hd & [->|[Hc ->]])].
  - split; [done|apply grows_refl].
  - split; [by apply wf_allocated|by apply grows_allocated].
  - split; [by apply wf_created|by apply grows_created].
Qed.

Lemma touch_built s p : wf s = true → built s (exec (touch p) s).
Proof.
  intros Hwf. pose proof Hwf as (Hl & _)%wf_spec.
  destruct (resolve_path s p) as [path| |] eqn:Hp;
    [|left; unfold touch; by rewrite exec_resolved, Hp..].
  destruct (String.eqb_spec (pathlib.name path) "") as [Hn|Hn].
  { left. unfold touch. rewrite exec_resolved, Hp, Hn. done. }
  destruct (get_node s (pathlib.parent path)) as [par| |] eqn:Hpar.
  - destruct (is_Node s par) eqn:Hd.
    + right. exists (pathlib.name path), (LeafNode PyNone []), par.
      split; [by apply valid_path_name; [eapply resolve_path_valid|]|].
      split; [done|]. split; [done|].
      unfold exec. rewrite (touch_outcome _ _ _ _ Hl Hp Hn Hpar Hd).
      destruct (NodeSet_contains _ _ _) eqn:Hc; simpl; [by left|by right].
    + left. unfold touch. rewrite exec_resolved, Hp.
      apply String.eqb_neq in Hn. rewrite Hn. rewrite exec_bind.
      unfold try, lift. rewrite Hpar. rewrite exec_bind. unfold gets. by rewrite Hd.
  - left. unfold touch. rewrite exec_resolved, Hp.
    apply String.eqb_neq in Hn. rewrite Hn. rewrite exec_bind.
    unfold try, lift. rewrite Hpar. by destruct e.
  - left. unfold touch. rewrite exec_resolved, Hp.
    apply String.eqb_neq in Hn. rewrite Hn. rewrite exec_bind.
    unfold try, lift. by rewrite Hpar.
Qed.

Lemma mkdir_keeps s p parents :
  wf s = true → wf (exec (mkdir p parents) s) = true ∧ grows s (exec (mkdir p parents) s).
Proof.
  intros Hwf. pose proof Hwf as (Hl & _)%wf_spec.
  destruct (resolve_path s p) as [path| |] eqn:Hp;
    [|unfold mkdir; rewrite exec_resolved, Hp; split; [done|apply grows_refl]..].
  destruct (String.eqb_spec (pathlib.name path) "") as [Hn|Hn].
  { unfold mkdir. rewrite exec_resolved, Hp, Hn. split; [done|apply grows_refl]. }
  pose proof (resolve_path_valid _ _ _ Hp) as Hv.
  destruct parents.
  - unfold mkdir. rewrite exec_resolved, Hp.
    apply String.eqb_neq in Hn. rewrite Hn. simpl. rewrite exec_bind.
    destruct (find_node reraise_invalid s (pathlib.of_str (pathlib.root path))
                reraise_invalid_shape) as (r & -> & _).
    destruct r as [node| |]; [|split; [done|apply grows_refl]..].
    rewrite exec_bind. unfold gets.
    destruct (is_Node s node) eqn:Hd; simpl; [|split; [done|apply grows_refl]].
    destruct (mkdir_parents_spec (List.tl (pathlib.parts path)) node s Hwf Hd)
      as (r & s' & Hm & Hwf' & Hg & _).
    + unfold pathlib.parts. destruct (pathlib.root path =? ""); simpl; [|done].
      unfold valid_path in Hv. destruct (pathlib.tail path); [done|]. by inversion Hv.
    + unfold exec. by rewrite Hm.
  - apply built_keeps; [done|].
    destruct (get_node s (pathlib.parent path)) as [par| |] eqn:Hpar.
    + destruct (is_Node s par) eqn:Hd.
      * right. exists (pathlib.name path), (Node []), par.
        split; [by apply valid_path_name|]. split; [done|]. split; [done|].
        unfold exec. rewrite (mkdir_outcome _ _ _ _ Hl Hp Hn Hpar Hd).
        destruct (NodeSet_contains _ _ _) eqn:Hc; simpl; [by left|by right].
      * left. unfold mkdir. rewrite exec_resolved, Hp.
        apply String.eqb_neq in Hn. rewrite Hn. simpl. rewrite exec_bind.
        unfold try, lift. rewrite Hpar. rewrite exec_bind. unfold gets. by rewrite Hd.
    + left. unfold mkdir. rewrite exec_resolved, Hp.
      apply String.eqb_neq in Hn. rewrite Hn. simpl. rewrite exec_bind.
      unfold try, lift. rewrite Hpar. by destruct e.
    + left. unfold mkdir. rewrite exec_resolved, Hp.
      apply String.eqb_neq in Hn. rewrite Hn. simpl. rewrite exec_bind.
      unfold try, lift. by rewrite Hpar.
Qed.

Lemma touch_keeps s p :
  wf s = true → wf (exec (touch p) s) = true ∧ grows s (exec (touch p) s).
Proof. intros Hwf. by apply built_keeps, touch_built. Qed.

(** the working directory stays a directory *)
Lemma cwd_rm s p recursive :
  wf s = true → is_Node s (_cwd s) = true →
  is_Node (exec (rm p recursive) s) (_cwd (exec (rm p recursive) s)) = true.
Proof.
  intros Hwf Hc. pose proof Hwf as (Hl & Hr & _)%wf_spec.
  unfold exec. rewrite rm_eq.
  destruct (resolve_path s p) as [path| |]; [|done..].
  destruct (get_node s path) as [n|e|] eqn:Hn; [|by destruct e|done].
  destruct (is_Node s n && negb recursive); [done|].
  destruct (parent s n) as [par|] eqn:Hp; [|done].
  destruct (get_node_origin _ _ _ Hn) as [->|(q & y & Hq)].
  { rewrite (root_top_spec _ Hr) in Hp. done. }
  destruct (remove_child_member _ _ _ _ Hl Hq) as [Hpq Hrm].
  assert (par = q) as -> by congruence. rewrite Hrm. simpl.
  change (_cwd (detached s q n)) with (_cwd s).
  rewrite is_Node_detached; [done|]. by apply get_child_Ok in Hq as (_ & ? & _).
Qed.

Lemma cwd_cd s p :
  is_Node s (_cwd s) = true → is_Node (exec (cd p) s) (_cwd (exec (cd p) s)) = true.
Proof.
  intros Hc. unfold cd. rewrite exec_resolved.
  destruct (resolve_path s p) as [path| |]; [|done..]. rewrite exec_bind.
  destruct (find_node nde_to_invalid s path nde_to_invalid_shape) as (r & -> & _).
  destruct r as [n| |]; [|done..]. rewrite exec_bind. unfold gets.
  destruct (is_Node s n) eqn:Hd; simpl; done.
Qed.

Lemma cwd_same_tree s s' :
  same_tree s s' → is_Node s (_cwd s) = true → is_Node s' (_cwd s') = true.
Proof.
  intros (_ & _ & -> & H) Hc. by rewrite (is_Node_children s s') by apply H.
Qed.

Lemma cwd_grows s s' :
  grows s s' → is_Node s (_cwd s) = true → is_Node s' (_cwd s') = true.
Proof. intros (_ & -> & _ & H & _). apply H. Qed.

Lemma run_keeps c s :
  wf s = true → is_Node s (_cwd s) = true →
  wf (run c s) = true ∧ is_Node (run c s) (_cwd (run c s)) = true.
Proof.
  intros Hwf Hc.
  assert (Hwrite : ∀ s', same_tree s s' → wf s' = true ∧ is_Node s' (_cwd s') = true).
  { intros s' Hs. split; [by eapply wf_same_tree|by eapply cwd_same_tree]. }
  assert (Hgrow : ∀ s', wf s' = true ∧ grows s s' →
                        wf s' = true ∧ is_Node s' (_cwd s') = true).
  { intros s' [? Hg]. split; [done|by eapply cwd_grows]. }
  destruct c; simpl.
  - by apply Hgrow, mkdir_keeps.
  - by apply Hgrow, touch_keeps.
  - split; [by apply wf_cd|by apply cwd_cd].
  - split; [by apply wf_rm|by apply cwd_rm].
  - by rewrite (proj1 (reads_keep_state s p)).
  - by rewrite (proj1 (proj2 (reads_keep_state s p))).
  - apply Hwrite, (same_tree_writes s p).
  - apply Hwrite, (same_tree_writes s p).
  - by rewrite (proj2 (proj2 (reads_keep_state s p))).
  - apply Hwrite, (same_tree_writes s p).
  - apply Hwrite, (same_tree_writes s p).
  - apply Hwrite, (same_tree_writes s p).
  - apply Hwrite, (same_tree_writes s p).
Qed.

(** * [NodeSet.add] and the metadata dictionary *)

(** X1.  [NodeSet.add] on a set whose names are pairwise different: a node
    whose name is taken is refused with [DuplicateNodeNameError] and nothing
    changes; otherwise the node becomes the one new member, the names of the
    set are still pairwise different, and no other set, no name and no
    parent reference is touched. *)
Theorem NodeSet_add_keeps_names_unique s owner n :
  is_Node s owner = true → names_unique s owner = true →
  (NodeSet_contains s (members s owner) (name s n) = true →
   NodeSet_add owner n s = (Raise (DuplicateNodeNameError (name s n)), s)) ∧
  (NodeSet_contains s (members s owner) (name s n) = false →
   ∃ s', NodeSet_add owner n s = (Ok tt, s') ∧
         members s' owner = (members s owner ++ [n])%list ∧
         names_unique s' owner = true ∧
         (∀ d, d ≠ owner → members s' d = members s d) ∧
         ∀ m, name s' m = name s m ∧ parent s' m = parent s m).
Proof.
  intros Hd Hu. rewrite NodeSet_add_eq, (is_Node_members _ _ Hd).
  split; intros Hc; rewrite Hc; [done|].
  eexists. split; [done|].
  assert (Hm : members (set_members owner (set_add n (members s owner)) s) owner
               = (members s owner ++ [n])%list).
  { rewrite members_set_members by (by apply is_Node_valid).
    destruct (decide _); [|done]. unfold set_add.
    destruct (existsb _ _) eqn:He; [|done].
    apply existsb_exists in He as (y & Hy%list_elem_of_In & ->%Nat.eqb_eq).
    by apply (proj1 (contains_false _ _ _) Hc) in Hy. }
  split; [done|]. split; [|split].
  - unfold names_unique in *. rewrite Hm.
    rewrite (names_ext s) by (intros; apply name_set_members).
    rewrite map_app. simpl. by rewrite distinct_snoc, Hu, mem_names, Hc.
  - intros d Hne. rewrite members_set_members by (by apply is_Node_valid).
    by destruct (decide _).
  - intros m. by rewrite name_set_members, parent_set_members.
Qed.

Lemma NodeSet_add_keeps_names_unique_witness :
  (NodeSet_contains two_siblings (members two_siblings 1) (name two_siblings 2) = true →
   NodeSet_add 1 2 two_siblings =
     (Raise (DuplicateNodeNameError (name two_siblings 2)), two_siblings)) ∧
  (NodeSet_contains two_siblings (members two_siblings 1) (name two_siblings 2) = false →
   ∃ s', NodeSet_add 1 2 two_siblings = (Ok tt, s') ∧
         members s' 1 = (members two_siblings 1 ++ [2])%list ∧
         names_unique s' 1 = true ∧
         (∀ d, d ≠ 1%nat → members s' d = members two_siblings d) ∧
         ∀ m, name s' m = name two_siblings m ∧ parent s' m = parent two_siblings m).
Proof. apply (NodeSet_add_keeps_names_unique two_siblings 1 2); evaluate. Defined.

(** the metadata dictionary *)
Lemma value_eqb_eq a b : value_eqb a b = true ↔ a = b.
Proof.
  destruct a, b; simpl; rewrite ?Z.eqb_eq, ?String.eqb_eq; split; congruence.
Qed.

Lemma value_eqb_refl a : value_eqb a a = true.
Proof. by apply value_eqb_eq. Qed.

Lemma value_eqb_neq a b : a ≠ b → value_eqb a b = false.
Proof. intros H. destruct (value_eqb a b) eqn:E; [by apply value_eqb_eq in E|done]. Qed.

Lemma dict_get_del d k k' :
  dict_get (dict_del d k) k' = if value_eqb k' k then None else dict_get d k'.
Proof.
  unfold dict_get, dict_del. induction d as [|[a b] d IH]; simpl.
  - by destruct (value_eqb k' k).
  - destruct (value_eqb a k) eqn:Hak; simpl.
    + rewrite IH. destruct (value_eqb k' k) eqn:Hk; [done|].
      apply value_eqb_eq in Hak as ->.
      assert (value_eqb k k' = false) as ->; [|done].
      destruct (value_eqb k k') eqn:E; [|done].
      apply value_eqb_eq in E as ->. by rewrite value_eqb_refl in Hk.
    + destruct (value_eqb a k') eqn:Hak'; simpl.
      * apply value_eqb_eq in Hak' as ->. by rewrite Hak.
      * apply IH.
Qed.

Lemma value_eqb_sym a b : value_eqb a b = value_eqb b a.
Proof.
  destruct (value_eqb a b) eqn:E.
  - apply value_eqb_eq in E as ->. by rewrite value_eqb_refl.
  - destruct (value_eqb b a) eqn:E'; [|done].
    apply value_eqb_eq in E' as ->. by rewrite value_eqb_refl in E.
Qed.

Lemma dict_get_replace d k v k' :
  dict_get (map (fun kv => if value_eqb (fst kv) k then (k, v) else kv) d) k' =
  if value_eqb k' k then (fun _ => v) <$> dict_get d k else dict_get d k'.
Proof.
  unfold dict_get. destruct (value_eqb k' k) eqn:Hk.
  - apply value_eqb_eq in Hk as ->.
    induction d as [|[a b] d IH]; simpl; [done|].
    destruct (value_eqb a k) eqn:Hak; simpl.
    + by rewrite value_eqb_refl.
    + by rewrite Hak.
  - rewrite value_eqb_sym in Hk.
    induction d as [|[a b] d IH]; simpl; [done|].
    destruct (value_eqb a k) eqn:Hak; simpl.
    + apply value_eqb_eq in Hak as ->. by rewrite Hk.
    + by destruct (value_eqb a k').
Qed.

Lemma dict_get_app d k v k' :
  dict_get (d ++ [(k, v)]) k' =
  match dict_get d k' with
  | Some x => Some x
  | None => if value_eqb k' k then Some v else None
  end.
Proof.
  unfold dict_get. induction d as [|[a b] d IH]; simpl.
  - rewrite (value_eqb_sym k k'). by destruct (value_eqb k' k).
  - destruct (value_eqb a k'); simpl; [done|apply IH].
Qed.

Lemma dict_get_set d k v k' :
  dict_get (dict_set d k v) k' = if value_eqb k' k then Some v else dict_get d k'.
Proof.
  unfold dict_set. destruct (dict_get d k) as [v0|] eqn:Hg.
  - rewrite dict_get_replace, Hg. done.
  - rewrite dict_get_app. destruct (value_eqb k' k) eqn:Hk.
    + apply value_eqb_eq in Hk as ->. by rewrite Hg.
    + by destruct (dict_get d k').
Qed.

Lemma get_node_valid s path n :
  wf s = true → get_node s path = Ok n → is_Some (heap s !! n).
Proof.
  intros (Hl & _ & _ & _ & Hrn & _)%wf_spec [->|(q & y & Hq)]%get_node_origin.
  - by apply name_root_valid.
  - apply get_child_Ok in Hq as (_ & Hin & _). by eapply members_valid.
Qed.

Lemma meta_update s n m :
  is_Some (heap s !! n) → _meta (deref (update n (with_meta m) s) n) = m.
Proof.
  intros [o Ho]. rewrite deref_update. destruct (decide _); [|done]. by rewrite Ho.
Qed.

Section metadata.
Context (s0 : state) (p : string) (path : Path) (n : nat).
Hypothesis Hres : resolve_path s0 p = Ok path.
Hypothesis Hnode : get_node s0 path = Ok n.
Context (s : state).
Hypothesis Hsame : same_tree s0 s.

Lemma get_metadata_found k :
  get_metadata p k s =
  (match dict_get (_meta (deref s n)) k with Some v => Ok v | None => Raise KeyError end, s).
Proof using Hres Hnode Hsame.
  unfold get_metadata, resolved, bind, lift, try, Node_get_metadata.
  rewrite (same_tree_resolve_path _ _ _ Hsame), Hres. simpl.
  rewrite (same_tree_get_node _ _ _ Hsame), Hnode. simpl.
  by destruct (dict_get _ k).
Qed.

Lemma set_metadata_found k v :
  set_metadata p k v s =
  (Ok tt, update n (with_meta (dict_set (_meta (deref s n)) k v)) s).
Proof using Hres Hnode Hsame.
  unfold set_metadata, resolved, bind, lift, try, Node_set_metadata, modify.
  rewrite (same_tree_resolve_path _ _ _ Hsame), Hres. simpl.
  by rewrite (same_tree_get_node _ _ _ Hsame), Hnode.
Qed.

Lemma del_metadata_found k :
  del_metadata p k s =
  match dict_get (_meta (deref s n)) k with
  | Some v => (Ok v, update n (with_meta (dict_del (_meta (deref s n)) k)) s)
  | None => (Raise KeyError, s)
  end.
Proof using Hres Hnode Hsame.
  unfold del_metadata, resolved, Node_del_metadata, Node_get_metadata, bind, lift, try,
    modify, ret.
  rewrite (same_tree_resolve_path _ _ _ Hsame), Hres. simpl.
  rewrite (same_tree_get_node _ _ _ Hsame), Hnode. simpl.
  unfold Node_get_metadata. destruct (dict_get _ k); reflexivity.
Qed.
End metadata.

(** X10.  The metadata calls on a path that leads to a node (a directory or
    a leaf) of a well-formed tree: after [set_metadata p k v],
    [get_metadata p k] returns [v] and every other key reads as before;
    [del_metadata p k] then returns [v], after which [get_metadata p k] and
    a second [del_metadata p k] raise [KeyError] and every other key still
    reads as it did at the start. *)
Theorem metadata_round_trip s p path n k v :
  wf s = true → resolve_path s p = Ok path → get_node s path = Ok n →
  ∃ s1 s2,
    set_metadata p k v s = (Ok tt, s1) ∧
    get_metadata p k s1 = (Ok v, s1) ∧
    (∀ k', k' ≠ k → result (get_metadata p k') s1 = result (get_metadata p k') s) ∧
    del_metadata p k s1 = (Ok v, s2) ∧
    get_metadata p k s2 = (Raise KeyError, s2) ∧
    del_metadata p k s2 = (Raise KeyError, s2) ∧
    (∀ k', k' ≠ k → result (get_metadata p k') s2 = result (get_metadata p k') s).
Proof.
  intros Hwf Hp Hn. pose proof (get_node_valid _ _ _ Hwf Hn) as Hv.
  set (m0 := _meta (deref s n)).
  set (s1 := update n (with_meta (dict_set m0 k v)) s).
  assert (Hs1 : same_tree s s1) by apply same_tree_with_meta.
  assert (Hm1 : _meta (deref s1 n) = dict_set m0 k v) by (by apply meta_update).
  set (s2 := update n (with_meta (dict_del (dict_set m0 k v) k)) s1).
  assert (Hs2 : same_tree s s2).
  { eapply same_tree_trans; [exact Hs1|apply same_tree_with_meta]. }
  assert (Hm2 : _meta (deref s2 n) = dict_del (dict_set m0 k v) k).
  { apply meta_update. by apply (same_tree_valid s). }
  exists s1, s2. split; [|split; [|split; [|split; [|split; [|split]]]]].
  - apply (set_metadata_found s p path n Hp Hn s (same_tree_refl s)).
  - rewrite (get_metadata_found s p path n Hp Hn s1 Hs1), Hm1, dict_get_set.
    by rewrite value_eqb_refl.
  - intros k' Hk'. unfold result.
    rewrite (get_metadata_found s p path n Hp Hn s1 Hs1), Hm1, dict_get_set.
    rewrite (get_metadata_found s p path n Hp Hn s (same_tree_refl s)).
    by rewrite (value_eqb_neq _ _ Hk').
  - rewrite (del_metadata_found s p path n Hp Hn s1 Hs1), Hm1, dict_get_set.
    by rewrite value_eqb_refl.
  - rewrite (get_metadata_found s p path n Hp Hn s2 Hs2), Hm2, dict_get_del.
    by rewrite value_eqb_refl.
  - rewrite (del_metadata_found s p path n Hp Hn s2 Hs2), Hm2, dict_get_del.
    by rewrite value_eqb_refl.
  - intros k' Hk'. unfold result.
    rewrite (get_metadata_found s p path n Hp Hn s2 Hs2), Hm2, dict_get_del.
    rewrite (get_metadata_found s p path n Hp Hn s (same_tree_refl s)).
    by rewrite (value_eqb_neq _ _ Hk'), dict_get_set, (value_eqb_neq _ _ Hk').
Qed.

Lemma metadata_round_trip_witness :
  ∃ s1 s2,
    set_metadata "/a" (PyStr "k") (PyInt 1) two_siblings = (Ok tt, s1) ∧
    get_metadata "/a" (PyStr "k") s1 = (Ok (PyInt 1), s1) ∧
    (∀ k', k' ≠ PyStr "k" →
       result (get_metadata "/a" k') s1 = result (get_metadata "/a" k') two_siblings) ∧
    del_metadata "/a" (PyStr "k") s1 = (Ok (PyInt 1), s2) ∧
    get_metadata "/a" (PyStr "k") s2 = (Raise KeyError, s2) ∧
    del_metadata "/a" (PyStr "k") s2 = (Raise KeyError, s2) ∧
    (∀ k', k' ≠ PyStr "k" →
       result (get_metadata "/a" k') s2 = result (get_metadata "/a" k') two_siblings).
Proof.
  apply (metadata_round_trip two_siblings "/a" (pathlib.of_str "/a") 1); evaluate.
Defined.

(** * Data, the wrong kind of node, [cd] *)

Lemma get_path_of_found s path n :
  wf s = true → valid_path path → pathlib.root path = "/" →
  get_node s path = Ok n → get_path s n = Ok path.
Proof.
  intros (Hl & Hr & _ & _ & Hroot & _)%wf_spec Hv Hp Hn.
  destruct path as [r t]. unfold valid_path in Hv. simpl in *. subst r.
  rewrite get_node_absolute in Hn by done.
  destruct (walk_attached _ _ _ _ _ Hl (attached_root s) Hn) as (l & Hat & Hnames).
  simpl in Hnames. pose proof (attached_chain _ _ _ Hat) as Hc.
  rewrite (get_path_chain _ _ _ _ Hc (root_top_spec _ Hr)).
  - by rewrite Hroot, of_str_slash, Hnames.
  - rewrite <- Hnames in Hv. apply Forall_forall. intros m Hm.
    rewrite Forall_forall in Hv. apply Hv, elem_of_map_2.
    by apply list_elem_of_In, in_rev, list_elem_of_In in Hm.
Qed.

Lemma get_data_found s0 p path n s d cbs :
  resolve_path s0 p = Ok path → get_node s0 path = Ok n →
  same_tree s0 s → kind s n = LeafNode d cbs →
  get_data p s = (Ok d, s).
Proof.
  intros Hp Hn Hs Hk. unfold get_data, resolved, bind, lift, try, gets.
  rewrite (same_tree_resolve_path _ _ _ Hs), Hp. simpl.
  rewrite (same_tree_get_node _ _ _ Hs), Hn. simpl.
  unfold is_LeafNode, is_Node, data. rewrite Hk. simpl. by rewrite Hk.
Qed.

(** X11.  The data calls on an absolute path that leads to a leaf of a
    well-formed tree: after [set_data p v], [get_data p] returns [v];
    after [clear_data p] it returns [None]; the callbacks registered on the
    leaf are the same throughout. *)
Theorem data_round_trip s p path n v :
  wf s = true → resolve_path s p = Ok path → pathlib.root path = "/" →
  get_node s path = Ok n → is_LeafNode s n = true →
  ∃ s1 s2,
    set_data p v s = (Ok tt, s1) ∧ get_data p s1 = (Ok v, s1) ∧
    clear_data p s1 = (Ok tt, s2) ∧ get_data p s2 = (Ok PyNone, s2) ∧
    callbacks s2 n = callbacks s n.
Proof.
  intros Hwf Hp Hroot Hn Hleaf.
  pose proof (get_path_of_found _ _ _ Hwf (resolve_path_valid _ _ _ Hp) Hroot Hn) as Hpath.
  pose proof (get_node_valid _ _ _ Hwf Hn) as Hv.
  assert (∃ d cbs, kind s n = LeafNode d cbs) as (d & cbs & Hk).
  { unfold is_LeafNode, is_Node in Hleaf. destruct (kind s n); [done|eauto]. }
  destruct (set_data_leaf s p path n Hp Hn Hpath Hv s d cbs (same_tree_refl s) Hk v)
    as (s1 & Hset & Hs1 & Hk1 & _).
  destruct (clear_data_leaf s p path n Hp Hn Hpath Hv s1 v cbs Hs1 Hk1)
    as (s2 & Hclr & Hs2 & Hk2 & _).
  exists s1, s2. split; [done|]. split; [by eapply get_data_found|].
  split; [done|]. split; [by eapply get_data_found|].
  unfold callbacks. by rewrite Hk2, Hk.
Qed.

Lemma data_round_trip_witness :
  ∃ s1 s2,
    set_data "/a/b/f" (PyInt 7) nested_leaf = (Ok tt, s1) ∧
    get_data "/a/b/f" s1 = (Ok (PyInt 7), s1) ∧
    clear_data "/a/b/f" s1 = (Ok tt, s2) ∧ get_data "/a/b/f" s2 = (Ok PyNone, s2) ∧
    callbacks s2 3 = callbacks nested_leaf 3.
Proof.
  apply (data_round_trip nested_leaf "/a/b/f" (pathlib.of_str "/a/b/f") 3); evaluate.
Defined.

(** X9.  The wrong kind of node.  On a path that leads to a directory,
    [get_data], [set_data], [clear_data], [watch_file] and [unwatch_file]
    raise [InvalidPathError]; on a path that leads to a leaf, [ls] and [cd]
    raise [InvalidPathError]; the shell is as it was in each case.  But
    [get_node] of a path that continues below a leaf raises
    [AttributeError] (the leaf has no [get_child]), an error that no
    [except] clause of the shell takes. *)
Theorem wrong_kind_is_InvalidPathError s p path n :
  resolve_path s p = Ok path → get_node s path = Ok n →
  (is_Node s n = true →
     get_data p s = (Raise InvalidPathError, s) ∧
     (∀ d, set_data p d s = (Raise InvalidPathError, s)) ∧
     clear_data p s = (Raise InvalidPathError, s) ∧
     (∀ c, watch_file p c s = (Raise InvalidPathError, s)) ∧
     (∀ cs, unwatch_file p cs s = (Raise InvalidPathError, s))) ∧
  (is_LeafNode s n = true →
     ls p s = (Raise InvalidPathError, s) ∧
     cd p s = (Raise InvalidPathError, s) ∧
     (∀ x, x ≠ "" → x ≠ "." → no_sep x = true →
           get_node s (pathlib.truediv path x) = Raise AttributeError)).
Proof.
  intros Hp Hn. split.
  - intros Hd.
    assert (Hl : is_LeafNode s n = false) by (unfold is_LeafNode; by rewrite Hd).
    repeat split; intros;
      unfold get_data, set_data, clear_data, watch_file, unwatch_file,
        resolved, bind, lift, try, gets;
      rewrite Hp; simpl; rewrite Hn; simpl; by rewrite Hl.
  - intros Hl.
    assert (Hd : is_Node s n = false).
    { unfold is_LeafNode in Hl. by destruct (is_Node s n). }
    split; [|split].
    + unfold ls, resolved, bind, lift, try, gets. rewrite Hp. simpl. rewrite Hn. simpl.
      by rewrite Hd.
    + unfold cd, resolved, bind, lift, try, gets. rewrite Hp. simpl. rewrite Hn. simpl.
      by rewrite Hd.
    + intros x Hx1 Hx2 Hx3.
      assert (valid_name x = true) as Hx.
      { unfold valid_name, pathlib.keep. rewrite Hx3.
        apply String.eqb_neq in Hx1, Hx2. by rewrite Hx1, Hx2. }
      unfold pathlib.truediv, pathlib.joinpath. rewrite (of_str_valid _ Hx). simpl.
      revert Hn. unfold get_node, pathlib.parts. simpl.
      destruct (pathlib.root path =? "").
      * destruct (pathlib.tail path) as [|r ps]; [done|]. simpl.
        destruct (if r =? name s (root s) then _ else _) as [n0| |]; simpl; [|done..].
        rewrite walk_app. intros ->. simpl. rewrite get_child_eq.
        unfold is_Node in Hd. by destruct (kind s n).
      * destruct (if pathlib.root path =? name s (root s) then _ else _) as [n0| |];
          simpl; [|done..].
        rewrite walk_app. intros ->. simpl. rewrite get_child_eq.
        unfold is_Node in Hd. by destruct (kind s n).
Qed.

Lemma wrong_kind_is_InvalidPathError_witness :
  (is_Node nested_leaf 2 = true →
     get_data "/a/b" nested_leaf = (Raise InvalidPathError, nested_leaf) ∧
     (∀ d, set_data "/a/b" d nested_leaf = (Raise InvalidPathError, nested_leaf)) ∧
     clear_data "/a/b" nested_leaf = (Raise InvalidPathError, nested_leaf) ∧
     (∀ c, watch_file "/a/b" c nested_leaf = (Raise InvalidPathError, nested_leaf)) ∧
     (∀ cs, unwatch_file "/a/b" cs nested_leaf = (Raise InvalidPathError, nested_leaf))) ∧
  (is_LeafNode nested_leaf 2 = true →
     ls "/a/b" nested_leaf = (Raise InvalidPathError, nested_leaf) ∧
     cd "/a/b" nested_leaf = (Raise InvalidPathError, nested_leaf) ∧
     (∀ x, x ≠ "" → x ≠ "." → no_sep x = true →
           get_node nested_leaf (pathlib.truediv (pathlib.of_str "/a/b") x)
           = Raise AttributeError)).
Proof.
  apply (wrong_kind_is_InvalidPathError nested_leaf "/a/b" (pathlib.of_str "/a/b") 2);
    evaluate.
Defined.

Lemma get_path_heap s s' n : heap s' = heap s → get_path s' n = get_path s n.
Proof.
  intros Hh.
  assert (Hd : ∀ m, deref s' m = deref s m) by (intros m; unfold deref; by rewrite Hh).
  unfold get_path, name. rewrite Hh, Hd.
  generalize (pathlib.of_str (_name (deref s n))). generalize (S (length (heap s))).
  intros fuel. revert n. induction fuel as [|fuel IH]; intros n path; simpl; [done|].
  unfold parent, name. rewrite Hd. destruct (_parent (deref s n)) as [q|]; [|done].
  rewrite Hd. apply IH.
Qed.

Lemma resolve_relative s cw x :
  name s (root s) = "/" → pwd s = Ok cw → pathlib.root cw = "/" →
  mem ".." (pathlib.tail cw) = false → valid_path cw →
  valid_name x = true → x ≠ ".." →
  resolve_path s x = Ok (pathlib.truediv cw x).
Proof.
  intros Hroot Hcw Hr Hdd Hv Hx Hxdd. unfold resolve_path, pathlib.truediv.
  rewrite (of_str_valid _ Hx), Hroot, Hcw.
  change (pathlib.parts (pathlib.mkPath "" [x])) with [x]. cbn [obind fst].
  assert ((x =? "/") = false) as ->.
  { apply String.eqb_neq. intros ->. done. }
  cbn [negb obind].
  assert (pathlib.parts (pathlib.joinpath cw (pathlib.mkPath "" [x]))
          = "/" :: (pathlib.tail cw ++ [x])%list) as ->.
  { unfold pathlib.joinpath, pathlib.parts. simpl. by rewrite Hr. }
  cbn [obind].
  assert (mem "." (pathlib.tail cw ++ [x]) = false) as ->.
  { apply mem_false_iff. intros [H|H%list_elem_of_singleton]%elem_of_app.
    - unfold valid_path in Hv. rewrite Forall_forall in Hv. by apply Hv in H.
    - by rewrite <- H in Hx. }
  assert (mem ".." (pathlib.tail cw ++ [x]) = false) as ->; [|done].
  apply mem_false_iff. intros [H|H%list_elem_of_singleton]%elem_of_app; [|done].
  by apply mem_false_iff in Hdd.
Qed.

(** X8.  [cd] to an absolute path that leads to a directory of a
    well-formed tree makes that directory the working directory and changes
    nothing else; [pwd] then returns the path, and (where the path has no
    [".."] left) a single name other than [".."] resolves to the path
    followed by that name. *)
Theorem cd_then_pwd s p path n :
  wf s = true → resolve_path s p = Ok path → pathlib.root path = "/" →
  get_node s path = Ok n → is_Node s n = true →
  ∃ s', cd p s = (Ok tt, s') ∧ _cwd s' = n ∧ pwd s' = Ok path ∧
        heap s' = heap s ∧ root s' = root s ∧ calls s' = calls s ∧
        (mem ".." (pathlib.tail path) = false →
         ∀ x, valid_name x = true → x ≠ ".." →
              resolve_path s' x = Ok (pathlib.truediv path x)).
Proof.
  intros Hwf Hp Hroot Hn Hd. eexists. split.
  - unfold cd, resolved, bind, lift, try, gets, modify. rewrite Hp. simpl. rewrite Hn.
    simpl. by rewrite Hd.
  - cbn [_cwd heap root calls]. split; [done|].
    assert (Hpwd : pwd (mkState (heap s) (root s) n (calls s)) = Ok path).
    { unfold pwd. cbn [_cwd].
      rewrite <- (get_path_of_found s path n Hwf (resolve_path_valid _ _ _ Hp) Hroot Hn).
      by apply get_path_heap. }
    split; [done|]. split; [done|]. split; [done|]. split; [done|].
    intros Hdd x Hx Hxdd. apply resolve_relative; try done.
    + by apply wf_spec in Hwf as (_ & _ & _ & _ & ? & _).
    + by eapply resolve_path_valid.
Qed.

Lemma cd_then_pwd_witness :
  ∃ s', cd "/a/b" nested_leaf = (Ok tt, s') ∧ _cwd s' = 2%nat ∧
        pwd s' = Ok (pathlib.of_str "/a/b") ∧
        heap s' = heap nested_leaf ∧ root s' = root nested_leaf ∧
        calls s' = calls nested_leaf ∧
        (mem ".." (pathlib.tail (pathlib.of_str "/a/b")) = false →
         ∀ x, valid_name x = true → x ≠ ".." →
              resolve_path s' x = Ok (pathlib.truediv (pathlib.of_str "/a/b") x)).
Proof.
  apply (cd_then_pwd nested_leaf "/a/b" (pathlib.of_str "/a/b") 2); evaluate.
Defined.

(** * The working directory stays grounded *)

Lemma chain_valid s n l a m : chain s n l a → m ∈ l → is_Some (heap s !! m).
Proof.
  induction 1 as [|n p l a Hp _ IH]; intros Hm; [by apply elem_of_nil in Hm|].
  apply elem_of_cons in Hm as [->|Hm]; [by eapply parent_Some_valid|by apply IH].
Qed.

Lemma grounded_transfer s s' :
  _cwd s' = _cwd s →
  (∀ m, is_Some (heap s !! m) → is_Some (heap s' !! m) ∧ parent s' m = parent s m) →
  grounded s → grounded s'.
Proof.
  intros Hc H (l & top & Hl & Ht & Hv). exists l, top. rewrite Hc.
  destruct (H top Hv) as [Hv' Hp']. split; [|split; [congruence|done]].
  eapply chain_transfer; [done|]. intros m Hm. by apply H, (chain_valid s _ _ _ _ Hl).
Qed.

Lemma grounded_grows s s' : grows s s' → grounded s → grounded s'.
Proof. intros (_ & Hc & _ & _ & Hp & _). by apply grounded_transfer. Qed.

Lemma grounded_same_tree s s' : same_tree s s' → grounded s → grounded s'.
Proof.
  intros (Hlen & _ & Hc & H). apply grounded_transfer; [done|]. intros m Hm.
  split; [|apply H]. apply lookup_lt_is_Some. rewrite Hlen. by apply lookup_lt_is_Some.
Qed.

Lemma chain_cut s s' n c l top :
  (∀ m, m ≠ n → parent s' m = parent s m) → parent s' n = None →
  length (heap s') = length (heap s) → is_Some (heap s !! n) →
  chain s c l top → parent s top = None → is_Some (heap s !! top) →
  ∃ l' top', chain s' c l' top' ∧ parent s' top' = None ∧ is_Some (heap s' !! top').
Proof.
  intros Hne Hn Hlen Hvn Hl Ht Hv.
  assert (Hval : ∀ m, is_Some (heap s !! m) → is_Some (heap s' !! m)).
  { intros m Hm. apply lookup_lt_is_Some. rewrite Hlen. by apply lookup_lt_is_Some. }
  induction Hl as [a|c p l a Hp Hl IH].
  - exists [], a. split; [constructor|]. split; [|by apply Hval].
    destruct (decide (a = n)) as [->|Ha]; [done|]. by rewrite Hne.
  - destruct (decide (c = n)) as [->|Hc].
    + exists [], n. split; [constructor|]. split; [done|by apply Hval].
    + destruct (IH Ht Hv) as (l' & top' & Hl' & Ht' & Hv').
      exists (c :: l'), top'. split; [|done]. econstructor; [|done]. by rewrite Hne.
Qed.

Lemma grounded_detached s q n :
  is_Some (heap s !! n) → grounded s → grounded (detached s q n).
Proof.
  intros Hn (l & top & Hl & Ht & Hv).
  apply (chain_cut s (detached s q n) n (_cwd s) l top); try done.
  - intros m Hm. rewrite parent_detached by done. by destruct (decide (n = m)) as [->|].
  - rewrite parent_detached by done. by destruct (decide (n = n)).
  - apply length_detached.
Qed.

Lemma reaches_attached s n :
  linked s = true → reaches s (root s) n → ∃ l, attached s n l.
Proof.
  intros Hl. induction 1 as [|d m _ [l IH] Hm]; [exists []; constructor|].
  exists (m :: l). econstructor; [by eapply linked_spec|done|done].
Qed.

Lemma grounded_cd s path n :
  wf s = true → get_node s path = Ok n →
  grounded (mkState (heap s) (root s) n (calls s)).
Proof.
  intros (Hl & Hr & _ & _ & Hroot & _)%wf_spec Hn.
  destruct (reaches_attached s n Hl (get_node_reaches _ _ _ Hn)) as [l Ha].
  apply attached_chain in Ha. exists l, (root s). simpl.
  split; [by apply (chain_transfer s)|].
  split; [exact (root_top_spec _ Hr)|exact (name_root_valid _ Hroot)].
Qed.

Lemma grounded_run c s : sane s → grounded (run c s).
Proof.
  intros (Hwf & Hd & Hg). pose proof Hwf as (Hl & Hr & _)%wf_spec.
  destruct c; simpl.
  - by eapply grounded_grows; [apply mkdir_keeps|].
  - by eapply grounded_grows; [apply touch_keeps|].
  - unfold cd. rewrite exec_resolved.
    destruct (resolve_path s p) as [path| |]; [|done..]. rewrite exec_bind.
    destruct (find_node nde_to_invalid s path nde_to_invalid_shape) as (r & -> & Hfound).
    destruct r as [n| |]; [|done..]. rewrite exec_bind. unfold gets.
    destruct (is_Node s n) eqn:Hn; simpl; [|done].
    by apply (grounded_cd s path); [|apply Hfound].
  - unfold exec. rewrite rm_eq.
    destruct (resolve_path s p) as [path| |]; [|done..].
    destruct (get_node s path) as [n|e|] eqn:Hn; [|by destruct e|done].
    destruct (is_Node s n && negb recursive); [done|].
    destruct (parent s n) as [par|] eqn:Hp; [|done].
    destruct (get_node_origin _ _ _ Hn) as [->|(q & y & Hq)].
    { rewrite (root_top_spec _ Hr) in Hp. done. }
    destruct (remove_child_member _ _ _ _ Hl Hq) as [Hpq Hrm].
    assert (par = q) as -> by congruence. rewrite Hrm. simpl.
    apply grounded_detached; [|done]. by eapply parent_Some_valid.
  - by rewrite (proj1 (reads_keep_state s p)).
  - by rewrite (proj1 (proj2 (reads_keep_state s p))).
  - eapply grounded_same_tree; [apply (same_tree_writes s p)|done].
  - eapply grounded_same_tree; [apply (same_tree_writes s p)|done].
  - by rewrite (proj2 (proj2 (reads_keep_state s p))).
  - eapply grounded_same_tree; [apply (same_tree_writes s p)|done].
  - eapply grounded_same_tree; [apply (same_tree_writes s p)|done].
  - eapply grounded_same_tree; [apply (same_tree_writes s p)|done].
  - eapply grounded_same_tree; [apply (same_tree_writes s p)|done].
Qed.

Lemma sane_run c s : sane s → sane (run c s).
Proof.
  intros Hs. pose proof Hs as (Hwf & Hd & Hg).
  destruct (run_keeps c s Hwf Hd). split; [done|]. split; [done|by apply grounded_run].
Qed.

Lemma sane_init : sane init.
Proof.
  split; [reflexivity|]. split; [reflexivity|]. exists [], 0%nat.
  split; [constructor|]. split; [reflexivity|]. by exists (mkObj "/" None [] (Node [])).
Qed.

Lemma sane_session cs : sane (session cs).
Proof.
  unfold session. generalize sane_init. generalize init.
  induction cs as [|c cs IH]; intros s Hs; simpl; [done|]. by apply IH, sane_run.
Qed.

(** [pwd] returns, and its result has parts *)
Lemma pwd_sane s :
  sane s → ∃ cw, pwd s = Ok cw ∧ pathlib.parts cw ≠ [].
Proof.
  intros (Hwf & Hd & l & top & Hl & Ht & Hv).
  pose proof Hwf as (_ & Hr & _ & Hnv & Hroot & _)%wf_spec.
  unfold pwd. rewrite (get_path_chain s _ l top Hl Ht) by (by eapply chain_names_valid).
  eexists. split; [done|].
  destruct (decide (top = root s)) as [->|Hne].
  - rewrite Hroot. done.
  - rewrite (of_str_valid _ (names_valid_spec _ _ Hnv Hv Hne)). done.
Qed.

Lemma resolve_path_sane s p : sane s → ∃ path, resolve_path s p = Ok path.
Proof.
  intros Hs. destruct (pwd_sane s Hs) as (cw & Hcw & Hparts).
  unfold resolve_path.
  assert (∃ rp, match pathlib.parts (pathlib.of_str p) with
                | r :: parts => Ok (r, parts)
                | [] => if negb (pathlib.str (pathlib.of_str p) =? ".")
                        then Raise InvalidPathError else Ok (".", [])
                end = Ok rp) as [rp ->].
  { destruct (pathlib.parts (pathlib.of_str p)) eqn:Hp; [|eauto].
    rewrite (parts_nil_str _ Hp). eauto. }
  cbn [obind].
  assert (Hfin : ∀ path r parts, ∃ path',
    (if mem "." parts || mem ".." parts
     then obind (collapse (length parts) 0 parts) (fun parts' =>
            Ok (fold_left pathlib.truediv parts' (pathlib.of_str r)))
     else Ok path) = Ok path').
  { intros path r parts. destruct (mem "." parts || mem ".." parts); [|eauto].
    destruct (collapse_Ok (length parts) 0 parts) as [parts' ->]. simpl. eauto. }
  destruct (negb (fst rp =? name s (root s))); cbn [obind].
  - rewrite Hcw. cbn [obind].
    destruct (pathlib.parts (pathlib.joinpath cw (pathlib.of_str p))) as [|r ps] eqn:Hj;
      cbn [obind]; [|apply Hfin].
    exfalso. apply Hparts. revert Hj. unfold pathlib.joinpath, pathlib.parts.
    destruct (pathlib.root (pathlib.of_str p) =? "") eqn:Hrp; simpl.
    + destruct (pathlib.root cw =? ""); [|done]. by intros [-> _]%app_eq_nil.
    + by rewrite Hrp.
  - destruct rp as [r parts]. apply Hfin.
Qed.

(** X12.  Every shell command but [mv] keeps the tree in shape: if the
    tree is well-formed (the members of every NodeSet name its owner as
    their parent and carry pairwise different names, every name but the
    root's is a single path component, the root is a parentless directory
    called ["/"]), the working directory is a directory and the parent
    references above it end at a parentless node, then the same holds after
    the command, whether it returned or raised.  So it holds after any
    sequence of such commands on a fresh shell. *)
Theorem commands_keep_tree :
  (∀ c s, sane s → sane (run c s)) ∧ (∀ cs, sane (session cs)).
Proof. split; [apply sane_run|apply sane_session]. Qed.

Lemma commands_keep_tree_witness : sane (run (Rm "/a" true) inside_a_b).
Proof.
  apply (proj1 commands_keep_tree). split; [evaluate|]. split; [evaluate|].
  exists [2; 1]%nat, 0%nat. split.
  - apply (chain_cons _ 2 1); [evaluate|]. apply (chain_cons _ 1 0); [evaluate|].
    apply chain_nil.
  - split; [evaluate|]. vm_compute. eexists. reflexivity.
Defined.

(** X4.  In such a state [pwd] returns and [resolve_path] returns for every
    string: neither raises, and the loop of [get_path] ends. *)
Theorem paths_resolve s p :
  sane s → ∃ cw path, pwd s = Ok cw ∧ resolve_path s p = Ok path.
Proof.
  intros Hs. destruct (pwd_sane s Hs) as (cw & Hcw & _).
  destruct (resolve_path_sane s p Hs) as [path Hp]. eauto.
Qed.

Lemma paths_resolve_witness :
  ∃ cw path, pwd inside_a_b = Ok cw ∧ resolve_path inside_a_b "../../../x/." = Ok path.
Proof.
  apply (paths_resolve inside_a_b). split; [evaluate|]. split; [evaluate|].
  exists [2; 1]%nat, 0%nat. split.
  - apply (chain_cons _ 2 1); [evaluate|]. apply (chain_cons _ 1 0); [evaluate|].
    apply chain_nil.
  - split; [evaluate|]. vm_compute. eexists. reflexivity.
Defined.

(** * [mv] *)

Lemma name_unlisted s q n m : name (unlisted s q n) m = name s m.
Proof. apply name_set_members. Qed.
Lemma parent_unlisted s q n m : parent (unlisted s q n) m = parent s m.
Proof. apply parent_set_members. Qed.
Lemma members_unlisted s q n d :
  is_Some (heap s !! q) →
  members (unlisted s q n) d =
  if decide (q = d) then set_remove n (members s q) else members s d.
Proof. intros Hq. unfold unlisted. by rewrite members_set_members. Qed.
Lemma is_Node_unlisted s q n m :
  is_Node s q = true → is_Node (unlisted s q n) m = is_Node s m.
Proof.
  intros Hq. unfold unlisted, is_Node. rewrite kind_set_members by (by apply is_Node_valid).
  destruct (decide (q = m)) as [<-|]; [|done]. by rewrite (is_Node_members _ _ Hq).
Qed.
Lemma length_unlisted s q n : length (heap (unlisted s q n)) = length (heap s).
Proof. apply length_heap_update. Qed.

Lemma wf_unlisted s q n : wf s = true → is_Node s q = true → wf (unlisted s q n) = true.
Proof.
  intros Hwf Hq. pose proof Hwf as (Hl & Hr & Hu & Hv & Hrn & Hrd)%wf_spec.
  pose proof (is_Node_valid _ _ Hq) as Hvq.
  apply wf_spec. repeat split.
  - apply linked_intro. intros d m. rewrite members_unlisted, parent_unlisted by done.
    destruct (decide (q = d)) as [<-|]; [|by apply linked_spec].
    intros [Hm _]%elem_of_set_remove. by apply linked_spec.
  - unfold root_top. change (root (unlisted s q n)) with (root s).
    rewrite parent_unlisted. by rewrite (root_top_spec _ Hr).
  - apply unique_names_intro. intros d. unfold names_unique.
    rewrite members_unlisted by done.
    rewrite (names_ext s) by (intros; apply name_unlisted).
    destruct (decide (q = d)); [|by apply unique_names_all].
    apply distinct_filter. by apply (unique_names_all _ q).
  - apply names_valid_intro. intros m Hm Hne. rewrite name_unlisted.
    apply names_valid_spec; [done| |done].
    revert Hm. rewrite !lookup_lt_is_Some. by rewrite length_unlisted.
  - change (root (unlisted s q n)) with (root s). by rewrite name_unlisted.
  - change (root (unlisted s q n)) with (root s). by rewrite is_Node_unlisted.
Qed.

Lemma unlisted_orphan s q n d :
  linked s = true → parent s n = Some q → is_Some (heap s !! q) →
  n ∉ members (unlisted s q n) d.
Proof.
  intros Hl Hp Hq. rewrite members_unlisted by done.
  destruct (decide (q = d)) as [<-|Hne].
  - intros [_ ?]%elem_of_set_remove. done.
  - intros Hin. apply (linked_spec _ _ _ Hl) in Hin. congruence.
Qed.

(** [set_parent] on a listed child of a well-formed tree *)
Lemma set_parent_moves s n q t :
  wf s = true → n ∈ members s q → is_Node s t = true →
  set_parent n (Some t) s =
  if NodeSet_contains s (members (unlisted s q n) t) (name s n)
  then (Raise (DuplicateNodeNameError (name s n)), unlisted s q n)
  else (Ok tt, moved s q n t).
Proof.
  intros Hwf Hin Ht. pose proof Hwf as (Hl & Hr & Hu & _)%wf_spec.
  pose proof (linked_spec _ _ _ Hl Hin) as Hp.
  pose proof (members_elem_Node _ _ _ Hin) as Hk.
  assert (Hq : is_Node s q = true) by (unfold is_Node; by rewrite Hk).
  rewrite set_parent_eq, Hp, NodeSet_remove_eq, Hk.
  destruct (get_child_Ok _ _ _ _ (get_child_member _ _ _ Hu Hin)) as (_ & _ & _ & ->).
  fold (unlisted s q n). rewrite NodeSet_add_eq.
  assert (is_Node (unlisted s q n) t = true) as Ht' by (by rewrite is_Node_unlisted).
  rewrite (is_Node_members _ _ Ht'), name_unlisted.
  rewrite (contains_ext s) by (intros; apply name_unlisted).
  by destruct (NodeSet_contains _ _ _).
Qed.

Lemma wf_moved s n q t :
  wf s = true → n ∈ members s q → is_Node s t = true →
  NodeSet_contains s (members (unlisted s q n) t) (name s n) = false →
  wf (moved s q n t) = true.
Proof.
  intros Hwf Hin Ht Hfree. pose proof Hwf as (Hl & Hr & Hu & _)%wf_spec.
  pose proof (linked_spec _ _ _ Hl Hin) as Hp.
  pose proof (members_elem_Node _ _ _ Hin) as Hk.
  assert (Hq : is_Node s q = true) by (unfold is_Node; by rewrite Hk).
  apply wf_adopted.
  - by apply wf_unlisted.
  - apply lookup_lt_is_Some. rewrite length_unlisted.
    by apply lookup_lt_is_Some, (parent_Some_valid _ _ _ Hp).
  - intros d. apply unlisted_orphan; [done|done|by apply is_Node_valid].
  - change (root (unlisted s q n)) with (root s). intros ->.
    rewrite (root_top_spec _ Hr) in Hp. done.
  - by rewrite is_Node_unlisted.
  - rewrite name_unlisted. by rewrite (contains_ext s) by (intros; apply name_unlisted).
Qed.

Lemma filter_set_remove (f : nat → bool) n ms :
  f n = false → List.filter f (set_remove n ms) = List.filter f ms.
Proof.
  intros Hn. unfold set_remove. induction ms as [|m ms IH]; simpl; [done|].
  destruct (Nat.eqb_spec m n) as [->|]; simpl; rewrite IH; [by rewrite Hn|done].
Qed.

(** *** reading the state after a move *)
Section after_move.
Variables (s : state) (n q t : nat).
Hypothesis Hwf : wf s = true.
Hypothesis Hin : n ∈ members s q.
Hypothesis Ht : is_Node s t = true.

Lemma moved_facts :
  linked s = true ∧ unique_names s = true ∧ parent s n = Some q ∧
  is_Node s q = true ∧ is_Some (heap s !! n) ∧ is_Some (heap s !! q) ∧
  is_Node (unlisted s q n) t = true ∧ n ∉ members (unlisted s q n) t.
Proof using Hwf Hin Ht.
  pose proof Hwf as (Hl & Hr & Hu & _)%wf_spec.
  pose proof (linked_spec _ _ _ Hl Hin) as Hp.
  pose proof (members_elem_Node _ _ _ Hin) as Hk.
  assert (Hq : is_Node s q = true) by (unfold is_Node; by rewrite Hk).
  repeat split; try done.
  - by eapply parent_Some_valid.
  - by apply is_Node_valid.
  - by rewrite is_Node_unlisted.
  - apply unlisted_orphan; [done|done|by apply is_Node_valid].
Qed.

Lemma name_moved m : name (moved s q n t) m = name s m.
Proof using. unfold moved. by rewrite name_adopted, name_unlisted. Qed.

Lemma parent_moved m :
  parent (moved s q n t) m = if decide (n = m) then Some t else parent s m.
Proof using Hwf Hin Ht.
  destruct moved_facts as (_ & _ & _ & _ & Hn & _).
  unfold moved. rewrite parent_adopted.
  - destruct (decide _); [done|apply parent_unlisted].
  - apply lookup_lt_is_Some. rewrite length_unlisted. by apply lookup_lt_is_Some.
Qed.

Lemma members_moved d :
  members (moved s q n t) d =
  if decide (t = d) then (members (unlisted s q n) t ++ [n])%list
  else members (unlisted s q n) d.
Proof using Hwf Hin Ht.
  destruct moved_facts as (_ & _ & _ & _ & _ & _ & Ht' & Hnot).
  unfold moved. by rewrite members_adopted.
Qed.

Lemma is_Node_moved m : is_Node (moved s q n t) m = is_Node s m.
Proof using Hwf Hin Ht.
  destruct moved_facts as (_ & _ & _ & Hq & _ & _ & Ht' & _).
  unfold moved. by rewrite is_Node_adopted, is_Node_unlisted.
Qed.

Lemma filter_members_moved y d :
  y ≠ name s n →
  List.filter (has_name s y) (members (moved s q n t) d) =
  List.filter (has_name s y) (members s d).
Proof using Hwf Hin Ht.
  intros Hy. destruct moved_facts as (_ & _ & _ & _ & _ & Hq & _).
  assert (Hn : has_name s y n = false).
  { unfold has_name. apply String.eqb_neq. congruence. }
  assert (Hun : ∀ d, List.filter (has_name s y) (members (unlisted s q n) d) =
                     List.filter (has_name s y) (members s d)).
  { intros d'. rewrite members_unlisted by done.
    destruct (decide (q = d')) as [<-|]; [|done]. by apply filter_set_remove. }
  rewrite members_moved. destruct (decide (t = d)) as [<-|]; [|apply Hun].
  rewrite List.filter_app. simpl. rewrite Hn, app_nil_r. apply Hun.
Qed.

End after_move.

Lemma find_filter {A} (f : A → bool) l : List.find f l = head (List.filter f l).
Proof. induction l as [|x l IH]; simpl; [done|]. by destruct (f x). Qed.

Lemma get_child_moved_other s n q t d y :
  wf s = true → n ∈ members s q → is_Node s t = true →
  y ≠ name s n → get_child (moved s q n t) d y = get_child s d y.
Proof.
  intros Hwf Hin Ht Hy. rewrite !get_child_eq.
  pose proof (is_Node_moved s n q t Hwf Hin Ht d) as Hd.
  pose proof (filter_members_moved s n q t Hwf Hin Ht y d Hy) as Hf.
  unfold is_Node, members in *.
  destruct (kind (moved s q n t) d) as [ms'|], (kind s d) as [ms|]; try done.
  rewrite !find_filter.
  rewrite (filter_ext (has_name (moved s q n t) y) (has_name s y))
    by (intros m; unfold has_name; by rewrite name_moved).
  by rewrite Hf.
Qed.

Lemma get_child_moved_new s n q t :
  wf s = true → n ∈ members s q → is_Node s t = true →
  NodeSet_contains s (members (unlisted s q n) t) (name s n) = false →
  get_child (moved s q n t) t (name s n) = Ok n.
Proof.
  intros Hwf Hin Ht Hfree. apply get_child_find.
  rewrite is_Node_moved by done. split; [done|].
  rewrite members_moved by done. destruct (decide (t = t)); [|done].
  rewrite find_app_None.
  - simpl. unfold has_name. by rewrite name_moved, String.eqb_refl.
  - apply contains_find_None.
    rewrite (contains_ext s) by (intros; apply name_moved). done.
Qed.

Lemma get_child_moved_old s n q t :
  wf s = true → n ∈ members s q → is_Node s t = true → q ≠ t →
  get_child (moved s q n t) q (name s n) = Raise (NodeDoesNotExistError (name s n)).
Proof.
  intros Hwf Hin Ht Hne.
  destruct (moved_facts s n q t Hwf Hin Ht) as (_ & Hu & _ & Hq & _ & Hvq & _).
  rewrite get_child_eq.
  pose proof (is_Node_moved s n q t Hwf Hin Ht q) as Hd. rewrite Hq in Hd.
  rewrite (is_Node_members _ _ Hd), members_moved by done.
  destruct (decide (t = q)); [done|]. rewrite members_unlisted by done.
  destruct (decide (q = q)); [|done].
  rewrite contains_find_None; [done|]. apply contains_false.
  intros m [Hm Hmn]%elem_of_set_remove. rewrite name_moved. intros E.
  by apply Hmn, (unique_names_spec s q).
Qed.

(** *** renaming a listed child *)
Lemma distinct_rename (f g : nat → string) l n x :
  distinct (map f l) = true → g n = x → (∀ m, m ≠ n → g m = f m) →
  (∀ m, m ∈ l → m ≠ n → f m ≠ x) → distinct (map g l) = true.
Proof.
  intros Hd Hn Hg. induction l as [|a l IH]; simpl; [done|]. intros Hx.
  simpl in Hd. apply andb_prop in Hd as [Ha Hd]. apply negb_true_iff, mem_false_iff in Ha.
  rewrite IH; [|done|intros m Hm; apply Hx; by right]. rewrite andb_true_r.
  apply negb_true_iff, mem_false_iff. rewrite list_elem_of_In, in_map_iff.
  intros (m & Hgm & Hm%list_elem_of_In).
  destruct (decide (a = n)) as [->|Han], (decide (m = n)) as [->|Hmn].
  - apply Ha. by apply elem_of_map_2.
  - rewrite Hn, Hg in Hgm by done. by apply (Hx m); [right|..].
  - rewrite Hn, Hg in Hgm by done. by apply (Hx a); [left|..].
  - rewrite !Hg in Hgm by done. apply Ha. rewrite <- Hgm. by apply elem_of_map_2.
Qed.

Lemma wf_renamed s n q x :
  wf s = true → n ∈ members s q → valid_name x = true →
  (∀ m, m ∈ members s q → m ≠ n → name s m ≠ x) →
  wf (renamed s n x) = true.
Proof.
  intros Hwf Hin Hx Hfree. pose proof Hwf as (Hl & Hr & Hu & Hv & Hrn & Hrd)%wf_spec.
  pose proof (linked_spec _ _ _ Hl Hin) as Hp.
  pose proof (parent_Some_valid _ _ _ Hp) as Hvn.
  assert (Hroot : n ≠ root s).
  { intros ->. rewrite (root_top_spec _ Hr) in Hp. done. }
  assert (Hname : ∀ m, name (renamed s n x) m = if decide (n = m) then x else name s m).
  { intros m. by apply name_with_name. }
  apply wf_spec. unfold renamed. repeat split.
  - apply linked_intro. intros d m. rewrite members_with_name, parent_with_name.
    by apply linked_spec.
  - unfold root_top. change (root (update n (with_name x) s)) with (root s).
    rewrite parent_with_name. by rewrite (root_top_spec _ Hr).
  - apply unique_names_intro. intros d. unfold names_unique.
    rewrite members_with_name.
    destruct (decide (n ∈ members s d)) as [Hd|Hd].
    + assert (d = q) as -> by (apply (linked_spec _ _ _ Hl) in Hd; congruence).
      apply (distinct_rename (name s) _ _ n x); [by apply unique_names_all| | |done].
      * fold (renamed s n x). rewrite Hname. by destruct (decide _).
      * intros m Hm. fold (renamed s n x). rewrite Hname. by destruct (decide _).
    + rewrite (names_ext s); [by apply unique_names_all|].
      intros m Hm. fold (renamed s n x). rewrite Hname.
      destruct (decide _) as [->|]; done.
  - apply names_valid_intro. intros m Hm Hne. fold (renamed s n x). rewrite Hname.
    destruct (decide _); [done|]. apply names_valid_spec; [done| |done].
    revert Hm. rewrite !lookup_lt_is_Some. by rewrite length_heap_update.
  - change (root (update n (with_name x) s)) with (root s).
    fold (renamed s n x). rewrite Hname. by destruct (decide _).
  - change (root (update n (with_name x) s)) with (root s).
    unfold is_Node. by rewrite kind_with_name.
Qed.

(** a path with a last component leads to a listed child *)
Lemma valid_name_not_root x : valid_name x = true → x ≠ "/".
Proof. by intros H ->. Qed.

Lemma get_node_child s path n :
  name s (root s) = "/" → valid_path path → pathlib.name path ≠ "" →
  get_node s path = Ok n →
  ∃ q, get_child s q (pathlib.name path) = Ok n.
Proof.
  intros Hroot Hv Hname Hn.
  destruct (path_name_snoc _ Hname) as (l & Ht & _).
  revert Hn. unfold get_node, pathlib.parts. rewrite Ht, Hroot.
  destruct (pathlib.root path =? "").
  - destruct l as [|r l]; simpl.
    + assert ((pathlib.name path =? "/") = false) as ->.
      { apply String.eqb_neq, valid_name_not_root. by apply valid_path_name. }
      rewrite obind_Ok_r. eauto.
    + destruct (if r =? "/" then _ else _) as [n0| |]; simpl; [|done..].
      rewrite walk_app. destruct (walk s n0 l) as [par| |]; simpl; [|done..].
      rewrite obind_Ok_r. eauto.
  - destruct (if pathlib.root path =? "/" then _ else _) as [n0| |]; simpl; [|done..].
    rewrite walk_app. destruct (walk s n0 l) as [par| |]; simpl; [|done..].
    rewrite obind_Ok_r. eauto.
Qed.

(** *** [mv] *)
Lemma mv_eq p1 p2 s sp tp :
  resolve_path s p1 = Ok sp → resolve_path s p2 = Ok tp →
  mv p1 p2 s = move_node sp tp s.
Proof.
  intros Hp1 Hp2. unfold mv, resolved2, bind, lift. rewrite Hp1, Hp2.
  apply try_reraise_invalid.
Qed.

Lemma source_listed s p sp n :
  wf s = true → resolve_path s p = Ok sp → pathlib.name sp ≠ "" →
  get_node s sp = Ok n →
  ∃ q, n ∈ members s q ∧ name s n = pathlib.name sp ∧ parent s n = Some q.
Proof.
  intros Hwf Hp Hname Hn. pose proof Hwf as (Hl & _ & _ & _ & Hroot & _)%wf_spec.
  destruct (get_node_child s sp n Hroot (resolve_path_valid _ _ _ Hp) Hname Hn) as [q Hq].
  apply get_child_Ok in Hq as (_ & Hin & Hx & _).
  exists q. split; [done|]. split; [done|]. by apply linked_spec.
Qed.

Lemma free_in_target s n q t :
  wf s = true → n ∈ members s q → is_Node s t = true →
  (∀ m, m ∈ members s t → m ≠ n → name s m ≠ name s n) →
  NodeSet_contains s (members (unlisted s q n) t) (name s n) = false.
Proof.
  intros Hwf Hin Ht Hfree. apply contains_false. intros m.
  rewrite members_unlisted by (by eapply kind_Node_valid, members_elem_Node).
  destruct (decide (q = t)) as [->|Hne].
  - intros [Hm Hmn]%elem_of_set_remove. by apply Hfree.
  - intros Hm. apply Hfree; [done|]. intros ->.
    pose proof Hwf as (Hl & _)%wf_spec.
    pose proof (linked_spec _ _ _ Hl Hin). pose proof (linked_spec _ _ _ Hl Hm). congruence.
Qed.

Lemma mv_existing s p1 p2 sp tp n t :
  wf s = true →
  resolve_path s p1 = Ok sp → resolve_path s p2 = Ok tp →
  pathlib.name sp ≠ "" → pathlib.name tp ≠ "" →
  get_node s sp = Ok n → get_node s tp = Ok t → is_Node s t = true →
  (∀ m, m ∈ members s t → m ≠ n → name s m ≠ name s n) →
  ∃ q, n ∈ members s q ∧ parent s n = Some q ∧
       NodeSet_contains s (members (unlisted s q n) t) (name s n) = false ∧
       mv p1 p2 s = (Ok tt, moved s q n t).
Proof.
  intros Hwf Hp1 Hp2 Hsn Htn Hn Ht Hd Hfree.
  destruct (source_listed s p1 sp n Hwf Hp1 Hsn Hn) as (q & Hin & _ & Hp).
  pose proof (free_in_target s n q t Hwf Hin Hd Hfree) as Hc.
  exists q. split; [done|]. split; [done|]. split; [done|].
  rewrite (mv_eq _ _ _ sp tp) by done. unfold move_node, bind.
  rewrite move_node_rename_eq, Hn, Ht.
  apply String.eqb_neq in Hsn, Htn. rewrite Hsn, Htn. unfold gets. simpl. rewrite Hd. simpl.
  by rewrite (set_parent_moves s n q t), Hc.
Qed.

(** X13.  [mv] into an existing directory.  On a well-formed tree, when
    the source path leads to a node [n], the target path to a directory [t]
    (both paths with a last component), and no other child of [t] carries
    the name of [n]: [mv] returns, [n] keeps its name, has [t] as parent and
    is found in [t] under its name; it is no longer found in the directory
    it came from; no other node changes name or parent, looking up any
    other name in any directory gives what it gave before, and the tree is
    still well-formed. *)
Theorem mv_into_directory s p1 p2 sp tp n t :
  wf s = true →
  resolve_path s p1 = Ok sp → resolve_path s p2 = Ok tp →
  pathlib.name sp ≠ "" → pathlib.name tp ≠ "" →
  get_node s sp = Ok n → get_node s tp = Ok t → is_Node s t = true →
  (∀ m, m ∈ members s t → m ≠ n → name s m ≠ name s n) →
  ∃ s', mv p1 p2 s = (Ok tt, s') ∧ wf s' = true ∧
    name s' n = name s n ∧ parent s' n = Some t ∧
    get_child s' t (name s n) = Ok n ∧
    (∀ q, parent s n = Some q → q ≠ t →
          get_child s' q (name s n) = Raise (NodeDoesNotExistError (name s n))) ∧
    (∀ m, m ≠ n → name s' m = name s m ∧ parent s' m = parent s m) ∧
    (∀ d y, y ≠ name s n → get_child s' d y = get_child s d y).
Proof.
  intros Hwf Hp1 Hp2 Hsn Htn Hn Ht Hd Hfree.
  destruct (mv_existing s p1 p2 sp tp n t) as (q & Hin & Hp & Hc & Hmv); try done.
  exists (moved s q n t). split; [done|]. split; [by apply wf_moved|].
  split; [apply name_moved|].
  split; [rewrite parent_moved by done; by destruct (decide _)|].
  split; [by apply get_child_moved_new|]. split; [|split].
  - intros q' Hq' Hne. assert (q' = q) as -> by congruence.
    by apply get_child_moved_old.
  - intros m Hm. split; [apply name_moved|].
    rewrite parent_moved by done. by destruct (decide _).
  - intros d y Hy. by apply get_child_moved_other.
Qed.

Lemma mv_into_directory_witness :
  ∃ s', mv "/a/x" "/b" two_siblings = (Ok tt, s') ∧ wf s' = true ∧
    name s' 2 = name two_siblings 2 ∧ parent s' 2 = Some 4%nat ∧
    get_child s' 4 (name two_siblings 2) = Ok 2%nat ∧
    (∀ q, parent two_siblings 2 = Some q → q ≠ 4%nat →
          get_child s' q (name two_siblings 2)
          = Raise (NodeDoesNotExistError (name two_siblings 2))) ∧
    (∀ m, m ≠ 2%nat → name s' m = name two_siblings m ∧ parent s' m = parent two_siblings m) ∧
    (∀ d y, y ≠ name two_siblings 2 → get_child s' d y = get_child two_siblings d y).
Proof.
  apply (mv_into_directory two_siblings "/a/x" "/b"
           (pathlib.of_str "/a/x") (pathlib.of_str "/b") 2 4);
    try evaluate; try (by vm_compute).
  intros m Hm. vm_compute in Hm. by apply elem_of_nil in Hm.
Defined.

Lemma name_renamed s n x m :
  is_Some (heap s !! n) →
  name (renamed s n x) m = if decide (n = m) then x else name s m.
Proof. apply name_with_name. Qed.

Lemma get_child_renamed s n x d y :
  is_Some (heap s !! n) → y ≠ x → y ≠ name s n →
  get_child (renamed s n x) d y = get_child s d y.
Proof.
  intros Hn Hx Hy. rewrite !get_child_eq. unfold renamed. rewrite kind_with_name.
  destruct (kind s d) as [ms|]; [|done].
  rewrite (find_ext_in (has_name (update n (with_name x) s) y) (has_name s y)); [done|].
  intros m _. unfold has_name. fold (renamed s n x). rewrite name_renamed by done.
  destruct (decide (n = m)) as [<-|]; [|done].
  transitivity false; [|symmetry]; apply String.eqb_neq; congruence.
Qed.

Lemma get_child_renamed_old s n q x :
  wf s = true → n ∈ members s q → x ≠ name s n →
  get_child (renamed s n x) q (name s n) = Raise (NodeDoesNotExistError (name s n)).
Proof.
  intros Hwf Hin Hx. pose proof Hwf as (Hl & _ & Hu & _)%wf_spec.
  pose proof (parent_Some_valid _ _ _ (linked_spec _ _ _ Hl Hin)) as Hvn.
  rewrite get_child_eq. unfold renamed. rewrite kind_with_name.
  rewrite (members_elem_Node _ _ _ Hin).
  rewrite contains_find_None; [done|]. apply contains_false. intros m Hm.
  fold (renamed s n x). rewrite name_renamed by done.
  destruct (decide (n = m)) as [<-|Hne]; [done|].
  intros E. by apply Hne, (unique_names_spec s q).
Qed.

Lemma missing_in_target s tp t e :
  pathlib.name tp ≠ "" →
  get_node s tp = Raise (NodeDoesNotExistError e) →
  get_node s (pathlib.parent tp) = Ok t →
  is_Node s t = true ∧ NodeSet_contains s (members s t) (pathlib.name tp) = false.
Proof.
  intros Htn Htp Hpar. rewrite (get_node_parent _ _ _ Htn Hpar), get_child_eq in Htp.
  unfold is_Node, members. destruct (kind s t) as [ms|]; [|done]. split; [done|].
  destruct (List.find _ ms) eqn:Hf; [done|]. by apply find_has_name_None.
Qed.

Lemma mv_missing s p1 p2 sp tp n t e :
  wf s = true →
  resolve_path s p1 = Ok sp → resolve_path s p2 = Ok tp →
  pathlib.name sp ≠ "" → pathlib.name tp ≠ "" →
  get_node s sp = Ok n →
  get_node s tp = Raise (NodeDoesNotExistError e) →
  get_node s (pathlib.parent tp) = Ok t →
  (∀ q m, parent s n = Some q → m ∈ members s q → m ≠ n → name s m ≠ pathlib.name tp) →
  let s1 := renamed s n (pathlib.name tp) in
  ∃ q, n ∈ members s q ∧ parent s n = Some q ∧ wf s1 = true ∧
       n ∈ members s1 q ∧ is_Node s1 t = true ∧ name s1 n = pathlib.name tp ∧
       (q = t → name s n ≠ pathlib.name tp) ∧
       NodeSet_contains s1 (members (unlisted s1 q n) t) (name s1 n) = false ∧
       mv p1 p2 s = (Ok tt, moved s1 q n t).
Proof.
  intros Hwf Hp1 Hp2 Hsn Htn Hn Htp Hpar Hfree s1.
  destruct (source_listed s p1 sp n Hwf Hp1 Hsn Hn) as (q & Hin & _ & Hp).
  destruct (missing_in_target s tp t e Htn Htp Hpar) as [Hd Hnone].
  pose proof (parent_Some_valid _ _ _ Hp) as Hvn.
  assert (Hwf1 : wf s1 = true).
  { apply (wf_renamed s n q); [done|done| |intros m; by apply Hfree].
    apply valid_path_name; [by eapply resolve_path_valid|done]. }
  assert (Hin1 : n ∈ members s1 q) by (unfold s1, renamed; by rewrite members_with_name).
  assert (Hd1 : is_Node s1 t = true) by (unfold s1, renamed, is_Node; by rewrite kind_with_name).
  assert (Hn1 : name s1 n = pathlib.name tp).
  { unfold s1. rewrite name_renamed by done. by destruct (decide _). }
  assert (Hc : NodeSet_contains s1 (members (unlisted s1 q n) t) (name s1 n) = false).
  { apply free_in_target; [done..|]. intros m Hm Hmn. rewrite Hn1.
    unfold s1 in *. rewrite name_renamed by done.
    destruct (decide (n = m)); [done|]. unfold renamed in Hm. rewrite members_with_name in Hm.
    by apply (proj1 (contains_false _ _ _) Hnone). }
  exists q. repeat (split; [done|]). split; [|split; [done|]].
  - intros -> E. by apply (proj1 (contains_false _ _ _) Hnone n).
  - rewrite (mv_eq _ _ _ sp tp) by done. unfold move_node, bind.
    rewrite move_node_rename_eq, Hn, Htp, Hpar.
    apply String.eqb_neq in Hsn, Htn. rewrite Hsn, Htn. unfold gets. simpl.
    fold (renamed s n (pathlib.name tp)). fold s1. rewrite Hd1. simpl.
    by rewrite (set_parent_moves s1 n q t), Hc.
Qed.

(** X14.  [mv] to a path that names nothing yet.  On a well-formed tree,
    when the source path leads to a node [n], the target path leads nowhere
    but its parent leads to a node [t], and no sibling of [n] carries the
    target's last component as its name: [t] is a directory, [mv] returns,
    [n] carries the target's last component as its name, has [t] as parent
    and is found in [t] under the new name; its old name is no longer found
    in the directory it was in; no other node changes name or parent,
    looking up any third name gives what it gave before, and the tree is
    still well-formed.  (Where a sibling does carry that name, see C2.) *)
Theorem mv_renames s p1 p2 sp tp n t e :
  wf s = true →
  resolve_path s p1 = Ok sp → resolve_path s p2 = Ok tp →
  pathlib.name sp ≠ "" → pathlib.name tp ≠ "" →
  get_node s sp = Ok n →
  get_node s tp = Raise (NodeDoesNotExistError e) →
  get_node s (pathlib.parent tp) = Ok t →
  (∀ q m, parent s n = Some q → m ∈ members s q → m ≠ n → name s m ≠ pathlib.name tp) →
  ∃ s', mv p1 p2 s = (Ok tt, s') ∧ wf s' = true ∧
    name s' n = pathlib.name tp ∧ parent s' n = Some t ∧
    get_child s' t (pathlib.name tp) = Ok n ∧
    (∀ q, parent s n = Some q →
          get_child s' q (name s n) = Raise (NodeDoesNotExistError (name s n))) ∧
    (∀ m, m ≠ n → name s' m = name s m ∧ parent s' m = parent s m) ∧
    (∀ d y, y ≠ name s n → y ≠ pathlib.name tp → get_child s' d y = get_child s d y).
Proof.
  intros Hwf Hp1 Hp2 Hsn Htn Hn Htp Hpar Hfree.
  destruct (mv_missing s p1 p2 sp tp n t e) as
    (q & Hin & Hp & Hwf1 & Hin1 & Hd1 & Hn1 & Hqt & Hc & Hmv); try done.
  pose proof (parent_Some_valid _ _ _ Hp) as Hvn.
  set (x := pathlib.name tp) in *. set (s1 := renamed s n x) in *.
  assert (Hname : ∀ m, m ≠ n → name s1 m = name s m).
  { intros m Hm. unfold s1. rewrite name_renamed by done. by destruct (decide _) as [<-|]. }
  exists (moved s1 q n t). split; [done|]. split; [by apply wf_moved|].
  split; [by rewrite name_moved|].
  split; [rewrite parent_moved by done; by destruct (decide _)|].
  split; [rewrite <- Hn1; by apply get_child_moved_new|]. split; [|split].
  - intros q' Hq'. assert (q' = q) as -> by congruence.
    destruct (decide (name s n = x)) as [E|E].
    + rewrite E, <- Hn1. apply get_child_moved_old; try done. intros ->. by apply Hqt.
    + rewrite get_child_moved_other by (done || by rewrite Hn1).
      apply get_child_renamed_old; [done|done|congruence].
  - intros m Hm. rewrite name_moved, parent_moved by done.
    destruct (decide _); [done|]. split; [by apply Hname|].
    unfold s1, renamed. apply parent_with_name.
  - intros d y Hy Hyx. rewrite get_child_moved_other by (done || by rewrite Hn1).
    by apply get_child_renamed.
Qed.

Lemma mv_renames_witness :
  ∃ s', mv "/a/x" "/b/z" two_siblings = (Ok tt, s') ∧ wf s' = true ∧
    name s' 2 = pathlib.name (pathlib.of_str "/b/z") ∧ parent s' 2 = Some 4%nat ∧
    get_child s' 4 (pathlib.name (pathlib.of_str "/b/z")) = Ok 2%nat ∧
    (∀ q, parent two_siblings 2 = Some q →
          get_child s' q (name two_siblings 2)
          = Raise (NodeDoesNotExistError (name two_siblings 2))) ∧
    (∀ m, m ≠ 2%nat → name s' m = name two_siblings m ∧ parent s' m = parent two_siblings m) ∧
    (∀ d y, y ≠ name two_siblings 2 → y ≠ pathlib.name (pathlib.of_str "/b/z") →
            get_child s' d y = get_child two_siblings d y).
Proof.
  apply (mv_renames two_siblings "/a/x" "/b/z"
           (pathlib.of_str "/a/x") (pathlib.of_str "/b/z") 2 4 "z");
    try evaluate; try (by vm_compute).
  intros q m Hq Hm Hne. vm_compute in Hq. injection Hq as <-. vm_compute in Hm.
  apply elem_of_cons in Hm as [->|Hm]; [done|].
  apply elem_of_cons in Hm as [->|Hm]; [by vm_compute|]. by apply elem_of_nil in Hm.
Defined.

(** climbing inside a set of nodes that the parent references never leave *)
Lemma get_path_loop_closed (P : nat → Prop) s :
  (∀ m, P m → ∃ p, parent s m = Some p ∧ P p) →
  ∀ fuel m path, P m → get_path_loop fuel s m path = Hang.
Proof.
  intros Hclosed. induction fuel as [|fuel IH]; intros m path Hm; simpl; [done|].
  destruct (Hclosed m Hm) as (p & -> & Hp). by apply IH.
Qed.

Lemma chain_closed (P : nat → Prop) s m l a :
  (∀ m, P m → ∃ p, parent s m = Some p ∧ P p) →
  chain s m l a → P m → P a.
Proof.
  intros Hclosed. induction 1 as [|m p l a Hp _ IH]; [done|]. intros Hm.
  destruct (Hclosed m Hm) as (p' & Hp' & HP). apply IH. congruence.
Qed.

Lemma reaches_parent s a m :
  linked s = true → reaches s a m → m = a ∨ ∃ d, parent s m = Some d ∧ reaches s a d.
Proof.
  intros Hl. destruct 1 as [|d m Hd Hm]; [by left|].
  right. exists d. split; [by apply linked_spec|done].
Qed.

Lemma moved_closed s n q t :
  wf s = true → n ∈ members s q → is_Node s t = true → reaches s n t →
  ∀ m, reaches s n m → ∃ p, parent (moved s q n t) m = Some p ∧ reaches s n p.
Proof.
  intros Hwf Hin Ht Hnt m Hm. pose proof Hwf as (Hl & _)%wf_spec.
  rewrite parent_moved by done. destruct (decide (n = m)) as [<-|Hne]; [eauto|].
  destruct (reaches_parent _ _ _ Hl Hm) as [->|(d & Hd & Hr)]; [done|eauto].
Qed.

(** X15.  [mv] does not refuse to move a directory into itself or into a
    directory below it.  On a well-formed tree, when the target [t] is the
    source [n] or lies below it (and holds no other child of that name),
    [mv] returns; afterwards the parent references of [n] and of every node
    below it run in a circle, so [get_path] of any of them (and [pwd], when
    the shell stands in one) never returns, and no path leads to any of
    them from the root. *)
Theorem mv_into_own_subtree s p1 p2 sp tp n t :
  wf s = true →
  resolve_path s p1 = Ok sp → resolve_path s p2 = Ok tp →
  pathlib.name sp ≠ "" → pathlib.name tp ≠ "" →
  get_node s sp = Ok n → get_node s tp = Ok t → is_Node s t = true →
  (∀ m, m ∈ members s t → m ≠ n → name s m ≠ name s n) →
  reaches s n t →
  ∃ s', mv p1 p2 s = (Ok tt, s') ∧
    (∀ m, reaches s n m → get_path s' m = Hang) ∧
    (∀ m path, reaches s n m → get_node s' path ≠ Ok m).
Proof.
  intros Hwf Hp1 Hp2 Hsn Htn Hn Ht Hd Hfree Hnt.
  destruct (mv_existing s p1 p2 sp tp n t) as (q & Hin & Hp & Hc & Hmv); try done.
  pose proof (moved_closed s n q t Hwf Hin Hd Hnt) as Hclosed.
  exists (moved s q n t). split; [done|]. split.
  - intros m Hm. unfold get_path. by apply (get_path_loop_closed (reaches s n)).
  - intros m path Hm Hfound.
    pose proof (wf_moved s n q t Hwf Hin Hd Hc) as (Hl' & Hr' & _)%wf_spec.
    destruct (reaches_attached _ _ Hl' (get_node_reaches _ _ _ Hfound)) as [l Ha].
    apply attached_chain in Ha.
    pose proof (chain_closed _ _ _ _ _ Hclosed Ha Hm) as Hroot.
    destruct (Hclosed _ Hroot) as (p & Hpp & _).
    rewrite (root_top_spec _ Hr') in Hpp. done.
Qed.

Lemma mv_into_own_subtree_witness :
  ∃ s', mv "/a" "/a/b" inside_a_b = (Ok tt, s') ∧
    (∀ m, reaches inside_a_b 1 m → get_path s' m = Hang) ∧
    (∀ m path, reaches inside_a_b 1 m → get_node s' path ≠ Ok m).
Proof.
  apply (mv_into_own_subtree inside_a_b "/a" "/a/b"
           (pathlib.of_str "/a") (pathlib.of_str "/a/b") 1 2);
    try evaluate; try (by vm_compute).
  - intros m Hm. vm_compute in Hm. by apply elem_of_nil in Hm.
  - apply (reaches_member _ _ 1); [apply reaches_self|].
    vm_compute. apply list_elem_of_here.
Defined.

(** * [managed_cd] *)

Lemma split_sep_cons x rest :
  no_sep x = true →
  pathlib.split_sep (x ++ "/" ++ rest) = x :: pathlib.split_sep rest.
Proof.
  induction x as [|c x IH]; simpl; [done|].
  intros [Hc Hx]%andb_prop. destruct (pathlib.is_sep c); [done|]. by rewrite IH.
Qed.

Lemma split_sep_join t :
  Forall (fun x => valid_name x = true) t → t ≠ [] →
  pathlib.split_sep (pathlib.join_sep t) = t.
Proof.
  induction 1 as [|x t Hx Ht IH]; [done|]. intros _.
  apply andb_prop in Hx as [_ Hx]. destruct t as [|y t].
  - simpl. by apply split_sep_no_sep.
  - change (pathlib.join_sep (x :: y :: t)) with (x ++ "/" ++ pathlib.join_sep (y :: t)).
    rewrite split_sep_cons by done. by rewrite IH.
Qed.

Lemma filter_keep_valid t :
  Forall (fun x => valid_name x = true) t → List.filter pathlib.keep t = t.
Proof.
  induction 1 as [|x t Hx Ht IH]; simpl; [done|].
  apply andb_prop in Hx as [-> _]. by rewrite IH.
Qed.

Lemma join_sep_head x t :
  valid_name x = true →
  ∃ c r, pathlib.join_sep (x :: t) = String c r ∧ pathlib.is_sep c = false.
Proof.
  intros [Hk Hx]%andb_prop. destruct x as [|c x]; [done|].
  simpl in Hx. apply andb_prop in Hx as [Hc%negb_true_iff _].
  destruct t; simpl; eauto.
Qed.

(** parsing the [str] of a path gives the path back *)
Lemma of_str_str p :
  valid_path p → pathlib.root p = "" ∨ pathlib.root p = "/" →
  pathlib.of_str (pathlib.str p) = p.
Proof.
  destruct p as [r t]. unfold valid_path. simpl. intros Hv [-> | ->].
  - destruct t as [|x t]; [done|].
    unfold pathlib.str, pathlib.of_str. cbn [pathlib.root pathlib.tail].
    change ("" ++ pathlib.join_sep (x :: t)) with (pathlib.join_sep (x :: t)).
    destruct (join_sep_head x t) as (c & r & E & Hc); [by inversion Hv|].
    assert (pathlib.splitroot (pathlib.join_sep (x :: t)) = ("", pathlib.join_sep (x :: t))) as ->.
    { rewrite E. simpl. by rewrite Hc. }
    by rewrite split_sep_join, filter_keep_valid.
  - destruct t as [|x t]; [done|].
    unfold pathlib.str, pathlib.of_str. cbn [pathlib.root pathlib.tail].
    destruct (join_sep_head x t) as (c & r & E & Hc); [by inversion Hv|].
    assert (pathlib.splitroot ("/" ++ pathlib.join_sep (x :: t))
            = ("/", pathlib.join_sep (x :: t))) as ->.
    { rewrite E. simpl. by rewrite Hc. }
    by rewrite split_sep_join, filter_keep_valid.
Qed.

Lemma get_child_heap s s' d x : heap s' = heap s → get_child s' d x = get_child s d x.
Proof.
  intros Hh. rewrite !get_child_eq. unfold kind, deref. rewrite Hh.
  destruct (_kind _) as [ms|]; [|done].
  rewrite (find_ext_in (has_name s' x) (has_name s x)); [done|].
  intros m _. unfold has_name, name, deref. by rewrite Hh.
Qed.

Lemma walk_heap s s' a l : heap s' = heap s → walk s' a l = walk s a l.
Proof.
  intros Hh. revert a. induction l as [|x l IH]; intros a; simpl; [done|].
  rewrite (get_child_heap s s') by done.
  destruct (get_child s a x); simpl; [apply IH|done..].
Qed.

Lemma get_node_heap s s' path :
  heap s' = heap s → root s' = root s → get_node s' path = get_node s path.
Proof.
  intros Hh Hr. unfold get_node. destruct (pathlib.parts path) as [|r ps]; [done|].
  rewrite Hr, (get_child_heap s s') by done.
  assert (name s' (root s) = name s (root s)) as ->.
  { unfold name, deref. by rewrite Hh. }
  destruct (if r =? name s (root s) then _ else _); simpl; [by apply walk_heap|done..].
Qed.

Lemma cd_found s p path n :
  resolve_path s p = Ok path → get_node s path = Ok n → is_Node s n = true →
  cd p s = (Ok tt, mkState (heap s) (root s) n (calls s)).
Proof.
  intros Hp Hn Hd. unfold cd, resolved, bind, lift, try, gets, modify.
  rewrite Hp. simpl. rewrite Hn. simpl. by rewrite Hd.
Qed.

Lemma extends_walk s s' a l n : extends s s' → walk s a l = Ok n → walk s' a l = Ok n.
Proof.
  intros (_ & _ & _ & H). revert a. induction l as [|x l IH]; intros a; simpl; [done|].
  destruct (get_child s a x) as [c| |] eqn:Hc; simpl; [|done..].
  rewrite (H _ _ _ Hc). simpl. apply IH.
Qed.

Lemma extends_get_node s s' path n :
  extends s s' → get_node s path = Ok n → get_node s' path = Ok n.
Proof.
  intros He. pose proof He as (Hr & Hn & _ & H). unfold get_node.
  destruct (pathlib.parts path) as [|r ps]; [done|]. rewrite Hr, Hn.
  destruct (r =? name s (root s)); simpl; [by apply extends_walk|].
  destruct (get_child s (root s) r) as [c| |] eqn:Hc; simpl; [|done..].
  rewrite (H _ _ _ Hc). simpl. by apply extends_walk.
Qed.

(** a tree that has grown from a state of the same heap and root, whatever
    the working directory was *)
Lemma grows_extends s0 s s' :
  heap s = heap s0 → root s = root s0 → grows s s' → extends s0 s'.
Proof.
  intros Hh Hr (Hr' & _ & Hn & Hd & _ & Hc).
  assert (Hk : ∀ m, kind s m = kind s0 m) by (intros m; unfold kind, deref; by rewrite Hh).
  split; [congruence|]. split; [|split].
  - rewrite <- Hr, Hn. unfold name, deref. by rewrite Hh.
  - intros m Hm. apply Hd. unfold is_Node in *. by rewrite Hk.
  - intros d x c Hx. apply Hc. by rewrite (get_child_heap s0 s).
Qed.

(** X16.  [with shell.managed_cd(target): body] brings the shell back.  On
    a well-formed tree with the shell standing in the directory that its
    absolute, [".."]-free working path leads to, and a target that leads to
    a directory: if the body, run with the target as working directory,
    returns or raises, and has at most added nodes to the tree (the root is
    the same, every lookup that succeeded still gives the same node,
    directories are still directories; the body may have changed the
    working directory), then the whole block returns or raises what the
    body did, and the working directory is the one from before the block;
    nothing else differs from the state the body left. *)
Theorem managed_cd_restores {A} (body : M A) s target tp t cw r s2 :
  wf s = true → pwd s = Ok cw → pathlib.root cw = "/" →
  mem ".." (pathlib.tail cw) = false →
  get_node s cw = Ok (_cwd s) → is_Node s (_cwd s) = true →
  resolve_path s target = Ok tp → get_node s tp = Ok t → is_Node s t = true →
  body (mkState (heap s) (root s) t (calls s)) = (r, s2) → r ≠ Hang →
  extends (mkState (heap s) (root s) t (calls s)) s2 →
  managed_cd target body s = (r, mkState (heap s2) (root s2) (_cwd s) (calls s2)).
Proof.
  intros Hwf Hpwd Hroot Hdd Hcw Hd Hp Hn Ht Hbody Hr Hg.
  pose proof Hwf as (_ & _ & _ & _ & Hrn & _)%wf_spec.
  set (s1 := mkState (heap s) (root s) t (calls s)) in *.
  assert (Hexit : CDCM_exit cw s2 = (Ok tt, mkState (heap s2) (root s2) (_cwd s) (calls s2))).
  { unfold CDCM_exit.
    pose proof (of_str_str cw (valid_path_get_path _ _ _ Hpwd) (or_intror Hroot)) as Hrt.
    apply (cd_found s2 _ cw).
    - rewrite <- Hrt at 2. apply resolve_path_absolute; rewrite ?Hrt; try done.
      destruct Hg as (-> & -> & _). exact Hrn.
    - apply (extends_get_node s1); [done|]. by rewrite (get_node_heap s s1).
    - destruct Hg as (_ & _ & H & _). apply H.
      unfold is_Node, kind, deref in *. exact Hd. }
  assert (Henter : CDCM_enter target s = (Ok cw, s1)).
  { unfold CDCM_enter, bind, lift. by rewrite Hpwd, (cd_found s target tp t Hp Hn Ht). }
  unfold managed_cd, bind. rewrite Henter, Hbody.
  destruct r as [a|e|]; [| |done]; by rewrite Hexit.
Qed.


Lemma managed_cd_restores_witness :
  let s1 := mkState (heap inside_a_b) (root inside_a_b) 0 (calls inside_a_b) in
  let s2 := exec (let! _ := cd "/a" in touch "x") s1 in
  managed_cd "/" (let! _ := cd "/a" in touch "x") inside_a_b
  = (Ok tt, mkState (heap s2) (root s2) (_cwd inside_a_b) (calls s2)).
Proof.
  intros s1 s2.
  apply (managed_cd_restores (let! _ := cd "/a" in touch "x") inside_a_b "/"
           (pathlib.of_str "/") 0 (pathlib.of_str "/a/b") (Ok tt) s2);
    try evaluate; [done|].
  apply (grows_extends s1 (exec (cd "/a") s1)); [evaluate|evaluate|].
  apply (touch_keeps (exec (cd "/a") s1) "x"). evaluate.
Defined.

(** * [Filesystem.remove_node] *)

Lemma get_child_detached_other s q n d y :
  n ∈ members s q → y ≠ name s n →
  get_child (detached s q n) d y = get_child s d y.
Proof.
  intros Hin Hy. rewrite !get_child_eq.
  pose proof (is_Node_detached s q n d Hin) as Hd.
  assert (Hf : List.filter (has_name s y) (members (detached s q n) d) =
               List.filter (has_name s y) (members s d)).
  { rewrite members_detached by (by eapply kind_Node_valid, members_elem_Node).
    destruct (decide (q = d)) as [->|]; [|done].
    apply filter_set_remove. unfold has_name. apply String.eqb_neq. congruence. }
  unfold is_Node, members in *.
  destruct (kind (detached s q n) d) as [ms'|], (kind s d) as [ms|]; try done.
  rewrite !find_filter.
  rewrite (filter_ext (has_name (detached s q n) y) (has_name s y))
    by (intros m; unfold has_name; by rewrite name_detached).
  by rewrite Hf.
Qed.

Lemma get_node_snoc s path :
  pathlib.name path ≠ "" → pathlib.root path ≠ "" →
  get_node s path =
  obind (get_node s (pathlib.parent path)) (fun q => get_child s q (pathlib.name path)).
Proof.
  intros Hname Hroot%String.eqb_neq.
  destruct (path_name_snoc _ Hname) as (l & Ht & Hparent).
  rewrite Hparent. unfold get_node, pathlib.parts. simpl. rewrite Ht, Hroot.
  destruct (if pathlib.root path =? name s (root s) then _ else _) as [n0| |];
    simpl; [|done..].
  rewrite walk_app. destruct (walk s n0 l) as [par| |]; simpl; [|done..].
  by rewrite obind_Ok_r.
Qed.

Lemma get_child_detached_gone s q n :
  wf s = true → n ∈ members s q →
  get_child (detached s q n) q (name s n) = Raise (NodeDoesNotExistError (name s n)).
Proof.
  intros Hwf Hin. pose proof Hwf as (_ & _ & Hu & _)%wf_spec.
  pose proof (kind_Node_valid _ _ _ (members_elem_Node _ _ _ Hin)) as Hvq.
  assert (Hq : is_Node s q = true).
  { unfold is_Node. by rewrite (members_elem_Node _ _ _ Hin). }
  rewrite get_child_eq.
  pose proof (is_Node_detached s q n q Hin) as Hd. rewrite Hq in Hd.
  rewrite (is_Node_members _ _ Hd), members_detached by done.
  destruct (decide (q = q)); [|done].
  rewrite contains_find_None; [done|]. apply contains_false.
  intros m [Hm Hmn]%elem_of_set_remove. rewrite name_detached. intros E.
  by apply Hmn, (unique_names_spec s q).
Qed.

(** X17.  [Filesystem.remove_node] of a path with a last component.  On a
    well-formed tree, when the path leads to a node [n]: the call returns
    [n], which now has no parent and is no longer found under its name in
    the directory it was in; its own children stay with it, no name and no
    other parent reference changes, looking up any other name gives what
    it gave before, and the tree is still well-formed.  When the path or
    its parent leads nowhere the call raises [InvalidPathError] and
    changes nothing. *)
Theorem remove_node_detaches s path :
  wf s = true → pathlib.name path ≠ "" → pathlib.root path ≠ "" →
  (∀ n, get_node s path = Ok n →
     ∃ q s', remove_node path s = (Ok n, s') ∧ wf s' = true ∧
       parent s n = Some q ∧ parent s' n = None ∧
       get_child s' q (pathlib.name path)
       = Raise (NodeDoesNotExistError (pathlib.name path)) ∧
       (∀ m, name s' m = name s m) ∧
       (∀ m, m ≠ n → parent s' m = parent s m) ∧
       (∀ d, d ≠ q → members s' d = members s d) ∧
       (∀ d y, y ≠ pathlib.name path → get_child s' d y = get_child s d y)) ∧
  (∀ e, get_node s path = Raise (NodeDoesNotExistError e) →
     remove_node path s = (Raise InvalidPathError, s)).
Proof.
  intros Hwf Hname Hroot. pose proof Hwf as (Hl & _)%wf_spec. split.
  - intros n Hn.
    destruct (get_node_split _ _ _ Hn Hname Hroot) as (q & Hq & Hc).
    destruct (remove_child_member _ _ _ _ Hl Hc) as [Hp Hrm].
    pose proof (get_child_Ok _ _ _ _ Hc) as (Hk & Hin & Hx & _).
    pose proof (parent_Some_valid _ _ _ Hp) as Hvn.
    pose proof (kind_Node_valid _ _ _ Hk) as Hvq.
    exists q, (detached s q n). split; [|split; [|split; [|split; [|split; [|split; [|split; [|split]]]]]]].
    + unfold remove_node, bind, try, lift, gets. rewrite Hq. simpl.
      unfold is_Node. rewrite Hk. simpl. rewrite <- Hx, Hrm. done.
    + by apply wf_detached.
    + done.
    + rewrite parent_detached by done. by destruct (decide _).
    + rewrite <- Hx. by apply get_child_detached_gone.
    + intros m. apply name_detached.
    + intros m Hm. rewrite parent_detached by done. by destruct (decide _).
    + intros d Hd. rewrite members_detached by done. by destruct (decide _).
    + intros d y Hy. apply get_child_detached_other; [done|congruence].
  - intros e He. rewrite (get_node_snoc s path Hname Hroot) in He.
    unfold remove_node, bind, try, lift, gets.
    destruct (get_node s (pathlib.parent path)) as [q|e'|]; simpl in *; [| |done].
    + rewrite get_child_eq in He. unfold is_Node.
      destruct (kind s q) as [ms|] eqn:Hk; [|done]. simpl.
      unfold remove_child, bind, lift. rewrite get_child_eq, Hk.
      by destruct (List.find _ ms).
    + by injection He as ->.
Qed.

Lemma remove_node_detaches_witness :
  ∃ q s', remove_node (pathlib.of_str "/a/b") nested_leaf = (Ok 2%nat, s') ∧ wf s' = true ∧
    parent nested_leaf 2 = Some q ∧ parent s' 2 = None ∧
    get_child s' q (pathlib.name (pathlib.of_str "/a/b"))
    = Raise (NodeDoesNotExistError (pathlib.name (pathlib.of_str "/a/b"))) ∧
    (∀ m, name s' m = name nested_leaf m) ∧
    (∀ m, m ≠ 2%nat → parent s' m = parent nested_leaf m) ∧
    (∀ d, d ≠ q → members s' d = members nested_leaf d) ∧
    (∀ d y, y ≠ pathlib.name (pathlib.of_str "/a/b") →
            get_child s' d y = get_child nested_leaf d y).
Proof.
  destruct (remove_node_detaches nested_leaf (pathlib.of_str "/a/b")) as [H _];
    [evaluate|by vm_compute|by vm_compute|].
  apply H. evaluate.
Defined.

(** X18.  [rm] is [Filesystem.remove_node] where it removes: on a
    well-formed tree, for a path with a last component that leads to a
    leaf, or to a directory when [recursive] is set, [rm] does what
    [remove_node] of the resolved path does, and returns the same node. *)
Theorem rm_is_remove_node s p path n recursive :
  wf s = true → resolve_path s p = Ok path →
  pathlib.name path ≠ "" → pathlib.root path ≠ "" →
  get_node s path = Ok n → is_Node s n && negb recursive = false →
  rm p recursive s = remove_node path s.
Proof.
  intros Hwf Hp Hname Hroot Hn Hrec. pose proof Hwf as (Hl & _)%wf_spec.
  destruct (get_node_split _ _ _ Hn Hname Hroot) as (q & Hq & Hc).
  destruct (remove_child_member _ _ _ _ Hl Hc) as [Hpar Hrm].
  pose proof (get_child_Ok _ _ _ _ Hc) as (Hk & _ & Hx & _).
  rewrite rm_eq, Hp, Hn, Hrec, Hpar, Hrm.
  unfold remove_node, bind, try, lift, gets. rewrite Hq. simpl.
  unfold is_Node. rewrite Hk. simpl. by rewrite <- Hx, Hrm.
Qed.

Lemma rm_is_remove_node_witness :
  rm "/a/b/f" false nested_leaf = remove_node (pathlib.of_str "/a/b/f") nested_leaf.
Proof.
  apply (rm_is_remove_node nested_leaf "/a/b/f" (pathlib.of_str "/a/b/f") 3);
    try evaluate; by vm_compute.
Defined.
